(** * cv-evaluator: the asynchronous evaluation pipeline

    A shallow embedding of the Go sources of the pipeline (text chunker,
    context assembler, retrying generation client, structured-response
    extractor, evaluation state machine, job store and worker pool) and
    the properties its specification states about them.

    Conventions of the embedding:
    - a Go [string] is a sequence of bytes: Rocq's [string], one [ascii]
      per byte; [len] is the byte length;
    - a Go [int] is a [Z] (no run of the pipeline gets near 2^63);
    - a Go [error] is its message ([err.Error()]); a function returning
      [(T, error)] returns a [Result T];
    - a nullable column / pointer field is an [option];
    - a [float64] is a primitive binary64 [float]. *)

From Stdlib Require Import ZArith List String Ascii Bool Lia Floats.
From stdpp Require Import gmap.
Import ListNotations.

Local Open Scope string_scope.
Local Open Scope Z_scope.

(** ** Results and errors *)

Inductive Result (A : Type) : Type :=
| Ok (a : A)
| Err (msg : string).
Arguments Ok {A} a.
Arguments Err {A} msg.

Definition isOk {A} (r : Result A) : bool :=
  match r with Ok _ => true | Err _ => false end.

(** ** Go strings *)

Module GoString.

(** [len(s)]: the number of bytes. *)
Definition len (s : string) : Z := Z.of_nat (String.length s).

Definition byte (n : nat) : ascii := ascii_of_nat n.

Fixpoint bytes (l : list nat) : string :=
  match l with
  | [] => EmptyString
  | n :: l' => String (byte n) (bytes l')
  end.

Definition code (c : ascii) : N := N_of_ascii c.

Definition inRange (lo hi : N) (c : ascii) : bool :=
  (N.leb lo (code c)) && (N.leb (code c) hi).

Definition isEmpty (s : string) : bool :=
  match s with EmptyString => true | String _ _ => false end.

Fixpoint rev (s : string) : string :=
  match s with
  | EmptyString => EmptyString
  | String c s' => rev s' ++ String c EmptyString
  end.

Fixpoint drop (n : nat) (s : string) : string :=
  match n, s with
  | O, _ => s
  | S _, EmptyString => EmptyString
  | S k, String _ s' => drop k s'
  end.

Fixpoint take (n : nat) (s : string) : string :=
  match n, s with
  | O, _ => EmptyString
  | S _, EmptyString => EmptyString
  | S k, String c s' => String c (take k s')
  end.

(** [s[lo:hi]] for [0 <= lo <= hi <= len(s)]. *)
Definition slice (s : string) (lo hi : Z) : string :=
  take (Z.to_nat (hi - lo)) (drop (Z.to_nat lo) s).

(** [strings.HasPrefix(s, p)]. *)
Fixpoint HasPrefix (s p : string) {struct p} : bool :=
  match p, s with
  | EmptyString, _ => true
  | String _ _, EmptyString => false
  | String a p', String b s' => Ascii.eqb a b && HasPrefix s' p'
  end.

(** [strings.Contains(s, sub)]. *)
Fixpoint Contains (s sub : string) : bool :=
  match s with
  | EmptyString => HasPrefix s sub
  | String _ s' => HasPrefix s sub || Contains s' sub
  end.

(** The white space of [unicode.IsSpace], by UTF-8 encoding: the six ASCII
    bytes, U+0085 and U+00A0 (two bytes), U+1680, U+2000..U+200A, U+2028,
    U+2029, U+202F, U+205F and U+3000 (three bytes). *)
Definition asciiSpace (c : ascii) : bool :=
  inRange 9 13 c || N.eqb (code c) 32.

Definition space2 (c1 c2 : ascii) : bool :=
  N.eqb (code c1) 194 && (N.eqb (code c2) 133 || N.eqb (code c2) 160).

Definition space3 (c1 c2 c3 : ascii) : bool :=
  (N.eqb (code c1) 225 && N.eqb (code c2) 154 && N.eqb (code c3) 128)
  || (N.eqb (code c1) 226 && N.eqb (code c2) 128
      && (inRange 128 138 c3 || inRange 168 169 c3 || N.eqb (code c3) 175))
  || (N.eqb (code c1) 226 && N.eqb (code c2) 129 && N.eqb (code c3) 159)
  || (N.eqb (code c1) 227 && N.eqb (code c2) 128 && N.eqb (code c3) 128).

(** Leading white space removed, one encoded rune at a time. *)
Fixpoint trimLeft (s : string) : string :=
  match s with
  | EmptyString => EmptyString
  | String c1 s1 =>
      if asciiSpace c1 then trimLeft s1
      else match s1 with
           | String c2 s2 =>
               if space2 c1 c2 then trimLeft s2
               else match s2 with
                    | String c3 s3 =>
                        if space3 c1 c2 c3 then trimLeft s3 else s
                    | EmptyString => s
                    end
           | EmptyString => s
           end
  end.

(** The same from the end, on the reversed string: [utf8.DecodeLastRune]
    reads a trailing rune exactly when the string ends with its encoding. *)
Fixpoint trimLeftRev (s : string) : string :=
  match s with
  | EmptyString => EmptyString
  | String c1 s1 =>
      if asciiSpace c1 then trimLeftRev s1
      else match s1 with
           | String c2 s2 =>
               if space2 c2 c1 then trimLeftRev s2
               else match s2 with
                    | String c3 s3 =>
                        if space3 c3 c2 c1 then trimLeftRev s3 else s
                    | EmptyString => s
                    end
           | EmptyString => s
           end
  end.

Definition trimRight (s : string) : string := rev (trimLeftRev (rev s)).

(** [strings.TrimSpace(s)]. *)
Definition TrimSpace (s : string) : string := trimRight (trimLeft s).

(** [strings.Split(s, sep)] for a non-empty [sep]: the pieces between the
    leftmost non-overlapping occurrences of [sep]. [skip] counts the bytes
    of a matched separator still to step over, [acc] is the piece so far. *)
Fixpoint splitAux (sep : string) (skip : nat) (acc : string) (s : string)
  : list string :=
  match s with
  | EmptyString => [acc]
  | String c s' =>
      match skip with
      | S k => splitAux sep k acc s'
      | O =>
          if HasPrefix s sep
          then acc :: splitAux sep (String.length sep - 1) EmptyString s'
          else splitAux sep O (acc ++ String c EmptyString) s'
      end
  end.

Definition Split (s sep : string) : list string := splitAux sep O EmptyString s.

(** [strings.FieldsFunc(s, f)] for a predicate [f] that holds of ASCII
    runes only: the maximal runs of bytes on which [f] is false.  (A byte
    of a multi-byte or invalid sequence never decodes to an ASCII rune.) *)
Fixpoint fieldsAux (f : ascii -> bool) (acc : string) (s : string)
  : list string :=
  match s with
  | EmptyString => if isEmpty acc then [] else [acc]
  | String c s' =>
      if f c
      then ((if isEmpty acc then [] else [acc]) ++ fieldsAux f EmptyString s')%list
      else fieldsAux f (acc ++ String c EmptyString) s'
  end.

Definition FieldsFunc (s : string) (f : ascii -> bool) : list string :=
  fieldsAux f EmptyString s.

(** [strings.Join(parts, sep)]. *)
Fixpoint Join (parts : list string) (sep : string) : string :=
  match parts with
  | [] => EmptyString
  | [p] => p
  | p :: rest => p ++ sep ++ Join rest sep
  end.

(** [strings.ReplaceAll(s, old, new)] for a non-empty [old]: the leftmost
    non-overlapping occurrences of [old] are replaced.  [skip] counts the
    bytes of a matched occurrence still to step over. *)
Fixpoint replaceAux (old new : string) (skip : nat) (s : string) : string :=
  match s with
  | EmptyString => EmptyString
  | String c s' =>
      match skip with
      | S k => replaceAux old new k s'
      | O =>
          if HasPrefix s old
          then new ++ replaceAux old new (String.length old - 1) s'
          else String c (replaceAux old new O s')
      end
  end.

Definition ReplaceAll (s old new : string) : string := replaceAux old new O s.

(** [strings.Index(s, substr)]: the first index of [substr], or -1. *)
Fixpoint indexAux (substr : string) (i : Z) (s : string) : Z :=
  if HasPrefix s substr then i
  else match s with
       | EmptyString => -1
       | String _ s' => indexAux substr (i + 1) s'
       end.

Definition Index (s substr : string) : Z := indexAux substr 0 s.

(** [strings.LastIndex(s, substr)]: the last index of [substr], or -1. *)
Fixpoint lastIndexAux (substr : string) (i : Z) (found : Z) (s : string) : Z :=
  let found' := if HasPrefix s substr then i else found in
  match s with
  | EmptyString => found'
  | String _ s' => lastIndexAux substr (i + 1) found' s'
  end.

Definition LastIndex (s substr : string) : Z := lastIndexAux substr 0 (-1) s.

(** *** UTF-8 decoding, as [unicode/utf8] does it

    [runeWidth s] is the number of bytes of the rune that starts [s] when
    they are a valid encoding, and [0] when the first byte starts none
    (the decoder then yields U+FFFD for that one byte). *)
Definition cont (c : ascii) : bool := inRange 128 191 c.

Definition runeWidth (s : string) : nat :=
  match s with
  | EmptyString => O
  | String b0 r =>
      if N.ltb (code b0) 128 then 1%nat
      else match r with
      | EmptyString => O
      | String b1 r1 =>
          if inRange 194 223 b0 then (if cont b1 then 2%nat else O)
          else
            let ok1 :=
              if N.eqb (code b0) 224 then inRange 160 191 b1
              else if N.eqb (code b0) 237 then inRange 128 159 b1
              else if N.eqb (code b0) 240 then inRange 144 191 b1
              else if N.eqb (code b0) 244 then inRange 128 143 b1
              else cont b1 in
            match r1 with
            | EmptyString => O
            | String b2 r2 =>
                if inRange 224 239 b0
                then (if ok1 && cont b2 then 3%nat else O)
                else if inRange 240 244 b0
                then match r2 with
                     | EmptyString => O
                     | String b3 _ =>
                         if ok1 && cont b2 && cont b3 then 4%nat else O
                     end
                else O
            end
      end
  end.

(** U+FFFD, encoded. *)
Definition RuneError : string := bytes [239; 191; 189]%nat.

(** [[]rune(s)], each rune kept as its own UTF-8 encoding (what
    [string(runes)] writes back): a valid rune is its bytes, an invalid
    byte is U+FFFD. *)
Fixpoint runesAux (fuel : nat) (s : string) : list string :=
  match fuel with
  | O => []
  | S fuel' =>
      match s with
      | EmptyString => []
      | String _ r =>
          match runeWidth s with
          | O => RuneError :: runesAux fuel' r
          | w => take w s :: runesAux fuel' (drop w s)
          end
      end
  end.

Definition runes (s : string) : list string := runesAux (String.length s) s.

(** [utf8.RuneCountInString(s)]. *)
Definition RuneCountInString (s : string) : Z := Z.of_nat (List.length (runes s)).

(** [string(rs)] for a slice of runes. *)
Definition ofRunes (rs : list string) : string :=
  fold_right append EmptyString rs.

(** Decimal rendering of an [int] ([%d]). *)
Fixpoint digitsAux (fuel : nat) (n : N) (acc : string) : string :=
  match fuel with
  | O => acc
  | S fuel' =>
      let d := String (ascii_of_N (48 + N.modulo n 10)) acc in
      if N.ltb n 10 then d else digitsAux fuel' (N.div n 10) d
  end.

Definition Itoa (z : Z) : string :=
  let n := Z.abs_N z in
  let ds := digitsAux (S (N.to_nat (N.log2 n))) n EmptyString in
  if z <? 0 then String "-" ds else ds.

End GoString.

Import GoString.

(** ** internal/services/chuncker.go *)

Module Chunker.

Definition isSentenceEnd (r : ascii) : bool :=
  Ascii.eqb r "." || Ascii.eqb r "!" || Ascii.eqb r "?".

Definition splitIntoSentences (text : string) : list string :=
  let sentences := FieldsFunc text isSentenceEnd in
  fold_left
    (fun result s =>
       let s := TrimSpace s in
       if isEmpty s then result else (result ++ [s])%list)
    sentences [].

Definition getLastNChars (text : string) (n : Z) : string :=
  if n <=? 0 then EmptyString
  else
    let rs := runes text in
    if Z.of_nat (List.length rs) <=? n then text
    else ofRunes (skipn (List.length rs - Z.to_nat n) rs).

(** The loop state of [ChunkText]: the chunks closed so far and the
    [strings.Builder] holding the running chunk. *)
Record state := { chunks : list string; currentChunk : string }.

(** Closing the running chunk and seeding the next one with the overlap
    (the body of [if currentChunk.Len() > 0] in both branches; [sep] is
    the separator written after the overlap text). *)
Definition flush (overlap : Z) (sep : string) (st : state) : state :=
  let chunks' := (chunks st ++ [currentChunk st])%list in
  let seeded :=
    if (0 <? Z.of_nat (List.length chunks')) && (0 <? overlap)
    then
      let prevChunk := List.last chunks' EmptyString in
      let overlapText := getLastNChars prevChunk overlap in
      if isEmpty overlapText then overlapText else overlapText ++ sep
    else EmptyString in
  {| chunks := chunks'; currentChunk := seeded |}.

(** One unit (a sentence or a paragraph) added to the running chunk:
    [room] is the allowance for the separator in the size test (1 for a
    sentence, 2 for a paragraph), [sep] the separator itself. *)
Definition addUnit (maxChunkSize overlap : Z) (room : Z) (sep : string)
  (st : state) (unit : string) : state :=
  let st1 :=
    if len (currentChunk st) + len unit + room >? maxChunkSize
    then (if len (currentChunk st) >? 0 then flush overlap sep st else st)
    else st in
  let cur :=
    if len (currentChunk st1) >? 0
    then currentChunk st1 ++ sep
    else currentChunk st1 in
  {| chunks := chunks st1; currentChunk := cur ++ unit |}.

Definition spaceSep : string := " ".
Definition paraSep : string := String (byte 10) (String (byte 10) EmptyString).

Definition addSentence (maxChunkSize overlap : Z) (st : state) (sentence : string)
  : state :=
  let sentence := TrimSpace sentence in
  if isEmpty sentence then st
  else addUnit maxChunkSize overlap 1 spaceSep st sentence.

Definition addParagraph (maxChunkSize overlap : Z) (st : state) (para : string)
  : state :=
  let para := TrimSpace para in
  if isEmpty para then st
  else if RuneCountInString para >? maxChunkSize
  then fold_left (addSentence maxChunkSize overlap) (splitIntoSentences para) st
  else addUnit maxChunkSize overlap 2 paraSep st para.

(** The defaults applied to the two sizes on entry. *)
Definition effMax (maxChunkSize : Z) : Z :=
  if maxChunkSize <=? 0 then 1000 else maxChunkSize.

Definition effOverlap (maxChunkSize overlap : Z) : Z :=
  let m := effMax maxChunkSize in
  let o := if overlap <? 0 then 0 else overlap in
  if o >=? m then Z.quot m 4 else o.

Definition ChunkText (text : string) (maxChunkSize overlap : Z) : list string :=
  let m := effMax maxChunkSize in
  let o := effOverlap maxChunkSize overlap in
  let paragraphs := Split text paraSep in
  let st :=
    fold_left (addParagraph m o) paragraphs
      {| chunks := []; currentChunk := EmptyString |} in
  if len (currentChunk st) >? 0
  then (chunks st ++ [currentChunk st])%list
  else chunks st.

End Chunker.

(** ** internal/models: the evaluation job and the document reference *)

Module Models.

Definition UUID := N.
Definition Time := Z.

Inductive EvaluationStatus :=
| StatusQueued
| StatusProcessing
| StatusCompleted
| StatusFailed.

Definition statusEqb (a b : EvaluationStatus) : bool :=
  match a, b with
  | StatusQueued, StatusQueued
  | StatusProcessing, StatusProcessing
  | StatusCompleted, StatusCompleted
  | StatusFailed, StatusFailed => true
  | _, _ => false
  end.

(** The row of table [evaluations]; a nullable column is an [option].
    (The two [Document] relations of the struct are never loaded by the
    pipeline and are left out.) *)
Record Evaluation := {
  ID : UUID;
  JobTitle : string;
  CVDocumentID : UUID;
  ProjectDocumentID : UUID;
  Status : EvaluationStatus;
  CVMatchRate : option float;
  CVFeedback : option string;
  ProjectScore : option float;
  ProjectFeedback : option string;
  OverallSummary : option string;
  ErrorMessage : option string;
  CreatedAt : Time;
  UpdatedAt : Time
}.

Record Document := {
  DocID : UUID;
  Filename : string;
  OriginalFileName : string;
  FileType : string;
  FilePath : string
}.

(** The record [HandleEvaluate] creates for a new job. *)
Definition newEvaluation (id : UUID) (jobTitle : string) (cvDocID projectDocID : UUID)
  (now : Time) : Evaluation :=
  {| ID := id; JobTitle := jobTitle;
     CVDocumentID := cvDocID; ProjectDocumentID := projectDocID;
     Status := StatusQueued;
     CVMatchRate := None; CVFeedback := None;
     ProjectScore := None; ProjectFeedback := None;
     OverallSummary := None; ErrorMessage := None;
     CreatedAt := now; UpdatedAt := now |}.

End Models.

Import Models.

(** ** internal/repositories/evaluation.go: the Job Store *)

Module Repositories.

(** One entry of the [map[string]interface{}] handed to gorm's [Updates]:
    a column and its new value. *)
Inductive assignment :=
| status_ (s : EvaluationStatus)
| updated_at (t : Time)
| cv_match_rate (x : float)
| cv_feedback (s : string)
| project_score (x : float)
| project_feedback (s : string)
| overall_summary (s : string)
| error_message (s : string).

Definition assign (a : assignment) (e : Evaluation) : Evaluation :=
  let mk st mr cf ps pf os em up :=
    {| ID := ID e; JobTitle := JobTitle e;
       CVDocumentID := CVDocumentID e; ProjectDocumentID := ProjectDocumentID e;
       Status := st;
       CVMatchRate := mr; CVFeedback := cf;
       ProjectScore := ps; ProjectFeedback := pf;
       OverallSummary := os; ErrorMessage := em;
       CreatedAt := CreatedAt e; UpdatedAt := up |} in
  let st := Status e in
  let mr := CVMatchRate e in
  let cf := CVFeedback e in
  let ps := ProjectScore e in
  let pf := ProjectFeedback e in
  let os := OverallSummary e in
  let em := ErrorMessage e in
  let up := UpdatedAt e in
  match a with
  | status_ s => mk s mr cf ps pf os em up
  | updated_at t => mk st mr cf ps pf os em t
  | cv_match_rate x => mk st (Some x) cf ps pf os em up
  | cv_feedback s => mk st mr (Some s) ps pf os em up
  | project_score x => mk st mr cf (Some x) pf os em up
  | project_feedback s => mk st mr cf ps (Some s) os em up
  | overall_summary s => mk st mr cf ps pf (Some s) em up
  | error_message s => mk st mr cf ps pf os (Some s) up
  end.

(** The columns named in the map are written; every other column of the
    row keeps its value. *)
Definition assignAll (updates : list assignment) (e : Evaluation) : Evaluation :=
  fold_left (fun e a => assign a e) updates e.

(** The database behind gorm, as the repository meets it.  Its three
    behaviours are taken as given: the error of a [SELECT] of row [id]
    other than "record not found" ([None] when the query is answered);
    the error of an [UPDATE] of row [id] for a reason that is not in the
    table (the connection, the server; whether a value that does not fit
    fails a statement that matches no row is the planner's choice and
    comes under it as well); and what a [DECIMAL(3,2)] column makes of a
    [float64]: the value it holds, as it is read back, or [None] when
    the value does not fit, which the server reports as [numericOverflow]. *)
Class Database := {
  findError : UUID -> option string;
  updateError : UUID -> list assignment -> option string;
  decimal_3_2 : float -> option float;
  numericOverflow : string
}.

Section Store.
Context `{Database}.

(** A value on its way into its column: [cv_match_rate] and
    [project_score] are [DECIMAL(3,2)], the other columns hold what
    they are given. *)
Definition column (a : assignment) : option assignment :=
  match a with
  | cv_match_rate x =>
      match decimal_3_2 x with Some y => Some (cv_match_rate y) | None => None end
  | project_score x =>
      match decimal_3_2 x with Some y => Some (project_score y) | None => None end
  | _ => Some a
  end.

Fixpoint columns (updates : list assignment) : option (list assignment) :=
  match updates with
  | [] => Some []
  | a :: rest =>
      match column a, columns rest with
      | Some a', Some rest' => Some (a' :: rest')
      | _, _ => None
      end
  end.

(** What gorm reports of a statement. *)
Record gormResult := { Error : option string; RowsAffected : Z }.

(** [db.Model(&Evaluation{}).Where("id = ?", id).Updates(updates)] on the
    table held as a finite map from the primary key to the row.  A
    statement that fails changes nothing; one that matches no row
    affects none. *)
Definition Updates (db : gmap UUID Evaluation) (id : UUID) (updates : list assignment)
  : gmap UUID Evaluation * gormResult :=
  match updateError id updates with
  | Some err => (db, {| Error := Some err; RowsAffected := 0 |})
  | None =>
      match db !! id with
      | None => (db, {| Error := None; RowsAffected := 0 |})
      | Some row =>
          match columns updates with
          | None => (db, {| Error := Some numericOverflow; RowsAffected := 0 |})
          | Some stored =>
              (<[id := assignAll stored row]> db,
               {| Error := None; RowsAffected := 1 |})
          end
      end
  end.

(** The tail shared by the three update operations. *)
Definition reportUpdate (what : string) (r : gmap UUID Evaluation * gormResult)
  : gmap UUID Evaluation * option string :=
  match Error (snd r) with
  | Some e => (fst r, Some ("failed to update " ++ what ++ ": " ++ e))
  | None =>
      if RowsAffected (snd r) =? 0
      then (fst r, Some "evaluation not found")
      else (fst r, None)
  end.

Definition FindByID (db : gmap UUID Evaluation) (id : UUID) : Result Evaluation :=
  match findError id with
  | Some err => Err ("failed to find evaluation: " ++ err)
  | None =>
      match db !! id with
      | Some eval => Ok eval
      | None => Err "evaluation not found"
      end
  end.

Definition UpdateStatus (db : gmap UUID Evaluation) (now : Time) (id : UUID)
  (status : EvaluationStatus) : gmap UUID Evaluation * option string :=
  reportUpdate "status" (Updates db id [status_ status; updated_at now]).

(** The partial result of [UpdateResult]: a nil pointer is [None]. *)
Record EvaluationUpdateData := {
  dCVMatchRate : option float;
  dCVFeedback : option string;
  dProjectScore : option float;
  dProjectFeedback : option string;
  dOverallSummary : option string
}.

Definition optAssign {A} (col : A -> assignment) (o : option A) : list assignment :=
  match o with Some x => [col x] | None => [] end.

Definition UpdateResult (db : gmap UUID Evaluation) (now : Time) (id : UUID)
  (data : EvaluationUpdateData) : gmap UUID Evaluation * option string :=
  let updates :=
    ([status_ StatusCompleted; updated_at now]
       ++ optAssign cv_match_rate (dCVMatchRate data)
       ++ optAssign cv_feedback (dCVFeedback data)
       ++ optAssign project_score (dProjectScore data)
       ++ optAssign project_feedback (dProjectFeedback data)
       ++ optAssign overall_summary (dOverallSummary data))%list in
  reportUpdate "result" (Updates db id updates).

Definition UpdateError (db : gmap UUID Evaluation) (now : Time) (id : UUID)
  (errorMsg : string) : gmap UUID Evaluation * option string :=
  reportUpdate "error"
    (Updates db id [status_ StatusFailed; error_message errorMsg; updated_at now]).

End Store.

End Repositories.

(** ** internal/services/gemini.go *)

Module Gemini.

(** [context.Context], as the retry loop sees it: [Done k] is [Some e]
    when the context is found done, with [ctx.Err() = e], at the check
    that follows the [k]-th attempt of a call. *)
Record Context := { Done : nat -> option string }.

Definition Background : Context := {| Done := fun _ => None |}.

(** The part of a genai response that [GenerateText] reads.  [Parts] is
    what [fmt] prints for the slice of parts. *)
Record Content := { Parts : string; Role : string }.
Record Candidate := { candContent : option Content }.
Record GenerateContentResponse := {
  respText : string;          (* resp.Text() *)
  Candidates : list Candidate
}.

(** [fmt.Sprintf("%v", c)] for a non-nil pointer [c] to a struct: an
    ampersand and the fields, space separated, between braces. *)
Definition fmtContent (c : Content) : string :=
  "&{" ++ Parts c ++ " " ++ Role c ++ "}".

(** The client: [generateContent k prompt temperature] is what the [k]-th
    call of [client.Models.GenerateContent] returns ([Ok None] is a nil
    response with a nil error); [embedContent] likewise, without history. *)
Record geminiService := {
  generateContent : nat -> string -> float -> Result (option GenerateContentResponse);
  embedContent : string -> Result (option (list (list float)))
}.

Definition GenerateEmbedding (g : geminiService) (text : string) : Result (list float) :=
  let text := if len text >? 40000 then take (Z.to_nat 40000) text else text in
  match embedContent g text with
  | Err e => Err ("failed to generate embedding: " ++ e)
  | Ok None | Ok (Some []) => Err "empty embedding result"
  | Ok (Some (e0 :: _)) => Ok e0
  end.

Definition newline : string := String (byte 10) EmptyString.

(** [GenerateText], at the [k]-th call of the client. *)
Definition GenerateText (g : geminiService) (k : nat) (prompt : string)
  (temperature : float) : Result string :=
  match generateContent g k prompt temperature with
  | Err e => Err ("failed to generate text: " ++ e)
  | Ok None => Err "no response generated (nil response)"
  | Ok (Some resp) =>
      let text := respText resp in
      if isEmpty text then
        let textParts :=
          fold_left
            (fun parts candidate =>
               match candContent candidate with
               | Some c => (parts ++ [fmtContent c])%list
               | None => parts
               end)
            (Candidates resp) [] in
        if (0 <? Z.of_nat (List.length (Candidates resp)))
           && (0 <? Z.of_nat (List.length textParts))
        then Ok (Join textParts newline)
        else Err "no text content in response"
      else Ok text
  end.

(** How [%w] prints the last error: [<nil>] is flagged by [fmt]. *)
Definition fmtLastErr (lastErr : option string) : string :=
  match lastErr with Some e => e | None => "%!w(<nil>)" end.

(** The loop of [GenerateTextWithRetry]: [remaining] iterations are left,
    [calls] attempts were made so far (the client was at call [k0] on
    entry).  The result comes with the number of attempts made. *)
Fixpoint retryLoop (g : geminiService) (ctx : Context) (k0 : nat)
  (prompt : string) (temperature : float) (maxRetries : Z)
  (remaining calls : nat) (lastErr : option string) : Result string * nat :=
  match remaining with
  | O =>
      (Err ("failed after " ++ Itoa maxRetries ++ " attempts: " ++ fmtLastErr lastErr),
       calls)
  | S remaining' =>
      match GenerateText g (k0 + calls) prompt temperature with
      | Ok result => (Ok result, S calls)
      | Err err =>
          match Done ctx (S calls) with
          | Some ctxErr => (Err ("context cancelled: " ++ ctxErr), S calls)
          | None =>
              retryLoop g ctx k0 prompt temperature maxRetries
                remaining' (S calls) (Some err)
          end
      end
  end.

Definition GenerateTextWithRetry (g : geminiService) (ctx : Context) (k0 : nat)
  (prompt : string) (temperature : float) (maxRetries : Z) : Result string * nat :=
  retryLoop g ctx k0 prompt temperature maxRetries (Z.to_nat maxRetries) O None.

End Gemini.

(** ** Go library functions the pipeline calls and the model takes as given *)

(** [%.2f] of [fmt]. *)
Class GoFmt := { fmt_2f : float -> string }.

(** [json.Unmarshal([]byte(s), &target)] for a target of type [T]. *)
Class JSONTarget (T : Type) := { Unmarshal : string -> Result T }.

(** ** internal/services/prompt.go *)

Module Prompt.

Definition dq : string := String (byte 34) EmptyString.

Record SearchResult := {
  srID : string;
  Score : float;
  Text : string;
  DocType : string
}.

Section Builder.
Context `{GoFmt}.

Definition BuildCVEvaluationPrompt (cvText jobDescription scoringRubric jobTitle : string)
  : string :=
  String.concat EmptyString
    [ "You are an expert HR recruiter evaluating a candidate's CV for a ";
      jobTitle;
      " position.

JOB DESCRIPTION:
";
      jobDescription;
      "

SCORING RUBRIC:
";
      scoringRubric;
      "

CANDIDATE CV:
";
      cvText;
      "

Your task is to evaluate the candidate's CV against the job description using the scoring rubric provided.

Evaluate the following parameters (1-5 scale):
1. Technical Skills Match (Weight: 40%) - Alignment with job requirements (backend, databases, APIs, cloud, AI/LLM)
2. Experience Level (Weight: 25%) - Years of experience and project complexity
3. Relevant Achievements (Weight: 20%) - Impact of past work (scaling, performance, adoption)
4. Cultural/Collaboration Fit (Weight: 15%) - Communication, learning mindset, teamwork/leadership

Return your response in the following JSON format:
{
  ";
      dq;
      "technical_skills_score";
      dq;
      ": <1-5>,
  ";
      dq;
      "experience_level_score";
      dq;
      ": <1-5>,
  ";
      dq;
      "achievements_score";
      dq;
      ": <1-5>,
  ";
      dq;
      "cultural_fit_score";
      dq;
      ": <1-5>,
  ";
      dq;
      "weighted_average";
      dq;
      ": <calculated weighted average>,
  ";
      dq;
      "match_rate";
      dq;
      ": <weighted_average * 0.2, as decimal 0-1>,
  ";
      dq;
      "feedback";
      dq;
      ": ";
      dq;
      "<detailed feedback 3-5 sentences explaining strengths and gaps>";
      dq;
      "
}

Be objective and thorough. Provide specific examples from the CV to justify your scores." ].

Definition BuildProjectEvaluationPrompt (projectText caseStudyBrief scoringRubric : string)
  : string :=
  String.concat EmptyString
    [ "You are an expert technical evaluator assessing a candidate's project report for a backend developer take-home assignment.

CASE STUDY BRIEF (Requirements):
";
      caseStudyBrief;
      "

SCORING RUBRIC:
";
      scoringRubric;
      "

CANDIDATE'S PROJECT REPORT:
";
      projectText;
      "

Your task is to evaluate the candidate's project report against the case study requirements using the scoring rubric.

Evaluate the following parameters (1-5 scale):
1. Correctness (Weight: 30%) - Implements prompt design, LLM chaining, RAG context injection
2. Code Quality & Structure (Weight: 25%) - Clean, modular, reusable, tested
3. Resilience & Error Handling (Weight: 20%) - Handles long jobs, retries, randomness, API failures
4. Documentation & Explanation (Weight: 15%) - README clarity, setup instructions, trade-off explanations
5. Creativity/Bonus (Weight: 10%) - Extra features beyond requirements

Return your response in the following JSON format:
{
  ";
      dq;
      "correctness_score";
      dq;
      ": <1-5>,
  ";
      dq;
      "code_quality_score";
      dq;
      ": <1-5>,
  ";
      dq;
      "resilience_score";
      dq;
      ": <1-5>,
  ";
      dq;
      "documentation_score";
      dq;
      ": <1-5>,
  ";
      dq;
      "creativity_score";
      dq;
      ": <1-5>,
  ";
      dq;
      "weighted_average";
      dq;
      ": <calculated weighted average>,
  ";
      dq;
      "project_score";
      dq;
      ": <weighted_average as decimal>,
  ";
      dq;
      "feedback";
      dq;
      ": ";
      dq;
      "<detailed feedback 3-5 sentences explaining what was done well and what could be improved>";
      dq;
      "
}

Be thorough and specific. Reference actual implementation details from the report." ].

Definition BuildFinalSummaryPrompt (cvFeedback projectFeedback : string)
  (cvMatchRate projectScore : float) (jobTitle : string) : string :=
  String.concat EmptyString
    [ "You are an expert technical hiring manager making a final assessment of a candidate for a ";
      jobTitle;
      " position.

CV EVALUATION RESULTS:
- Match Rate: ";
      fmt_2f cvMatchRate;
      " (out of 1.0)
- Feedback: ";
      cvFeedback;
      "

PROJECT EVALUATION RESULTS:
- Project Score: ";
      fmt_2f projectScore;
      " (out of 5.0)
- Feedback: ";
      projectFeedback;
      "

Based on both evaluations, provide a concise overall summary (3-5 sentences) that includes:
1. Overall strengths of the candidate
2. Key gaps or areas for improvement
3. Final recommendation (Strong Hire / Hire / Maybe / No Hire)

Return ONLY the summary text, no JSON format needed. Be direct and actionable." ].

(** The loop of [FormatRAGContext]: [i] is the index of the next result. *)
Fixpoint formatParts (i : Z) (results : list SearchResult) : list string :=
  match results with
  | [] => []
  | result :: rest =>
      ("--- Context " ++ Itoa (i + 1) ++ " (Score: " ++ fmt_2f (Score result)
         ++ ") ---" ++ String (byte 10) EmptyString ++ TrimSpace (Text result))
        :: formatParts (i + 1) rest
  end.

Definition FormatRAGContext (results : list SearchResult) : string :=
  if Z.of_nat (List.length results) =? 0
  then "No relevant context found."
  else Join (formatParts 0 results)
         (String (byte 10) (String (byte 10) EmptyString)).

End Builder.

End Prompt.

(** ** internal/services/evaluator.go *)

Module Evaluator.

Import Repositories Prompt.

(** The collaborators, each an interface of the source: within one run a
    collaborator's answer is a function of what it is asked. *)
Record DocumentRepository := {
  docFindByID : UUID -> Result Document
}.

Record GeminiService := {
  GenerateEmbedding : Gemini.Context -> string -> Result (list float);
  GenerateTextWithRetry : Gemini.Context -> string -> float -> Z -> Result string
}.

Record QdrantService := {
  SearchSimilar : Gemini.Context -> list float -> string -> Z -> Result (list SearchResult)
}.

Record PDFContent := { pdfText : string; PageCount : Z; pdfFilePath : string }.

Record PDFParserService := {
  ExtractTextWithMetaData : string -> Result PDFContent
}.

(** The struct [evaluatorService]; its [evalRepo] is the Job Store table
    the run is threaded through, its [promptBuilder] has no state. *)
Record evaluatorService := {
  docRepo : DocumentRepository;
  geminiService : GeminiService;
  qdrantService : QdrantService;
  pdfParser : PDFParserService;
  maxRetries : Z
}.

Record CVEvaluationResult := {
  TechnicalSkillsScore : float;
  ExperienceLevelScore : float;
  AchievementsScore : float;
  CulturalFitScore : float;
  cvWeightedAverage : float;
  MatchRate : float;
  cvFeedback : string
}.

Record ProjectEvaluationResult := {
  CorrectnessScore : float;
  CodeQualityScore : float;
  ResilienceScore : float;
  DocumentationScore : float;
  CreativityScore : float;
  prWeightedAverage : float;
  prProjectScore : float;
  prFeedback : string
}.

(** [extractJSON]. *)
Definition extractJSON (text : string) : string :=
  let text := ReplaceAll text "```json" "" in
  let text := ReplaceAll text "```" "" in
  let startObj := Index text "{" in
  let startArr := Index text "[" in
  let endObj := LastIndex text "}" in
  let endArr := LastIndex text "]" in
  if negb (startObj =? -1) && negb (endObj =? -1) && (endObj >? startObj)
  then slice text startObj (endObj + 1)
  else if negb (startArr =? -1) && negb (endArr =? -1) && (endArr >? startArr)
  then slice text startArr (endArr + 1)
  else text.

Definition parseJSONResponse {T} `{JSONTarget T} (response : string) : Result T :=
  let jsonStr := extractJSON response in
  match Unmarshal jsonStr with
  | Err err =>
      Err ("failed to unmarshal JSON: " ++ err ++ String (byte 10) "Response: " ++ response)
  | Ok target => Ok target
  end.

(** The results substituted for an empty response. *)
Definition emptyResponseCV : CVEvaluationResult :=
  {| TechnicalSkillsScore := 0; ExperienceLevelScore := 0;
     AchievementsScore := 0; CulturalFitScore := 0;
     cvWeightedAverage := 0; MatchRate := 0;
     cvFeedback :=
       "Failed to evaluate CV due to API response issues. Please try again later." |}.

Definition emptyResponseProject : ProjectEvaluationResult :=
  {| CorrectnessScore := 0; CodeQualityScore := 0; ResilienceScore := 0;
     DocumentationScore := 0; CreativityScore := 0;
     prWeightedAverage := 0; prProjectScore := 0;
     prFeedback :=
       "Failed to evaluate project due to API response issues. Please try again later." |}.

(** The two temperatures of the generation calls, 0.3 and 0.5. *)
Definition temperatureEval : float := 0x1.3333333333333p-2%float.
Definition temperatureSummary : float := 0.5%float.

Section Service.
Context `{Database} `{GoFmt} `{JSONTarget CVEvaluationResult}
  `{JSONTarget ProjectEvaluationResult}.
Variable e : evaluatorService.
Variable ctx : Gemini.Context.

Definition retrieveContext (queryText : string) (docTypes : list string)
  : Result string :=
  match GenerateEmbedding (geminiService e) ctx queryText with
  | Err err => Err ("failed to generate query embedding: " ++ err)
  | Ok embedding =>
      let allResults :=
        fold_left
          (fun allResults docType =>
             match SearchSimilar (qdrantService e) ctx embedding docType 3 with
             | Err _ => allResults
             | Ok results => (allResults ++ results)%list
             end)
          docTypes [] in
      Ok (FormatRAGContext allResults)
  end.

(** The context a stage of [EvaluateCandidate] goes on with: the one
    retrieved, and the empty string when retrieval returned an error. *)
Definition stageContext (queryText : string) (docTypes : list string) : string :=
  match retrieveContext queryText docTypes with
  | Ok context => context
  | Err _ => EmptyString
  end.

(** The response of the generation call of [evaluateCV]. *)
Definition cvResponse (cvText context jobTitle : string) : Result string :=
  let prompt := BuildCVEvaluationPrompt cvText context "" jobTitle in
  GenerateTextWithRetry (geminiService e) ctx prompt temperatureEval (maxRetries e).

Definition evaluateCV (cvText context jobTitle : string) : Result CVEvaluationResult :=
  match cvResponse cvText context jobTitle with
  | Err err => Err ("failed to generate CV evaluation: " ++ err)
  | Ok response =>
      if isEmpty response then Ok emptyResponseCV
      else match parseJSONResponse response with
           | Err err => Err ("failed to parse CV evaluation response: " ++ err)
           | Ok result => Ok result
           end
  end.

(** The response of the generation call of [evaluateProject]. *)
Definition projectResponse (projectText context : string) : Result string :=
  let prompt := BuildProjectEvaluationPrompt projectText context "" in
  GenerateTextWithRetry (geminiService e) ctx prompt temperatureEval (maxRetries e).

Definition evaluateProject (projectText context : string)
  : Result ProjectEvaluationResult :=
  match projectResponse projectText context with
  | Err err => Err ("failed to generate project evaluation: " ++ err)
  | Ok response =>
      if isEmpty response then Ok emptyResponseProject
      else match parseJSONResponse response with
           | Err err => Err ("failed to parse project evaluation response: " ++ err)
           | Ok result => Ok result
           end
  end.

Definition generateSummary (cvResult : CVEvaluationResult)
  (projectResult : ProjectEvaluationResult) (jobTitle : string) : Result string :=
  let prompt :=
    BuildFinalSummaryPrompt (cvFeedback cvResult) (prFeedback projectResult)
      (MatchRate cvResult) (prProjectScore projectResult) jobTitle in
  match GenerateTextWithRetry (geminiService e) ctx prompt temperatureSummary
          (maxRetries e) with
  | Err err => Err ("failed to generate summary: " ++ err)
  | Ok summary => Ok (TrimSpace summary)
  end.

(** [e.evalRepo.UpdateError(evalID, recorded); return returned]: the
    error of [UpdateError] itself is dropped, as in the source. *)
Definition failWith (db : gmap UUID Evaluation) (now : Time) (evalID : UUID)
  (recorded returned : string) : gmap UUID Evaluation * option string :=
  (fst (UpdateError db now evalID recorded), Some returned).

(** [EvaluateCandidate]: the table before the run, the table after it and
    the error returned ([None] is nil).  [tStart] and [tEnd] are the
    readings of the clock at the first and at the last transition. *)
Definition EvaluateCandidate (tStart tEnd : Time) (evalID : UUID)
  (db : gmap UUID Evaluation) : gmap UUID Evaluation * option string :=
  match UpdateStatus db tStart evalID StatusProcessing with
  | (db, Some err) => (db, Some ("failed to update status: " ++ err))
  | (db, None) =>
  match FindByID db evalID with
  | Err err => failWith db tEnd evalID err ("failed to get evaluation: " ++ err)
  | Ok evaluation =>
  match docFindByID (docRepo e) (CVDocumentID evaluation) with
  | Err err =>
      failWith db tEnd evalID ("CV document not found: " ++ err)
        ("failed to get CV document: " ++ err)
  | Ok cvDoc =>
  match docFindByID (docRepo e) (ProjectDocumentID evaluation) with
  | Err err =>
      failWith db tEnd evalID ("Project document not found: " ++ err)
        ("failed to get project document: " ++ err)
  | Ok projectDoc =>
  match ExtractTextWithMetaData (pdfParser e) (FilePath cvDoc) with
  | Err err =>
      failWith db tEnd evalID ("Failed to parse CV: " ++ err)
        ("failed to parse CV: " ++ err)
  | Ok cvContent =>
  match ExtractTextWithMetaData (pdfParser e) (FilePath projectDoc) with
  | Err err =>
      failWith db tEnd evalID ("Failed to parse project report: " ++ err)
        ("failed to parse project report: " ++ err)
  | Ok projectContent =>
  let cvContext :=
    stageContext (pdfText cvContent) ["job_description"; "cv_rubric"] in
  let projectContext :=
    stageContext (pdfText projectContent) ["case_study"; "project_rubric"] in
  match evaluateCV (pdfText cvContent) cvContext (JobTitle evaluation) with
  | Err err =>
      failWith db tEnd evalID ("Failed to evaluate CV: " ++ err)
        ("failed to evaluate CV: " ++ err)
  | Ok cvResult =>
  match evaluateProject (pdfText projectContent) projectContext with
  | Err err =>
      failWith db tEnd evalID ("Failed to evaluate project: " ++ err)
        ("failed to evaluate project: " ++ err)
  | Ok projectResult =>
  match generateSummary cvResult projectResult (JobTitle evaluation) with
  | Err err =>
      failWith db tEnd evalID ("Failed to generate summary: " ++ err)
        ("failed to generate summary: " ++ err)
  | Ok overallSummary =>
  let updateData :=
    {| dCVMatchRate := Some (MatchRate cvResult);
       dCVFeedback := Some (cvFeedback cvResult);
       dProjectScore := Some (prProjectScore projectResult);
       dProjectFeedback := Some (prFeedback projectResult);
       dOverallSummary := Some overallSummary |} in
  match UpdateResult db tEnd evalID updateData with
  | (db, Some err) => (db, Some ("failed to save results: " ++ err))
  | (db, None) => (db, None)
  end end end end end end end end end end.

End Service.

(** The interface [GeminiService] as [geminiService] of gemini.go
    implements it; every call reads the client's answers from its first. *)
Definition geminiBacked (g : Gemini.geminiService) : GeminiService :=
  {| GenerateEmbedding := fun _ text => Gemini.GenerateEmbedding g text;
     GenerateTextWithRetry := fun ctx prompt temperature maxRetries =>
       fst (Gemini.GenerateTextWithRetry g ctx 0 prompt temperature maxRetries) |}.

End Evaluator.

(** ** internal/services/worker.go

    The pool after [Start] has returned, as a transition system: one
    transition for each case of each [select] and for each blocking call.
    Go's [select] picks any one of the cases that can proceed, so every
    case whose channel is ready is a transition of the state. *)

Module Worker.

(** A [processJobs] loop: at its [select], inside [EvaluateCandidate], or
    returned. *)
Inductive workerState :=
| AtSelect
| Processing (evalID : UUID)
| Exited.

(** The [pollPendingJobs] loop: at its [select], inside the loop that
    enqueues the pending jobs (those still to enqueue), or returned. *)
Inductive pollerState :=
| PollerAtSelect
| PollerEnqueueing (pending : list UUID)
| PollerExited.

(** The caller of [Stop]: not yet, blocked in [wg.Wait()], or back. *)
Inductive stopState :=
| StopNotCalled
| StopWaiting
| StopReturned.

Record worker := {
  jobQueue : list UUID;        (* chan uuid.UUID, capacity 100 *)
  stopChan : bool;             (* true once closed *)
  wg : Z;                      (* the WaitGroup's counter *)
  loops : list workerState;    (* the [concurrency] goroutines *)
  poller : pollerState;
  stopCall : stopState
}.

Definition queueCapacity : Z := 100.

(** [NewWorker] followed by [Start]. *)
Definition Start (concurrency : nat) : worker :=
  {| jobQueue := [];
     stopChan := false;
     wg := Z.of_nat concurrency + 1;
     loops := repeat AtSelect concurrency;
     poller := PollerAtSelect;
     stopCall := StopNotCalled |}.

Inductive event :=
| WorkerStops (i : nat)          (* processJobs: case <-w.stopChan *)
| WorkerTakes (i : nat)          (* processJobs: case evalID := <-w.jobQueue *)
| WorkerFinishes (i : nat)       (* EvaluateCandidate returns *)
| PollerStops                    (* pollPendingJobs: case <-w.stopChan *)
| PollerTicks (pending : list UUID)  (* case <-ticker.C, FindPendingJobs *)
| PollerEnqueues                 (* EnqueueJob: case w.jobQueue <- evalID *)
| PollerGivesUp                  (* EnqueueJob: case <-w.stopChan *)
| PollerLoops                    (* the range loop is over *)
| Submits (evalID : UUID)        (* a handler's EnqueueJob succeeds *)
| StopCloses                     (* Stop: close(w.stopChan) *)
| StopReturns.                   (* Stop: wg.Wait() returns *)

Definition withLoop (w : worker) (i : nat) (s : workerState) (q : list UUID) (n : Z)
  : worker :=
  {| jobQueue := q; stopChan := stopChan w; wg := n;
     loops := <[i := s]> (loops w); poller := poller w; stopCall := stopCall w |}.

Definition withPoller (w : worker) (s : pollerState) (q : list UUID) (n : Z) : worker :=
  {| jobQueue := q; stopChan := stopChan w; wg := n;
     loops := loops w; poller := s; stopCall := stopCall w |}.

Definition hasRoom (w : worker) : bool :=
  Z.of_nat (List.length (jobQueue w)) <? queueCapacity.

(** One transition; [None] when the event cannot happen in the state. *)
Definition step (ev : event) (w : worker) : option worker :=
  match ev with
  | WorkerStops i =>
      match loops w !! i with
      | Some AtSelect =>
          if stopChan w then Some (withLoop w i Exited (jobQueue w) (wg w - 1))
          else None
      | _ => None
      end
  | WorkerTakes i =>
      match loops w !! i, jobQueue w with
      | Some AtSelect, evalID :: rest =>
          Some (withLoop w i (Processing evalID) rest (wg w))
      | _, _ => None
      end
  | WorkerFinishes i =>
      match loops w !! i with
      | Some (Processing _) => Some (withLoop w i AtSelect (jobQueue w) (wg w))
      | _ => None
      end
  | PollerStops =>
      match poller w with
      | PollerAtSelect =>
          if stopChan w then Some (withPoller w PollerExited (jobQueue w) (wg w - 1))
          else None
      | _ => None
      end
  | PollerTicks pending =>
      match poller w with
      | PollerAtSelect =>
          if Z.of_nat (List.length pending) <=? 10
          then Some (withPoller w (PollerEnqueueing pending) (jobQueue w) (wg w))
          else None
      | _ => None
      end
  | PollerEnqueues =>
      match poller w with
      | PollerEnqueueing (evalID :: rest) =>
          if hasRoom w
          then Some (withPoller w (PollerEnqueueing rest)
                       (jobQueue w ++ [evalID])%list (wg w))
          else None
      | _ => None
      end
  | PollerGivesUp =>
      match poller w with
      | PollerEnqueueing (_ :: rest) =>
          if stopChan w
          then Some (withPoller w (PollerEnqueueing rest) (jobQueue w) (wg w))
          else None
      | _ => None
      end
  | PollerLoops =>
      match poller w with
      | PollerEnqueueing [] => Some (withPoller w PollerAtSelect (jobQueue w) (wg w))
      | _ => None
      end
  | Submits evalID =>
      if hasRoom w
      then Some (withPoller w (poller w) (jobQueue w ++ [evalID])%list (wg w))
      else None
  | StopCloses =>
      match stopCall w with
      | StopNotCalled =>
          Some {| jobQueue := jobQueue w; stopChan := true; wg := wg w;
                  loops := loops w; poller := poller w; stopCall := StopWaiting |}
      | _ => None
      end
  | StopReturns =>
      match stopCall w with
      | StopWaiting =>
          if wg w =? 0
          then Some {| jobQueue := jobQueue w; stopChan := stopChan w; wg := wg w;
                       loops := loops w; poller := poller w; stopCall := StopReturned |}
          else None
      | _ => None
      end
  end.

(** A run: the events in the order they happen. *)
Fixpoint run (evs : list event) (w : worker) : option worker :=
  match evs with
  | [] => Some w
  | ev :: rest =>
      match step ev w with
      | Some w' => run rest w'
      | None => None
      end
  end.

Definition reachable (concurrency : nat) (w : worker) : Prop :=
  exists evs, run evs (Start concurrency) = Some w.

(** Is the event a worker taking a job off the queue? *)
Definition startsJob (ev : event) : bool :=
  match ev with WorkerTakes _ => true | _ => false end.

End Worker.
(** ** The chunker's output, described by its units

    The vocabulary of the chunker's properties: the units the loop of
    [ChunkText] adds one by one, and the chunks a grouping of consecutive
    units is laid out as. *)

Module ChunkLayout.

Import Chunker.

Inductive unitKind := Sentence | Paragraph.

Definition unit : Type := unitKind * string.

Definition sepOf (k : unitKind) : string :=
  match k with Sentence => spaceSep | Paragraph => paraSep end.

Definition roomOf (k : unitKind) : Z :=
  match k with Sentence => 1 | Paragraph => 2 end.

(** The units of one paragraph: the trimmed paragraph itself, or, when it
    has more than [maxChunkSize] runes, its trimmed non-empty sentences
    (the text between the terminators; the terminators are not part of
    any unit). *)
Definition unitsOfParagraph (maxChunkSize : Z) (para : string) : list unit :=
  let para := TrimSpace para in
  if isEmpty para then []
  else if RuneCountInString para >? maxChunkSize
  then map (fun s => (Sentence, s))
         (List.filter (fun s => negb (isEmpty s)) (map TrimSpace (splitIntoSentences para)))
  else [(Paragraph, para)].

Definition units (maxChunkSize : Z) (text : string) : list unit :=
  flat_map (unitsOfParagraph maxChunkSize) (Split text paraSep).

(** A unit written to the running chunk. *)
Definition writeUnit (buffer : string) (u : unit) : string :=
  (if len buffer >? 0 then buffer ++ sepOf (fst u) else buffer) ++ snd u.

(** A chunk: its seed followed by its units, each after its separator. *)
Definition renderGroup (seed : string) (g : list unit) : string :=
  fold_left writeUnit g seed.

(** The seed of a chunk that follows chunk [prev] and opens with unit [u]:
    the last [overlap] runes of [prev] and the separator of [u]. *)
Definition seedFor (overlap : Z) (prev : string) (u : unit) : string :=
  if 0 <? overlap
  then
    let overlapText := getLastNChars prev overlap in
    if isEmpty overlapText then overlapText else overlapText ++ sepOf (fst u)
  else EmptyString.

Definition seedOf (overlap : Z) (prev : option string) (g : list unit) : string :=
  match g, prev with
  | u :: _, Some p => seedFor overlap p u
  | _, _ => EmptyString
  end.

(** The chunks of a list of groups, the first following chunk [prev]. *)
Fixpoint layoutFrom (overlap : Z) (prev : option string) (groups : list (list unit))
  : list string :=
  match groups with
  | [] => []
  | g :: rest =>
      let c := renderGroup (seedOf overlap prev g) g in
      c :: layoutFrom overlap (Some c) rest
  end.

Definition layout (overlap : Z) (groups : list (list unit)) : list string :=
  layoutFrom overlap None groups.

(** One turn of the loop of [ChunkText] on a unit. *)
Definition addU (maxChunkSize overlap : Z) (st : state) (u : unit) : state :=
  addUnit maxChunkSize overlap (roomOf (fst u)) (sepOf (fst u)) st (snd u).

Definition finish (st : state) : list string :=
  if len (currentChunk st) >? 0
  then (chunks st ++ [currentChunk st])%list
  else chunks st.

(** The chunk that precedes the next one: the last of [l], or [prev]. *)
Definition lastChunk (prev : option string) (l : list string) : option string :=
  fold_left (fun _ c => Some c) l prev.

Section Loop.
Variables maxChunkSize overlap : Z.

(** What the loop keeps true: the units added so far are the closed
    groups followed by the open one; the closed chunks are the layout of
    the closed groups and the running chunk is the open group, rendered;
    a chunk of two units or more is within the size. *)
Record loopInv (us : list unit) (st : state)
  (groups : list (list unit)) (open : list unit) : Prop := {
  inv_units : us = (concat groups ++ open)%list;
  inv_groups : Forall (fun g => g <> []) groups;
  inv_chunks : chunks st = layoutFrom overlap None groups;
  inv_current :
    currentChunk st =
    renderGroup (seedOf overlap (lastChunk None (chunks st)) open) open;
  inv_first : open = [] -> groups = [];
  inv_pos : open <> [] -> 0 < len (currentChunk st);
  inv_sizes :
    Forall2 (fun g c => (2 <= List.length g)%nat -> len c <= maxChunkSize)
      groups (chunks st);
  inv_size : (2 <= List.length open)%nat -> len (currentChunk st) <= maxChunkSize
}.

End Loop.

(** What the chunker leaves out of a text: white space, as
    [strings.TrimSpace] reads it (one encoded rune at a time), and the
    sentence terminators. *)
Inductive Filler : string -> Prop :=
| filler_nil : Filler EmptyString
| filler_ascii (c : ascii) (s : string) :
    asciiSpace c = true -> Filler s -> Filler (String c s)
| filler_space2 (c1 c2 : ascii) (s : string) :
    space2 c1 c2 = true -> Filler s -> Filler (String c1 (String c2 s))
| filler_space3 (c1 c2 c3 : ascii) (s : string) :
    space3 c1 c2 c3 = true -> Filler s ->
    Filler (String c1 (String c2 (String c3 s)))
| filler_end (c : ascii) (s : string) :
    isSentenceEnd c = true -> Filler s -> Filler (String c s).

(** The text is made of the units, in their order, each once, with
    fillers before, between and after them, and of nothing else. *)
Inductive Woven : string -> list string -> Prop :=
| woven_nil (g : string) : Filler g -> Woven g []
| woven_cons (g u t : string) (us : list string) :
    Filler g -> Woven t us -> Woven (g ++ u ++ t) (u :: us).

(** The texts of the units. *)
Definition unitTexts (us : list unit) : list string := map snd us.

End ChunkLayout.

(** ** The invariant of a job *)

Module JobInvariant.

Definition isSome {A} (o : option A) : bool :=
  match o with Some _ => true | None => false end.

(** The five result fields are populated. *)
Definition resultsPopulated (j : Evaluation) : bool :=
  isSome (CVMatchRate j) && isSome (CVFeedback j) && isSome (ProjectScore j)
  && isSome (ProjectFeedback j) && isSome (OverallSummary j).

(** No result field is set. *)
Definition noResults (j : Evaluation) : bool :=
  negb (isSome (CVMatchRate j) || isSome (CVFeedback j) || isSome (ProjectScore j)
        || isSome (ProjectFeedback j) || isSome (OverallSummary j)).

Definition errorPopulated (j : Evaluation) : bool := isSome (ErrorMessage j).

(** Result fields populated iff Completed, error message populated iff
    Failed. *)
Definition jobInvariant (j : Evaluation) : bool :=
  Bool.eqb (resultsPopulated j) (statusEqb (Status j) StatusCompleted)
  && Bool.eqb (errorPopulated j) (statusEqb (Status j) StatusFailed).

Definition storeInvariant (db : gmap UUID Evaluation) : Prop :=
  forall id j, db !! id = Some j -> jobInvariant j = true.

(** Queued and Processing. *)
Definition nonTerminal (s : EvaluationStatus) : bool :=
  match s with
  | StatusQueued | StatusProcessing => true
  | StatusCompleted | StatusFailed => false
  end.

(** All five fields of a result are given. *)
Definition complete (data : Repositories.EvaluationUpdateData) : bool :=
  isSome (Repositories.dCVMatchRate data) && isSome (Repositories.dCVFeedback data)
  && isSome (Repositories.dProjectScore data)
  && isSome (Repositories.dProjectFeedback data)
  && isSome (Repositories.dOverallSummary data).

(** A job as [HandleEvaluate] creates it, and the same job completed. *)
Definition queuedJob : Evaluation := newEvaluation 1%N "Backend Engineer" 10%N 11%N 0.

Definition fullResult : Repositories.EvaluationUpdateData :=
  {| Repositories.dCVMatchRate := Some 1%float;
     Repositories.dCVFeedback := Some "Strong match.";
     Repositories.dProjectScore := Some 4%float;
     Repositories.dProjectFeedback := Some "Clean code.";
     Repositories.dOverallSummary := Some "Hire." |}.

Definition emptyResult : Repositories.EvaluationUpdateData :=
  {| Repositories.dCVMatchRate := None; Repositories.dCVFeedback := None;
     Repositories.dProjectScore := None; Repositories.dProjectFeedback := None;
     Repositories.dOverallSummary := None |}.

Definition queuedStore : gmap UUID Evaluation := {[ 1%N := queuedJob ]}.

(** The database of the scenarios: no statement fails for a reason of
    its own, and a score column refuses a value of magnitude 9.995 or
    more and holds any other as given (the scores the scenarios store
    are 0, 1 and 4, which the column holds exactly). *)
Definition reliable : Repositories.Database :=
  {| Repositories.findError := fun _ => None;
     Repositories.updateError := fun _ _ => None;
     Repositories.decimal_3_2 := fun x =>
       if PrimFloat.ltb (PrimFloat.abs x) 0x1.3fd70a3d70a3dp+3%float
       then Some x else None;
     Repositories.numericOverflow :=
       "ERROR: numeric field overflow (SQLSTATE 22003)" |}.

(** Is the statement the one of [UpdateError]? *)
Definition writesFailed (updates : list Repositories.assignment) : bool :=
  existsb
    (fun a =>
       match a with
       | Repositories.status_ StatusFailed => true
       | _ => false
       end) updates.

(** A database that is lost after the run has started: it takes every
    statement but the one that records a failure. *)
Definition lostAfterStart : Repositories.Database :=
  {| Repositories.findError := fun _ => None;
     Repositories.updateError := fun _ updates =>
       if writesFailed updates then Some "connection refused" else None;
     Repositories.decimal_3_2 := @Repositories.decimal_3_2 reliable;
     Repositories.numericOverflow := @Repositories.numericOverflow reliable |}.

Definition completedStore : gmap UUID Evaluation :=
  fst (@Repositories.UpdateResult reliable queuedStore 7 1%N fullResult).

End JobInvariant.

(** ** Vocabulary of the run *)

Module Run.

Import Evaluator Prompt.

(** The result fields of a job. *)
Definition resultsOf (j : Evaluation) :=
  (CVMatchRate j, CVFeedback j, ProjectScore j, ProjectFeedback j, OverallSummary j).

(** The Document Store lookup of the run fails: for the CV, or for the
    project report once the CV was found. *)
Definition lookupFails (e : evaluatorService) (job : Evaluation) : Prop :=
  (exists err, docFindByID (docRepo e) (CVDocumentID job) = Err err)
  \/ (exists doc err,
        docFindByID (docRepo e) (CVDocumentID job) = Ok doc
        /\ docFindByID (docRepo e) (ProjectDocumentID job) = Err err).

(** The fields of a row that no update writes. *)
Definition identityOf (j : Evaluation) :=
  (ID j, JobTitle j, CVDocumentID j, ProjectDocumentID j, CreatedAt j).

(** A field of a partial result written over a stored field. *)
Definition written {A} (given stored : option A) : option A :=
  match given with Some x => Some x | None => stored end.

(** The same for a score: the column holds what it makes of the score
    that is given. *)
Definition writtenScore `{Repositories.Database} (given stored : option float)
  : option float :=
  match given with Some x => Repositories.decimal_3_2 x | None => stored end.

(** The score, when one is given, fits its column. *)
Definition fits `{Repositories.Database} (given : option float) : bool :=
  match given with
  | Some x => JobInvariant.isSome (Repositories.decimal_3_2 x)
  | None => true
  end.

(** The statements of a run, and whether the database takes them: the
    run starts when its status write is taken and the read of the job
    that follows is answered. *)
Definition startStatement (tStart : Time) : list Repositories.assignment :=
  [Repositories.status_ StatusProcessing; Repositories.updated_at tStart].

Definition errorStatement (tEnd : Time) (errorMsg : string)
  : list Repositories.assignment :=
  [Repositories.status_ StatusFailed; Repositories.error_message errorMsg;
   Repositories.updated_at tEnd].

Definition starts `{Repositories.Database} (evalID : UUID) (tStart : Time) : Prop :=
  Repositories.updateError evalID (startStatement tStart) = None
  /\ Repositories.findError evalID = None.

(** A search that brings no result: an error, or an empty list. *)
Definition findsNothing (r : Result (list SearchResult)) : bool :=
  match r with
  | Ok (_ :: _) => false
  | Ok [] | Err _ => true
  end.

(** A non-empty text, or an error. *)
Definition textOrError (r : Result string) : Prop :=
  (exists text, r = Ok text /\ isEmpty text = false) \/ (exists err, r = Err err).

(** The message of an error, for a call that failed. *)
Definition errOf {A} (r : Result A) : string :=
  match r with Err err => err | Ok _ => EmptyString end.

(** What [EvaluateCandidate] returns once the results are handed to the
    store: the error of the save, wrapped, or nil. *)
Definition afterSave (r : gmap UUID Evaluation * option string)
  : gmap UUID Evaluation * option string :=
  match r with
  | (db, Some err) => (db, Some ("failed to save results: " ++ err))
  | (db, None) => (db, None)
  end.

(** The results of the three generation steps, as the run saves them. *)
Definition resultData (cvResult : CVEvaluationResult)
  (projectResult : ProjectEvaluationResult) (summary : string)
  : Repositories.EvaluationUpdateData :=
  {| Repositories.dCVMatchRate := Some (MatchRate cvResult);
     Repositories.dCVFeedback := Some (cvFeedback cvResult);
     Repositories.dProjectScore := Some (prProjectScore projectResult);
     Repositories.dProjectFeedback := Some (prFeedback projectResult);
     Repositories.dOverallSummary := Some summary |}.

Section Contexts.
Context `{GoFmt}.
Variable e : evaluatorService.
Variable ctx : Gemini.Context.

(** The contexts the two stages of [EvaluateCandidate] are given. *)
Definition cvStageContext (cvContent : PDFContent) : string :=
  stageContext e ctx (pdfText cvContent) ["job_description"; "cv_rubric"].

Definition projectStageContext (projectContent : PDFContent) : string :=
  stageContext e ctx (pdfText projectContent) ["case_study"; "project_rubric"].

End Contexts.

End Run.

(** ** A response in markdown, and JSON texts *)

Module Markdown.

Definition fence : string := "```".
Definition openingFence : string := "```json".
Definition nlByte : ascii := byte 10.
Definition nl : string := String nlByte EmptyString.

(** The payload between code fences, with prose before and after. *)
Definition wrap_in_markdown (before json after : string) : string :=
  before ++ openingFence ++ nl ++ json ++ nl ++ fence ++ after.

(** The text of a JSON object: a body between braces. *)
Definition object (body : string) : string := "{" ++ body ++ "}".

(** Byte [c] does not occur in [s]. *)
Fixpoint freeOf (c : ascii) (s : string) : bool :=
  match s with
  | EmptyString => true
  | String b s' => negb (Ascii.eqb b c) && freeOf c s'
  end.

End Markdown.

(** [json.Valid]: the syntax of a JSON text (RFC 8259), as the scanner
    of encoding/json accepts it.  Each parser returns what follows the
    part it has read. *)
Module JSON.

Definition isWs (c : ascii) : bool :=
  N.eqb (code c) 32 || N.eqb (code c) 9 || N.eqb (code c) 10 || N.eqb (code c) 13.

Fixpoint skipWs (s : string) : string :=
  match s with
  | String c s' => if isWs c then skipWs s' else s
  | EmptyString => s
  end.

Definition isDigit (c : ascii) : bool := inRange 48 57 c.

Definition isHex (c : ascii) : bool :=
  isDigit c || inRange 97 102 c || inRange 65 70 c.

Fixpoint digits (s : string) : string :=
  match s with
  | String c s' => if isDigit c then digits s' else s
  | EmptyString => s
  end.

(** One digit at least. *)
Definition digits1 (s : string) : option string :=
  match s with
  | String c s' => if isDigit c then Some (digits s') else None
  | EmptyString => None
  end.

Definition number (s : string) : option string :=
  let s := match s with String "-" s' => s' | _ => s end in
  let int :=
    match s with
    | String "0" s' => Some s'
    | String c s' => if inRange 49 57 c then Some (digits s') else None
    | EmptyString => None
    end in
  match int with
  | None => None
  | Some s =>
      let frac :=
        match s with
        | String "." s' => digits1 s'
        | _ => Some s
        end in
      match frac with
      | None => None
      | Some s =>
          match s with
          | String c s' =>
              if Ascii.eqb c "e" || Ascii.eqb c "E"
              then match s' with
                   | String d s'' =>
                       if Ascii.eqb d "+" || Ascii.eqb d "-"
                       then digits1 s'' else digits1 s'
                   | EmptyString => None
                   end
              else Some s
          | EmptyString => Some s
          end
      end
  end.

(** The inside of a string literal, up to its closing quote. *)
Fixpoint chars (s : string) : option string :=
  match s with
  | EmptyString => None
  | String c s' =>
      if N.eqb (code c) 34 then Some s'
      else if N.ltb (code c) 32 then None
      else if Ascii.eqb c "\" then
        match s' with
        | String x s1 =>
            if N.eqb (code x) 34 || Ascii.eqb x "\" || Ascii.eqb x "/"
               || Ascii.eqb x "b" || Ascii.eqb x "f" || Ascii.eqb x "n"
               || Ascii.eqb x "r" || Ascii.eqb x "t"
            then chars s1
            else if Ascii.eqb x "u" then
              match s1 with
              | String h1 (String h2 (String h3 (String h4 s2))) =>
                  if isHex h1 && isHex h2 && isHex h3 && isHex h4
                  then chars s2 else None
              | _ => None
              end
            else None
        | EmptyString => None
        end
      else chars s'
  end.

Definition stringLit (s : string) : option string :=
  match s with
  | String c s' => if N.eqb (code c) 34 then chars s' else None
  | EmptyString => None
  end.

Definition literal (word s : string) : option string :=
  if HasPrefix s word then Some (drop (String.length word) s) else None.

(** A value, the members of an object after its first brace or a comma,
    and the elements of an array likewise; [fuel] bounds the depth and
    the number of members read. *)
Fixpoint value (fuel : nat) (s : string) : option string :=
  match fuel with
  | O => None
  | S fuel' =>
      match skipWs s with
      | String "{" s' =>
          match skipWs s' with
          | String "}" rest => Some rest
          | s'' => members fuel' s''
          end
      | String "[" s' =>
          match skipWs s' with
          | String "]" rest => Some rest
          | s'' => elements fuel' s''
          end
      | String "t" _ as s0 => literal "true" s0
      | String "f" _ as s0 => literal "false" s0
      | String "n" _ as s0 => literal "null" s0
      | String c _ as s0 =>
          if N.eqb (code c) 34 then stringLit s0 else number s0
      | EmptyString => None
      end
  end
with members (fuel : nat) (s : string) : option string :=
  match fuel with
  | O => None
  | S fuel' =>
      match stringLit (skipWs s) with
      | None => None
      | Some s1 =>
          match skipWs s1 with
          | String ":" s2 =>
              match value fuel' s2 with
              | None => None
              | Some s3 =>
                  match skipWs s3 with
                  | String "," s4 => members fuel' s4
                  | String "}" rest => Some rest
                  | _ => None
                  end
              end
          | _ => None
          end
      end
  end
with elements (fuel : nat) (s : string) : option string :=
  match fuel with
  | O => None
  | S fuel' =>
      match value fuel' s with
      | None => None
      | Some s1 =>
          match skipWs s1 with
          | String "," s2 => elements fuel' s2
          | String "]" rest => Some rest
          | _ => None
          end
      end
  end.

Definition Valid (s : string) : bool :=
  match value (S (String.length s)) s with
  | Some rest => isEmpty (skipWs rest)
  | None => false
  end.

(** [json.Unmarshal] into a [json.RawMessage]: the text itself when it
    is valid JSON. *)
Definition RawMessage : JSONTarget string :=
  {| Unmarshal := fun s => if Valid s then Ok s else Err "invalid character" |}.

End JSON.

(** ** Collaborators for the scenarios

    Implementations of the collaborator interfaces on which the
    properties are evaluated. *)

Module Scenario.

Import Evaluator Prompt JobInvariant.

(** internal/repositories/document.go: [FindByID] on the table of
    documents ([gorm.ErrRecordNotFound] reads "record not found"). *)
Definition documentRepository (documents : gmap UUID Document) : DocumentRepository :=
  {| docFindByID := fun id =>
       match documents !! id with
       | Some doc => Ok doc
       | None => Err "document not found: record not found"
       end |}.

Definition cvDocument : Document :=
  {| DocID := 10%N; Filename := "cv.pdf"; OriginalFileName := "cv.pdf";
     FileType := "cv"; FilePath := "uploads/cv.pdf" |}.

Definition projectDocument : Document :=
  {| DocID := 11%N; Filename := "report.pdf"; OriginalFileName := "report.pdf";
     FileType := "project_report"; FilePath := "uploads/report.pdf" |}.

Definition bothDocuments : gmap UUID Document :=
  <[ 10%N := cvDocument ]> {[ 11%N := projectDocument ]}.

(** A parser that reads the same text from every file. *)
Definition parserOf (text : string) : PDFParserService :=
  {| ExtractTextWithMetaData := fun path =>
       Ok {| pdfText := text; PageCount := 1; pdfFilePath := path |} |}.

(** A generation service whose embedding fails and whose every
    generation succeeds with [answer]. *)
Definition answering (answer : string) : GeminiService :=
  {| GenerateEmbedding := fun _ _ => Err "embedding unavailable";
     GenerateTextWithRetry := fun _ _ _ _ => Ok answer |}.

(** The same with an embedding that succeeds. *)
Definition embedding (answer : string) : GeminiService :=
  {| GenerateEmbedding := fun _ _ => Ok [1%float; 0%float];
     GenerateTextWithRetry := fun _ _ _ _ => Ok answer |}.

(** A retrieval service that finds nothing. *)
Definition emptyIndex : QdrantService :=
  {| SearchSimilar := fun _ _ _ _ => Ok [] |}.

Definition twoDecimals : GoFmt := {| fmt_2f := fun _ => "0.00" |}.

Definition noDecoder (T : Type) : JSONTarget T :=
  {| Unmarshal := fun _ => Err "unexpected end of JSON input" |}.

(** The service with both documents in place and no document at all. *)
Definition serviceWith (documents : gmap UUID Document) (answer : string)
  : evaluatorService :=
  {| docRepo := documentRepository documents;
     geminiService := answering answer;
     qdrantService := emptyIndex;
     pdfParser := parserOf "Ten years of Go.";
     maxRetries := 3 |}.

(** The run of a service on a given database, the other collaborators
    being those of the scenarios. *)
Definition runOn (database : Repositories.Database) (e : evaluatorService)
  (tStart tEnd : Time) (evalID : UUID) (db : gmap UUID Evaluation)
  : gmap UUID Evaluation * option string :=
  @EvaluateCandidate database twoDecimals (noDecoder _) (noDecoder _) e
    Gemini.Background tStart tEnd evalID db.

(** Three clients: one that fails twice and then answers, one that is
    always unavailable, one that answers with a response without text. *)
Definition textResponse (text : string) : Gemini.GenerateContentResponse :=
  {| Gemini.respText := text; Gemini.Candidates := [] |}.

Definition failsTwice : Gemini.geminiService :=
  {| Gemini.generateContent := fun k _ _ =>
       if (k <? 2)%nat then Err "unavailable" else Ok (Some (textResponse "done"));
     Gemini.embedContent := fun _ => Err "unavailable" |}.

Definition alwaysFails : Gemini.geminiService :=
  {| Gemini.generateContent := fun _ _ _ => Err "unavailable";
     Gemini.embedContent := fun _ => Err "unavailable" |}.

(** A context found cancelled at the first check. *)
Definition cancelled : Gemini.Context :=
  {| Gemini.Done := fun _ => Some "context canceled" |}.

(** A response in markdown around the object [{"match_rate":1}], with
    plain prose and with prose that has braces of its own. *)
Definition payloadBody : string := dq ++ "match_rate" ++ dq ++ ":1".

Definition plainResponse : string :=
  Markdown.wrap_in_markdown "Here is the evaluation: " (Markdown.object payloadBody)
    " Hope it helps.".

Definition bracedResponse : string :=
  Markdown.wrap_in_markdown "Scores {draft}: " (Markdown.object payloadBody) "".

(** The service with an embedding that succeeds and an empty index. *)
Definition serviceEmbedding : evaluatorService :=
  {| docRepo := documentRepository bothDocuments;
     geminiService := embedding "ok";
     qdrantService := emptyIndex;
     pdfParser := parserOf "Ten years of Go.";
     maxRetries := 3 |}.

End Scenario.

(** ** Vocabulary of the worker pool *)

Module Pool.

Import Worker.

(** 1 for a goroutine that has not returned. *)
Definition liveLoop (s : workerState) : Z :=
  match s with Exited => 0 | _ => 1 end.

Definition livePoller (s : pollerState) : Z :=
  match s with PollerExited => 0 | _ => 1 end.

Fixpoint liveLoops (ls : list workerState) : Z :=
  match ls with
  | [] => 0
  | s :: rest => liveLoop s + liveLoops rest
  end.

(** The goroutines the WaitGroup waits for. *)
Definition live (w : worker) : Z := liveLoops (loops w) + livePoller (poller w).

(** The counter of the WaitGroup is the number of goroutines that have
    not returned, and [Stop] is back only when it is zero. *)
Definition poolInv (w : worker) : Prop :=
  wg w = live w /\ (stopCall w = StopReturned -> wg w = 0).

(** A shutdown of a pool of two loops with one job in flight. *)
Definition shutdown : list event :=
  [Submits 7%N; WorkerTakes 0; StopCloses; WorkerStops 1; PollerStops;
   WorkerFinishes 0; WorkerStops 0; StopReturns].

Definition afterShutdown : worker :=
  {| jobQueue := []; stopChan := true; wg := 0;
     loops := [Exited; Exited]; poller := PollerExited;
     stopCall := StopReturned |}.

(** A job taken after the stop signal. *)
Definition lateStart : list event := [Submits 7%N; StopCloses; WorkerTakes 0].

End Pool.

(** ** internal/services/pdf_parser.go *)

Module PDFParser.

Import Evaluator.

(** What the pdf library reads of a file: a page is null, or its plain
    text is read or fails to be. *)
Inductive pdfPage :=
| NullPage
| PlainText (r : Result string).

(** A path of the file system: no file, a file the library cannot open,
    or a document with its pages. *)
Inductive pdfFile :=
| NotExist
| OpenFails (err : string)
| Opened (pages : list pdfPage).

Definition FileSystem := string -> pdfFile.

Definition nn : string := String (byte 10) (String (byte 10) EmptyString).

(** [pdf.Open(filePath)]: the error of [os.Open] for a missing file. *)
Definition Open (fs : FileSystem) (filePath : string) : Result (list pdfPage) :=
  match fs filePath with
  | NotExist => Err ("open " ++ filePath ++ ": no such file or directory")
  | OpenFails err => Err err
  | Opened pages => Ok pages
  end.

(** The loop of [ExtractText] over the pages. *)
Fixpoint plainPages (pages : list pdfPage) (textBuilder : string) : string :=
  match pages with
  | [] => textBuilder
  | NullPage :: rest => plainPages rest textBuilder
  | PlainText (Err _) :: rest => plainPages rest textBuilder
  | PlainText (Ok text) :: rest => plainPages rest (textBuilder ++ text ++ nn)
  end.

Definition ExtractText (fs : FileSystem) (filePath : string) : Result string :=
  match Open fs filePath with
  | Err err => Err ("failed to open PDF: " ++ err)
  | Ok pages =>
      let text := plainPages pages EmptyString in
      if isEmpty (TrimSpace text) then Err "no text content found in PDF"
      else Ok text
  end.

(** The loop of [ExtractTextWithMetaData]: every page read is put under
    a line with its number. *)
Fixpoint headedPages (pageIndex : Z) (pages : list pdfPage) (textBuilder : string)
  : string :=
  match pages with
  | [] => textBuilder
  | NullPage :: rest => headedPages (pageIndex + 1) rest textBuilder
  | PlainText (Err _) :: rest => headedPages (pageIndex + 1) rest textBuilder
  | PlainText (Ok text) :: rest =>
      headedPages (pageIndex + 1) rest
        (textBuilder
           ++ ("--- Page " ++ Itoa pageIndex ++ " ---" ++ String (byte 10) EmptyString)
           ++ text ++ nn)
  end.

Definition ExtractTextWithMetaData (fs : FileSystem) (filePath : string)
  : Result PDFContent :=
  match fs filePath with
  | NotExist => Err ("file does not exist: " ++ filePath)
  | _ =>
      match Open fs filePath with
      | Err err => Err ("failed to open PDF: " ++ err)
      | Ok pages =>
          let totalPage := Z.of_nat (List.length pages) in
          let text := headedPages 1 pages EmptyString in
          if isEmpty (TrimSpace text) then Err "no text content found in PDF"
          else Ok {| pdfText := text; PageCount := totalPage; pdfFilePath := filePath |}
      end
  end.

(** The interface [PDFParserService] as [pdfParserService] implements it. *)
Definition pdfParserService (fs : FileSystem) : PDFParserService :=
  {| Evaluator.ExtractTextWithMetaData := ExtractTextWithMetaData fs |}.

(** [CleanText]. *)
Definition CleanText (text : string) : string :=
  let text := TrimSpace text in
  let lines := Split text (String (byte 10) EmptyString) in
  let cleanedLines :=
    fold_left
      (fun cleanedLines line =>
         let line := TrimSpace line in
         if isEmpty line then cleanedLines else (cleanedLines ++ [line])%list)
      lines [] in
  Join cleanedLines (String (byte 10) EmptyString).

(** A page is read: it is not null and its text comes without error. *)
Definition readable (p : pdfPage) : bool :=
  match p with
  | PlainText (Ok _) => true
  | _ => false
  end.

(** A file system with a scanned document of two pages without text at
    [scan.pdf] and nothing else. *)
Definition scanOnly : FileSystem := fun path =>
  if String.eqb path "scan.pdf"
  then Opened [PlainText (Ok " "); PlainText (Ok EmptyString)]
  else NotExist.

End PDFParser.

(** ** Vocabulary of the further properties *)

Module More.

(** No byte of [s] satisfies [f]. *)
Fixpoint noByte (f : ascii -> bool) (s : string) : bool :=
  match s with
  | EmptyString => true
  | String c s' => negb (f c) && noByte f s'
  end.

(** The text of the page, when it is read, is ASCII white space only. *)
Definition blankPage (p : PDFParser.pdfPage) : bool :=
  match p with
  | PDFParser.PlainText (Ok text) => noByte (fun c => negb (asciiSpace c)) text
  | _ => true
  end.

(** The service that reads its documents from the file system
    [PDFParser.scanOnly], where the documents of the table are missing. *)
Definition serviceOnDisk : Evaluator.evaluatorService :=
  {| Evaluator.docRepo := Scenario.documentRepository Scenario.bothDocuments;
     Evaluator.geminiService := Scenario.answering "ok";
     Evaluator.qdrantService := Scenario.emptyIndex;
     Evaluator.pdfParser := PDFParser.pdfParserService PDFParser.scanOnly;
     Evaluator.maxRetries := 3 |}.

(** [utf8.ValidString(s)]: every rune of [s] is read from a valid
    encoding. *)
Fixpoint validAux (fuel : nat) (s : string) : bool :=
  match fuel with
  | O => isEmpty s
  | S fuel' =>
      match s with
      | EmptyString => true
      | String _ _ =>
          match runeWidth s with
          | O => false
          | w => validAux fuel' (drop w s)
          end
      end
  end.

Definition ValidString (s : string) : bool := validAux (String.length s) s.

(** The jobs the worker loops are running. *)
Fixpoint inFlight (ls : list Worker.workerState) : Z :=
  match ls with
  | [] => 0
  | Worker.Processing _ :: rest => 1 + inFlight rest
  | _ :: rest => inFlight rest
  end.

(** Is the event a handler's job entering the queue? *)
Definition isSubmit (ev : Worker.event) : bool :=
  match ev with Worker.Submits _ => true | _ => false end.

(** The pool once [Stop] is back: every goroutine has returned. *)
Definition stopped (w : Worker.worker) : Prop :=
  Worker.stopCall w = Worker.StopReturned
  /\ Forall (fun s => s = Worker.Exited) (Worker.loops w)
  /\ Worker.poller w = Worker.PollerExited.

(** A pool without worker loops, stopped with a job queued; and a job
    enqueued after a shutdown. *)
Definition idlePool : list Worker.event :=
  [Worker.Submits 7%N; Worker.StopCloses; Worker.PollerStops; Worker.StopReturns].

Definition lateSubmit : list Worker.event := [Worker.Submits 8%N].

(** The body of a JSON array of two objects, [{"a":1},{"b":2}], between
    its first and its last brace. *)
Definition twoObjects : string :=
  Prompt.dq ++ "a" ++ Prompt.dq ++ ":1},{" ++ Prompt.dq ++ "b" ++ Prompt.dq ++ ":2".

(** The results of the categories whose search succeeds. *)
Definition found (r : Result (list Prompt.SearchResult)) : list Prompt.SearchResult :=
  match r with Ok results => results | Err _ => [] end.

(** A result with a project score of 85, on the scale of 100. *)
Definition score85 : Repositories.EvaluationUpdateData :=
  {| Repositories.dCVMatchRate := Some 1%float;
     Repositories.dCVFeedback := Some "Strong match.";
     Repositories.dProjectScore := Some 85%float;
     Repositories.dProjectFeedback := Some "Clean code.";
     Repositories.dOverallSummary := Some "Hire." |}.

(** A table of two queued jobs. *)
Definition twoJobs : gmap UUID Evaluation :=
  <[ 2%N := newEvaluation 2%N "Data Engineer" 10%N 11%N 0 ]> JobInvariant.queuedStore.

(** An ASCII byte that is not white space: it is a rune of its own and
    [TrimSpace] keeps it. *)
Definition solid (c : ascii) : bool := N.ltb (code c) 128 && negb (asciiSpace c).

(** An index whose search fails for the job descriptions and finds one
    rubric; the service on it, with an embedding that succeeds. *)
Definition rubric : Prompt.SearchResult :=
  {| Prompt.srID := "r1"; Prompt.Score := 1%float;
     Prompt.Text := " Five points for Go. "; Prompt.DocType := "cv_rubric" |}.

Definition partialIndex : Evaluator.QdrantService :=
  {| Evaluator.SearchSimilar := fun _ _ docType _ =>
       if String.eqb docType "job_description" then Err "index unavailable"
       else Ok [rubric] |}.

Definition servicePartial : Evaluator.evaluatorService :=
  {| Evaluator.docRepo := Scenario.documentRepository Scenario.bothDocuments;
     Evaluator.geminiService := Scenario.embedding "ok";
     Evaluator.qdrantService := partialIndex;
     Evaluator.pdfParser := Scenario.parserOf "Ten years of Go.";
     Evaluator.maxRetries := 3 |}.

(** A service on the client of gemini.go with a budget of no attempt. *)
Definition noBudget : Evaluator.evaluatorService :=
  {| Evaluator.docRepo := Scenario.documentRepository Scenario.bothDocuments;
     Evaluator.geminiService := Evaluator.geminiBacked Scenario.failsTwice;
     Evaluator.qdrantService := Scenario.emptyIndex;
     Evaluator.pdfParser := Scenario.parserOf "Ten years of Go.";
     Evaluator.maxRetries := 0 |}.

End More.
(** * Properties *)

(** ** Byte strings *)

Lemma gtb_false (a b : Z) : (a >? b) = false -> a <= b.
Proof. rewrite Z.gtb_ltb. apply Z.ltb_ge. Qed.

Lemma gtb_true (a b : Z) : (a >? b) = true -> b < a.
Proof. rewrite Z.gtb_ltb. apply Z.ltb_lt. Qed.

Lemma len_nonneg (s : string) : 0 <= len s.
Proof. unfold len. lia. Qed.

Lemma len_append (a b : string) : len (a ++ b) = len a + len b.
Proof.
  unfold len. rewrite <- Nat2Z.inj_add. f_equal.
  induction a as [|c a IH]; simpl; [reflexivity | now rewrite IH].
Qed.

Lemma isEmpty_false_len (s : string) : isEmpty s = false -> 0 < len s.
Proof. destruct s; simpl; [discriminate|]. unfold len. simpl String.length. lia. Qed.

Lemma len_pos_isEmpty (s : string) : 0 < len s -> isEmpty s = false.
Proof. destruct s; simpl; [unfold len; simpl; lia | reflexivity]. Qed.

Lemma runesAux_length (fuel : nat) (s : string) :
  (List.length (runesAux fuel s) <= fuel)%nat.
Proof.
  revert s. induction fuel as [|fuel IH]; intros s; cbn [runesAux].
  - simpl. lia.
  - destruct s as [|c r]; [simpl; lia|].
    destruct (runeWidth (String c r)); cbn [List.length].
    + specialize (IH r). lia.
    + match goal with |- (S (List.length (runesAux _ ?t)) <= _)%nat =>
        specialize (IH t) end. lia.
Qed.

Lemma RuneCount_le_len (s : string) : RuneCountInString s <= len s.
Proof.
  unfold RuneCountInString, runes, len.
  pose proof (runesAux_length (String.length s) s). lia.
Qed.

(** ** The chunker *)

Section ChunkerProofs.
Import Chunker ChunkLayout.

Variables maxChunkSize overlap : Z.

Lemma fold_addSentence (ss : list string) (st : state) :
  fold_left (addSentence maxChunkSize overlap) ss st =
  fold_left (addU maxChunkSize overlap)
    (map (fun s => (Sentence, s))
       (List.filter (fun s => negb (isEmpty s)) (map TrimSpace ss))) st.
Proof.
  revert st. induction ss as [|s ss IH]; intros st; [reflexivity|].
  cbn [fold_left map List.filter]. rewrite IH. unfold addSentence.
  destruct (isEmpty (TrimSpace s)); reflexivity.
Qed.

Lemma addParagraph_units (st : state) (para : string) :
  addParagraph maxChunkSize overlap st para =
  fold_left (addU maxChunkSize overlap) (unitsOfParagraph maxChunkSize para) st.
Proof.
  unfold addParagraph, unitsOfParagraph.
  destruct (isEmpty (TrimSpace para)); [reflexivity|].
  destruct (RuneCountInString (TrimSpace para) >? maxChunkSize).
  - apply fold_addSentence.
  - reflexivity.
Qed.

Lemma fold_addParagraph (ps : list string) (st : state) :
  fold_left (addParagraph maxChunkSize overlap) ps st =
  fold_left (addU maxChunkSize overlap)
    (flat_map (unitsOfParagraph maxChunkSize) ps) st.
Proof.
  revert st. induction ps as [|p ps IH]; intros st; [reflexivity|].
  cbn [fold_left flat_map]. rewrite fold_left_app, IH, addParagraph_units.
  reflexivity.
Qed.

Lemma unitsOfParagraph_nonempty (para : string) :
  Forall (fun u : unit => isEmpty (snd u) = false)
    (unitsOfParagraph maxChunkSize para).
Proof.
  unfold unitsOfParagraph.
  destruct (isEmpty (TrimSpace para)) eqn:E; [constructor|].
  destruct (RuneCountInString (TrimSpace para) >? maxChunkSize).
  - apply List.Forall_forall. intros u Hu.
    apply in_map_iff in Hu. destruct Hu as [s [<- Hs]].
    apply filter_In in Hs. destruct Hs as [_ Hs]. simpl.
    now apply negb_true_iff in Hs.
  - repeat constructor. exact E.
Qed.

Lemma units_nonempty (text : string) :
  Forall (fun u : unit => isEmpty (snd u) = false) (units maxChunkSize text).
Proof.
  unfold units. induction (Split text paraSep) as [|p ps IH]; [constructor|].
  cbn [flat_map]. apply Forall_app. split; [apply unitsOfParagraph_nonempty | exact IH].
Qed.

Lemma layoutFrom_snoc (prev : option string) (groups : list (list unit)) (g : list unit) :
  layoutFrom overlap prev (groups ++ [g]) =
  (layoutFrom overlap prev groups
     ++ [renderGroup (seedOf overlap (lastChunk prev (layoutFrom overlap prev groups)) g) g])%list.
Proof.
  revert prev. induction groups as [|g0 groups IH]; intros prev; [reflexivity|].
  cbn [app layoutFrom]. rewrite IH. reflexivity.
Qed.

Lemma len_sepOf (k : unitKind) : len (sepOf k) = roomOf k.
Proof. destruct k; reflexivity. Qed.

Lemma len_writeUnit_pos (b : string) (u : unit) :
  isEmpty (snd u) = false -> 0 < len (writeUnit b u).
Proof.
  intros Hu. unfold writeUnit. rewrite len_append.
  apply isEmpty_false_len in Hu.
  pose proof (len_nonneg (if len b >? 0 then b ++ sepOf (fst u) else b)). lia.
Qed.

Lemma loopInv_init :
  loopInv maxChunkSize overlap [] {| chunks := []; currentChunk := EmptyString |} [] [].
Proof.
  constructor; simpl; try reflexivity; try constructor; try congruence.
  intros; lia.
Qed.

Lemma flush_seed (sep : string) (st : state) (u : unit) :
  sep = sepOf (fst u) ->
  currentChunk (flush overlap sep st) = seedFor overlap (currentChunk st) u.
Proof.
  intros ->. unfold flush, seedFor. cbn [currentChunk].
  rewrite last_last, length_app. cbn [List.length].
  replace (0 <? Z.of_nat (List.length (chunks st) + 1)) with true
    by (symmetry; apply Z.ltb_lt; lia).
  cbn [andb]. destruct (0 <? overlap); reflexivity.
Qed.

Lemma loopInv_step (us : list unit) (st : state) (groups : list (list unit))
  (open : list unit) (u : unit) :
  isEmpty (snd u) = false ->
  loopInv maxChunkSize overlap us st groups open ->
  exists groups' open',
    loopInv maxChunkSize overlap (us ++ [u]) (addU maxChunkSize overlap st u) groups' open'
    /\ open' <> [].
Proof.
  intros Hu [Hus Hgs Hch Hcur Hfirst Hpos Hsizes Hsize].
  unfold addU, addUnit.
  destruct (len (currentChunk st) + len (snd u) + roomOf (fst u) >? maxChunkSize) eqn:Hex;
    [destruct (len (currentChunk st) >? 0) eqn:Hlen|].
  - (* the running chunk is closed, the unit opens the next one *)
    assert (Hopen : open <> []).
    { intros ->. cbn in Hcur. rewrite Hcur in Hlen. discriminate. }
    exists (groups ++ [open])%list, [u]. split; [|congruence].
    assert (Hnew :
      (if len (currentChunk (flush overlap (sepOf (fst u)) st)) >? 0
       then currentChunk (flush overlap (sepOf (fst u)) st) ++ sepOf (fst u)
       else currentChunk (flush overlap (sepOf (fst u)) st)) ++ snd u
      = renderGroup (seedFor overlap (currentChunk st) u) [u]).
    { rewrite (flush_seed _ st u eq_refl). reflexivity. }
    constructor; cbn [chunks currentChunk].
    + rewrite concat_app. cbn [concat]. rewrite app_nil_r, Hus, <- app_assoc.
      reflexivity.
    + apply Forall_app. split; [exact Hgs | repeat constructor; exact Hopen].
    + unfold flush. cbn [chunks]. rewrite layoutFrom_snoc, <- Hch, <- Hcur.
      reflexivity.
    + rewrite Hnew. unfold flush. cbn [chunks]. unfold lastChunk.
      rewrite fold_left_app. reflexivity.
    + congruence.
    + intros _. rewrite Hnew. apply len_writeUnit_pos. exact Hu.
    + unfold flush. cbn [chunks]. apply Forall2_app; [exact Hsizes|].
      repeat constructor. exact Hsize.
    + cbn [List.length]. lia.
  - (* nothing to close: the unit is the first of the chunk *)
    assert (Hopen : open = []).
    { destruct open as [|u0 open]; [reflexivity|].
      assert (0 < len (currentChunk st)) by (apply Hpos; congruence).
      apply gtb_false in Hlen. lia. }
    subst open. specialize (Hfirst eq_refl). subst groups.
    exists [], [u]. split; [|congruence].
    constructor; cbn [chunks currentChunk].
    + rewrite Hus. reflexivity.
    + constructor.
    + exact Hch.
    + rewrite Hch. cbn in Hcur. rewrite Hcur. reflexivity.
    + congruence.
    + intros _.
      change ((if len (currentChunk st) >? 0
               then currentChunk st ++ sepOf (fst u) else currentChunk st) ++ snd u)
        with (writeUnit (currentChunk st) u).
      apply len_writeUnit_pos. exact Hu.
    + exact Hsizes.
    + cbn [List.length]. lia.
  - (* the unit fits: it joins the running chunk *)
    exists groups, (open ++ [u])%list. split; [|now destruct open].
    change ((if len (currentChunk st) >? 0
             then currentChunk st ++ sepOf (fst u) else currentChunk st) ++ snd u)
      with (writeUnit (currentChunk st) u).
    constructor; cbn [chunks currentChunk].
    + rewrite Hus, <- app_assoc. reflexivity.
    + exact Hgs.
    + exact Hch.
    + unfold renderGroup. rewrite fold_left_app. cbn [fold_left].
      rewrite Hcur at 1. unfold renderGroup.
      destruct open as [|u0 open]; [|reflexivity].
      specialize (Hfirst eq_refl). subst groups. rewrite Hch. reflexivity.
    + intros Happ. now destruct open.
    + intros _. apply len_writeUnit_pos. exact Hu.
    + exact Hsizes.
    + intros Hlen2. unfold writeUnit.
      assert (Hopen : open <> []).
      { intros ->. cbn [app List.length] in Hlen2. lia. }
      specialize (Hpos Hopen).
      replace (len (currentChunk st) >? 0) with true
        by (symmetry; rewrite Z.gtb_ltb; apply Z.ltb_lt; lia).
      rewrite !len_append, len_sepOf.
      apply gtb_false in Hex. lia.
Qed.

Lemma loopInv_fold (us : list unit) :
  Forall (fun u : unit => isEmpty (snd u) = false) us ->
  exists groups open,
    loopInv maxChunkSize overlap us
      (fold_left (addU maxChunkSize overlap) us
         {| chunks := []; currentChunk := EmptyString |})
      groups open.
Proof.
  induction us as [|u us IH] using rev_ind; intros Hne.
  - exists [], []. apply loopInv_init.
  - apply Forall_app in Hne. destruct Hne as [Hus Hu].
    inversion Hu as [|? ? Hu' _]; subst.
    destruct (IH Hus) as [groups [open Hinv]].
    rewrite fold_left_app. cbn [fold_left].
    destruct (loopInv_step _ _ _ _ u Hu' Hinv) as [groups' [open' [Hinv' _]]].
    exists groups', open'. exact Hinv'.
Qed.

End ChunkerProofs.

(** ** The text and its units *)

Section WeaveProofs.
Import Chunker ChunkLayout.
Local Arguments append : simpl nomatch.

Lemma string_app_assoc (a b c : string) : (a ++ b) ++ c = a ++ (b ++ c).
Proof. induction a as [|x a IH]; cbn [append]; [reflexivity | f_equal; exact IH]. Qed.

Lemma string_app_nil_r (a : string) : a ++ EmptyString = a.
Proof. induction a as [|x a IH]; cbn [append]; [reflexivity | f_equal; exact IH]. Qed.

Lemma rev_app (a b : string) : rev (a ++ b) = rev b ++ rev a.
Proof.
  induction a as [|x a IH]; cbn [append rev].
  - rewrite string_app_nil_r. reflexivity.
  - rewrite IH, string_app_assoc. reflexivity.
Qed.

Lemma rev_rev (a : string) : rev (rev a) = a.
Proof.
  induction a as [|x a IH]; [reflexivity|].
  cbn [rev]. rewrite rev_app, IH. reflexivity.
Qed.

Lemma Filler_app (a b : string) : Filler a -> Filler b -> Filler (a ++ b).
Proof.
  intros Ha Hb. induction Ha; cbn [append]; [exact Hb | | | | ];
    constructor; assumption.
Qed.

(** What [TrimSpace] removes at the start is a filler. *)
Lemma trimLeft_split (s : string) : exists w, Filler w /\ s = w ++ trimLeft s.
Proof.
  assert (Hgen : forall n s, (String.length s <= n)%nat ->
                   exists w, Filler w /\ s = w ++ trimLeft s).
  { clear s. induction n as [|n IH]; intros s Hlen.
    - destruct s; [|cbn in Hlen; lia]. exists EmptyString. split; [constructor|reflexivity].
    - destruct s as [|c1 s1]; [exists EmptyString; split; [constructor|reflexivity]|].
      cbn [String.length] in Hlen. cbn [trimLeft].
      destruct (asciiSpace c1) eqn:H1.
      { destruct (IH s1 ltac:(lia)) as [w [Hw Heq]].
        exists (String c1 w). split; [constructor; assumption|].
        cbn [append]. f_equal. exact Heq. }
      destruct s1 as [|c2 s2];
        [exists EmptyString; split; [constructor|reflexivity]|].
      cbn [String.length] in Hlen.
      destruct (space2 c1 c2) eqn:H2.
      { destruct (IH s2 ltac:(lia)) as [w [Hw Heq]].
        exists (String c1 (String c2 w)). split; [constructor; assumption|].
        cbn [append]. do 2 f_equal. exact Heq. }
      destruct s2 as [|c3 s3];
        [exists EmptyString; split; [constructor|reflexivity]|].
      cbn [String.length] in Hlen.
      destruct (space3 c1 c2 c3) eqn:H3;
        [|exists EmptyString; split; [constructor|reflexivity]].
      destruct (IH s3 ltac:(lia)) as [w [Hw Heq]].
      exists (String c1 (String c2 (String c3 w))). split; [constructor; assumption|].
      cbn [append]. do 3 f_equal. exact Heq. }
  apply (Hgen (String.length s)). lia.
Qed.

(** The same at the end, read on the reversed text. *)
Lemma trimLeftRev_split (s : string) :
  exists w, Filler (rev w) /\ s = w ++ trimLeftRev s.
Proof.
  assert (Hgen : forall n s, (String.length s <= n)%nat ->
                   exists w, Filler (rev w) /\ s = w ++ trimLeftRev s).
  { clear s. induction n as [|n IH]; intros s Hlen.
    - destruct s; [|cbn in Hlen; lia]. exists EmptyString. split; [constructor|reflexivity].
    - destruct s as [|c1 s1]; [exists EmptyString; split; [constructor|reflexivity]|].
      cbn [String.length] in Hlen. cbn [trimLeftRev].
      destruct (asciiSpace c1) eqn:H1.
      { destruct (IH s1 ltac:(lia)) as [w [Hw Heq]].
        exists (String c1 w). split.
        - cbn [rev]. apply Filler_app; [exact Hw|]. repeat constructor. exact H1.
        - cbn [append]. f_equal. exact Heq. }
      destruct s1 as [|c2 s2];
        [exists EmptyString; split; [constructor|reflexivity]|].
      cbn [String.length] in Hlen.
      destruct (space2 c2 c1) eqn:H2.
      { destruct (IH s2 ltac:(lia)) as [w [Hw Heq]].
        exists (String c1 (String c2 w)). split.
        - cbn [rev]. rewrite string_app_assoc. apply Filler_app; [exact Hw|].
          cbn [append]. apply filler_space2; [exact H2 | constructor].
        - cbn [append]. do 2 f_equal. exact Heq. }
      destruct s2 as [|c3 s3];
        [exists EmptyString; split; [constructor|reflexivity]|].
      cbn [String.length] in Hlen.
      destruct (space3 c3 c2 c1) eqn:H3;
        [|exists EmptyString; split; [constructor|reflexivity]].
      destruct (IH s3 ltac:(lia)) as [w [Hw Heq]].
      exists (String c1 (String c2 (String c3 w))). split.
      + cbn [rev]. rewrite !string_app_assoc. apply Filler_app; [exact Hw|].
        cbn [append]. apply filler_space3; [exact H3 | constructor].
      + cbn [append]. do 3 f_equal. exact Heq. }
  apply (Hgen (String.length s)). lia.
Qed.

(** A text is its trimmed self between two fillers. *)
Lemma TrimSpace_split (s : string) :
  exists l r, Filler l /\ Filler r /\ s = l ++ TrimSpace s ++ r.
Proof.
  destruct (trimLeft_split s) as [l [Hl Hs]].
  destruct (trimLeftRev_split (rev (trimLeft s))) as [w [Hw Ht]].
  exists l, (rev w). split; [exact Hl|]. split; [exact Hw|].
  unfold TrimSpace, trimRight.
  rewrite <- rev_app, <- Ht, rev_rev. exact Hs.
Qed.

Lemma Woven_filler_l (g t : string) (us : list string) :
  Filler g -> Woven t us -> Woven (g ++ t) us.
Proof.
  intros Hg Ht. destruct Ht as [g' Hg' | g' u t us Hg' Ht].
  - constructor. apply Filler_app; assumption.
  - rewrite <- string_app_assoc. constructor; [apply Filler_app|]; assumption.
Qed.

Lemma Woven_app (a b : string) (us vs : list string) :
  Woven a us -> Woven b vs -> Woven (a ++ b) (us ++ vs)%list.
Proof.
  intros Ha Hb. induction Ha as [g Hg | g u t us Hg Ht IH].
  - cbn [app]. apply Woven_filler_l; assumption.
  - cbn [app]. rewrite !string_app_assoc. constructor; [exact Hg | exact IH].
Qed.

Lemma Woven_between (l t r : string) (us : list string) :
  Filler l -> Filler r -> Woven t us -> Woven (l ++ t ++ r) us.
Proof.
  intros Hl Hr Ht. apply Woven_filler_l; [exact Hl|].
  rewrite <- (app_nil_r us). apply Woven_app; [exact Ht | constructor; exact Hr].
Qed.

(** The trimmed texts of a list that are not empty. *)
Local Abbreviation trimmed l :=
  (List.filter (fun s => negb (isEmpty s)) (map TrimSpace l)).

Lemma Woven_trimmed (s : string) : Woven s (trimmed [s]).
Proof.
  destruct (TrimSpace_split s) as [l [r [Hl [Hr Hs]]]].
  cbn [map List.filter]. destruct (isEmpty (TrimSpace s)) eqn:He; cbn [negb].
  - destruct (TrimSpace s); [|discriminate]. rewrite Hs.
    constructor. apply Filler_app; assumption.
  - rewrite Hs at 1. constructor; [exact Hl | constructor; exact Hr].
Qed.

Lemma Woven_trimmed_twice (s : string) : Woven s (trimmed (trimmed [s])).
Proof.
  destruct (TrimSpace_split s) as [l [r [Hl [Hr Hs]]]].
  cbn [map List.filter]. destruct (isEmpty (TrimSpace s)) eqn:He; cbn [negb].
  - destruct (TrimSpace s); [|discriminate]. rewrite Hs.
    constructor. apply Filler_app; assumption.
  - rewrite Hs at 1. apply Woven_between; [exact Hl | exact Hr |].
    apply Woven_trimmed.
Qed.

Lemma trimmed_app (a b : list string) :
  trimmed (a ++ b)%list = (trimmed a ++ trimmed b)%list.
Proof. rewrite map_app, List.filter_app. reflexivity. Qed.

(** The sentences of [splitIntoSentences] are the trimmed fields. *)
Lemma splitIntoSentences_trimmed (text : string) :
  splitIntoSentences text = trimmed (FieldsFunc text isSentenceEnd).
Proof.
  unfold splitIntoSentences.
  assert (Hgen : forall l acc,
    fold_left
      (fun result s =>
         let s := TrimSpace s in
         if isEmpty s then result else (result ++ [s])%list) l acc
    = (acc ++ trimmed l)%list).
  { induction l as [|s l IH]; intros acc; cbn [fold_left map List.filter].
    - rewrite app_nil_r. reflexivity.
    - rewrite IH. cbn zeta. destruct (isEmpty (TrimSpace s)); cbn [negb];
        [reflexivity | rewrite <- app_assoc; reflexivity]. }
  apply Hgen.
Qed.

(** A text is its fields, trimmed, woven with terminators and white
    space. *)
Lemma Woven_fields (s acc : string) :
  Woven (acc ++ s) (trimmed (trimmed (fieldsAux isSentenceEnd acc s))).
Proof.
  revert acc. induction s as [|c s IH]; intros acc; cbn [fieldsAux].
  - rewrite string_app_nil_r. destruct acc as [|a acc]; cbn [isEmpty].
    + constructor. constructor.
    + apply Woven_trimmed_twice.
  - destruct (isSentenceEnd c) eqn:Hc.
    + rewrite !trimmed_app. apply Woven_app.
      * destruct acc as [|a acc]; cbn [isEmpty];
          [constructor; constructor | apply Woven_trimmed_twice].
      * change (String c s) with (String c EmptyString ++ (EmptyString ++ s)).
        apply Woven_filler_l; [|apply IH].
        apply filler_end; [exact Hc | constructor].
    + replace (acc ++ String c s) with ((acc ++ String c EmptyString) ++ s)
        by (rewrite string_app_assoc; reflexivity).
      apply IH.
Qed.

(** A paragraph is its units, woven. *)
Lemma Woven_paragraph (maxChunkSize : Z) (para : string) :
  Woven para (unitTexts (unitsOfParagraph maxChunkSize para)).
Proof.
  unfold unitsOfParagraph, unitTexts.
  destruct (TrimSpace_split para) as [l [r [Hl [Hr Hs]]]].
  destruct (isEmpty (TrimSpace para)) eqn:He.
  - destruct (TrimSpace para); [|discriminate]. rewrite Hs.
    constructor. apply Filler_app; assumption.
  - destruct (RuneCountInString (TrimSpace para) >? maxChunkSize).
    + rewrite map_map. cbn [snd]. rewrite map_id, splitIntoSentences_trimmed.
      rewrite Hs at 1. apply Woven_between; [exact Hl | exact Hr |].
      apply (Woven_fields (TrimSpace para) EmptyString).
    + cbn [map snd]. rewrite Hs at 1.
      constructor; [exact Hl | constructor; exact Hr].
Qed.

Lemma HasPrefix_drop (s p : string) :
  HasPrefix s p = true -> p ++ drop (String.length p) s = s.
Proof.
  revert s. induction p as [|a p IH]; intros s Hp; [reflexivity|].
  destruct s as [|b s]; [discriminate|]. cbn [HasPrefix] in Hp.
  apply andb_prop in Hp. destruct Hp as [Hab Hp]. apply Ascii.eqb_eq in Hab.
  subst b. cbn [append String.length drop]. f_equal. apply IH. exact Hp.
Qed.

Lemma splitAux_cons (sep : string) (s : string) (k : nat) (acc : string) :
  exists p rest, splitAux sep k acc s = p :: rest.
Proof.
  revert k acc. induction s as [|c s IH]; intros k acc; cbn [splitAux].
  - eexists _, _. reflexivity.
  - destruct k as [|k]; [|apply IH].
    destruct (HasPrefix (String c s) sep); [eexists _, _; reflexivity | apply IH].
Qed.

(** [strings.Join(strings.Split(s, sep), sep) == s]. *)
Lemma Join_splitAux (sep : string) (s : string) (k : nat) (acc : string) :
  isEmpty sep = false ->
  Join (splitAux sep k acc s) sep = acc ++ drop k s.
Proof.
  intros Hsep. revert k acc. induction s as [|c s IH]; intros k acc.
  - cbn [splitAux Join]. destruct k; cbn [drop]; rewrite string_app_nil_r; reflexivity.
  - cbn [splitAux]. destruct k as [|k]; [|cbn [drop]; apply IH].
    cbn [drop]. destruct (HasPrefix (String c s) sep) eqn:Hp.
    + destruct (splitAux_cons sep s (String.length sep - 1) EmptyString)
        as [p [rest Hsplit]].
      pose proof (IH (String.length sep - 1)%nat EmptyString) as Hrest.
      rewrite Hsplit in Hrest |- *.
      change (Join (acc :: p :: rest) sep) with (acc ++ sep ++ Join (p :: rest) sep).
      rewrite Hrest. cbn [append]. f_equal.
      destruct sep as [|a sep']; [discriminate|].
      cbn [String.length]. replace (S (String.length sep') - 1)%nat
        with (String.length sep') by lia.
      pose proof (HasPrefix_drop _ _ Hp) as Hd. cbn [String.length drop] in Hd.
      cbn [HasPrefix] in Hp. apply andb_prop in Hp. destruct Hp as [Hac _].
      apply Ascii.eqb_eq in Hac. subst a. exact Hd.
    + rewrite IH. cbn [drop]. rewrite string_app_assoc. reflexivity.
Qed.

Lemma Woven_paragraphs (maxChunkSize : Z) (ps : list string) :
  Woven (Join ps paraSep)
    (unitTexts (flat_map (unitsOfParagraph maxChunkSize) ps)).
Proof.
  assert (Hsep : Filler paraSep) by (repeat constructor).
  induction ps as [|p ps IH].
  - constructor. constructor.
  - cbn [flat_map]. unfold unitTexts. rewrite map_app.
    destruct ps as [|q ps].
    + cbn [Join flat_map map]. rewrite app_nil_r. apply Woven_paragraph.
    + change (Join (p :: q :: ps) paraSep)
        with (p ++ paraSep ++ Join (q :: ps) paraSep).
      apply Woven_app; [apply Woven_paragraph|].
      apply Woven_filler_l; [exact Hsep | exact IH].
Qed.

(** A text is its units, in their order and each once, woven with
    white space and sentence terminators. *)
Lemma Woven_units (maxChunkSize : Z) (text : string) :
  Woven text (unitTexts (units maxChunkSize text)).
Proof.
  unfold units.
  pose proof (Woven_paragraphs maxChunkSize (Split text paraSep)) as Hw.
  unfold Split in Hw at 1. rewrite (Join_splitAux paraSep text O EmptyString eq_refl) in Hw.
  exact Hw.
Qed.

End WeaveProofs.

Import Chunker ChunkLayout.

Lemma ChunkText_units (text : string) (maxChunkSize overlap : Z) :
  ChunkText text maxChunkSize overlap =
  finish
    (fold_left (addU (effMax maxChunkSize) (effOverlap maxChunkSize overlap))
       (units (effMax maxChunkSize) text)
       {| chunks := []; currentChunk := EmptyString |}).
Proof. unfold ChunkText, finish, units. rewrite fold_addParagraph. reflexivity. Qed.

(** The chunks are the layout of a grouping of the units, and a chunk of
    two units or more is within the size. *)
Lemma ChunkText_layout (text : string) (maxChunkSize overlap : Z) :
  exists groups,
    concat groups = units (effMax maxChunkSize) text
    /\ Forall (fun g => g <> []) groups
    /\ ChunkText text maxChunkSize overlap
       = layout (effOverlap maxChunkSize overlap) groups
    /\ Forall2
         (fun g c => (2 <= List.length g)%nat -> len c <= effMax maxChunkSize)
         groups (ChunkText text maxChunkSize overlap).
Proof.
  rewrite ChunkText_units.
  destruct (loopInv_fold (effMax maxChunkSize) (effOverlap maxChunkSize overlap)
              (units (effMax maxChunkSize) text) (units_nonempty _ text))
    as [groups [open [Hus Hgs Hch Hcur Hfirst Hpos Hsizes Hsize]]].
  unfold finish.
  destruct (len (currentChunk _) >? 0) eqn:Hlen.
  - assert (Hopen : open <> []).
    { intros ->. cbn in Hcur. rewrite Hcur in Hlen. discriminate. }
    exists (groups ++ [open])%list. repeat split.
    + rewrite concat_app. cbn [concat]. rewrite app_nil_r. symmetry. exact Hus.
    + apply Forall_app. split; [exact Hgs | repeat constructor; exact Hopen].
    + unfold layout. rewrite layoutFrom_snoc, <- Hch, <- Hcur. reflexivity.
    + apply Forall2_app; [exact Hsizes | repeat constructor; exact Hsize].
  - assert (Hopen : open = []).
    { destruct open as [|u0 open]; [reflexivity|].
      assert (0 < len (currentChunk
        (fold_left (addU (effMax maxChunkSize) (effOverlap maxChunkSize overlap))
           (units (effMax maxChunkSize) text)
           {| chunks := []; currentChunk := EmptyString |})))
        by (apply Hpos; congruence).
      apply gtb_false in Hlen. lia. }
    subst open. exists groups. repeat split.
    + rewrite Hus, app_nil_r. reflexivity.
    + exact Hgs.
    + exact Hch.
    + exact Hsizes.
Qed.

(** C6, as the code has it: the chunks hold the units of the text in
    their order, each unit once, every chunk after the first opening with
    the overlap seed taken from the end of the chunk before it.  The
    units are the trimmed paragraphs and, for a paragraph longer than the
    size, its trimmed sentences without their terminators; the text
    itself is these units, in this order and each once, with nothing but
    white space and sentence terminators before, between and after
    them. *)
Theorem ChunkText_units_in_order (text : string) (maxChunkSize overlap : Z) :
  exists groups : list (list unit),
    concat groups = units (effMax maxChunkSize) text
    /\ Forall (fun g => g <> []) groups
    /\ ChunkText text maxChunkSize overlap
       = layout (effOverlap maxChunkSize overlap) groups
    /\ Woven text (unitTexts (concat groups)).
Proof.
  destruct (ChunkText_layout text maxChunkSize overlap) as [groups [H1 [H2 [H3 _]]]].
  exists groups. repeat split; try assumption.
  rewrite H1. apply Woven_units.
Qed.

(** C6, as stated, fails: the terminators of the sentences of a long
    paragraph are in no chunk, so two texts that differ in them have the
    same chunks. *)
Lemma ChunkText_drops_sentence_terminators :
  ChunkText "Hello world. Bye now!" 10 0 = ["Hello world"; "Bye now"]
  /\ ChunkText "Hello world? Bye now." 10 0 = ["Hello world"; "Bye now"]
  /\ forallb (fun c => negb (Contains c "." || Contains c "!"))
       (ChunkText "Hello world. Bye now!" 10 0) = true.
Proof. vm_compute. auto. Qed.

(** C7, as the code has it: a chunk that holds two units or more has at
    most [maxSize] bytes, hence at most [maxSize] characters; only a
    chunk of a single unit (with its overlap seed) can be longer. *)
Theorem ChunkText_chunk_of_units_within_maxSize (text : string)
  (maxChunkSize overlap : Z) :
  exists groups : list (list unit),
    concat groups = units (effMax maxChunkSize) text
    /\ ChunkText text maxChunkSize overlap
       = layout (effOverlap maxChunkSize overlap) groups
    /\ Forall2
         (fun g c =>
            (2 <= List.length g)%nat ->
            RuneCountInString c <= len c /\ len c <= effMax maxChunkSize)
         groups (ChunkText text maxChunkSize overlap).
Proof.
  destruct (ChunkText_layout text maxChunkSize overlap) as [groups [H1 [_ [H3 H4]]]].
  exists groups. repeat split; [exact H1 | exact H3 |].
  eapply Forall2_impl; [exact H4|].
  intros g c Hc Hg. split; [apply RuneCount_le_len | auto].
Qed.

(** C7, as stated, fails: a sentence longer than the size is a chunk of
    its own, and so is the overlap seed followed by a sentence; neither
    is the last chunk here. *)
Lemma ChunkText_chunk_exceeds_maxSize :
  ChunkText "aaaaaaaa. bb" 5 0 = ["aaaaaaaa"; "bb"]
  /\ (RuneCountInString "aaaaaaaa" >? 5) = true
  /\ ChunkText "aaa bbb. ccc ddd. eee" 10 3 = ["aaa bbb"; "bbb  ccc ddd"; "ddd  eee"]
  /\ (RuneCountInString "bbb  ccc ddd" >? 10) = true.
Proof. vm_compute. auto. Qed.
(** ** The Job Store *)

Section JobStoreProofs.
Import Repositories JobInvariant.
Context `{Database}.

Lemma reportUpdate_fst (what : string) (r : gmap UUID Evaluation * gormResult) :
  fst (reportUpdate what r) = fst r.
Proof.
  unfold reportUpdate. destruct (Error (snd r)); [reflexivity|].
  destruct (RowsAffected (snd r) =? 0); reflexivity.
Qed.

(** The two ways an update ends: its row is written and it returns nil,
    or it returns an error and the table is as it was. *)
Lemma reportUpdate_cases (what : string) (db : gmap UUID Evaluation) (id : UUID)
  (updates : list assignment) :
  (exists row stored,
      updateError id updates = None /\ db !! id = Some row
      /\ columns updates = Some stored
      /\ reportUpdate what (Updates db id updates)
         = (<[id := assignAll stored row]> db, None))
  \/ (exists err, reportUpdate what (Updates db id updates) = (db, Some err)).
Proof.
  unfold Updates, reportUpdate.
  destruct (updateError id updates) as [err|] eqn:Herr;
    [right; eexists; reflexivity|].
  destruct (db !! id) as [row|] eqn:Hid; [|right; eexists; reflexivity].
  destruct (columns updates) as [stored|] eqn:Hst; [|right; eexists; reflexivity].
  left. exists row, stored. repeat split.
Qed.

Lemma Updates_found (db : gmap UUID Evaluation) (id : UUID) (row : Evaluation)
  (what : string) (updates stored : list assignment) :
  updateError id updates = None ->
  db !! id = Some row ->
  columns updates = Some stored ->
  reportUpdate what (Updates db id updates)
  = (<[id := assignAll stored row]> db, None).
Proof.
  intros Herr Hrow Hst. unfold Updates. rewrite Herr, Hrow, Hst. reflexivity.
Qed.

Lemma Updates_refused (db : gmap UUID Evaluation) (id : UUID) (what err : string)
  (updates : list assignment) :
  updateError id updates = Some err ->
  reportUpdate what (Updates db id updates)
  = (db, Some ("failed to update " ++ what ++ ": " ++ err)).
Proof. intros Herr. unfold Updates. rewrite Herr. reflexivity. Qed.

(** An update keeps the invariant of the table when the row it writes
    satisfies it. *)
Lemma storeInvariant_Updates (what : string) (db : gmap UUID Evaluation) (id : UUID)
  (updates : list assignment) :
  storeInvariant db ->
  (forall row stored,
      db !! id = Some row -> columns updates = Some stored ->
      jobInvariant (assignAll stored row) = true) ->
  storeInvariant (fst (reportUpdate what (Updates db id updates))).
Proof.
  intros Hdb Hrow.
  destruct (reportUpdate_cases what db id updates)
    as [[row [stored [_ [Hid [Hst ->]]]]] | [err ->]]; [|exact Hdb].
  cbn [fst]. intros id' j. destruct (decide (id = id')) as [<-|Hne].
  - rewrite lookup_insert_eq. intros [= <-]. apply (Hrow row stored); assumption.
  - rewrite lookup_insert_ne by exact Hne. apply Hdb.
Qed.

(** The columns of a complete result. *)
Lemma columns_result (now : Time) (a c : float) (b d f : string)
  (stored : list assignment) :
  columns
    [status_ StatusCompleted; updated_at now; cv_match_rate a; cv_feedback b;
     project_score c; project_feedback d; overall_summary f] = Some stored ->
  exists a' c',
    decimal_3_2 a = Some a' /\ decimal_3_2 c = Some c'
    /\ stored
       = [status_ StatusCompleted; updated_at now; cv_match_rate a'; cv_feedback b;
          project_score c'; project_feedback d; overall_summary f].
Proof.
  cbn [columns column].
  destruct (decimal_3_2 a) as [a'|]; [|discriminate].
  destruct (decimal_3_2 c) as [c'|]; [|discriminate].
  intros [= <-]. exists a', c'. repeat split.
Qed.

(** C1, as the code has it: the transitions keep the invariant where the
    pipeline uses them.  [UpdateStatus] keeps it when it moves a job that
    is Queued or Processing to Queued or Processing; [UpdateResult] when
    all five fields are given and the job is not Failed; [UpdateError]
    when the job is not Completed.  This holds of every database: an
    update that fails leaves the table as it was. *)
Theorem Job_Store_transitions_keep_invariant (db : gmap UUID Evaluation)
  (now : Time) (id : UUID) :
  storeInvariant db ->
  (forall status,
      nonTerminal status = true ->
      (forall j, db !! id = Some j -> nonTerminal (Status j) = true) ->
      storeInvariant (fst (UpdateStatus db now id status)))
  /\ (forall data,
      complete data = true ->
      (forall j, db !! id = Some j -> Status j <> StatusFailed) ->
      storeInvariant (fst (UpdateResult db now id data)))
  /\ (forall errorMsg,
      (forall j, db !! id = Some j -> Status j <> StatusCompleted) ->
      storeInvariant (fst (UpdateError db now id errorMsg))).
Proof.
  intros Hdb. repeat split.
  - intros status Hs Hj. unfold UpdateStatus.
    apply storeInvariant_Updates; [exact Hdb|].
    intros row stored Hrow [= <-]. specialize (Hj row Hrow).
    specialize (Hdb id row Hrow).
    revert Hdb. unfold jobInvariant, resultsPopulated, errorPopulated.
    cbn. destruct (Status row), status; try discriminate; cbn; auto.
  - intros data Hc Hj. unfold UpdateResult.
    apply storeInvariant_Updates; [exact Hdb|].
    intros row stored Hrow Hst. specialize (Hj row Hrow). specialize (Hdb id row Hrow).
    revert Hdb. unfold complete in Hc.
    destruct data as [[a|] [b|] [c|] [d|] [f|]]; try discriminate.
    cbn [optAssign app dCVMatchRate dCVFeedback dProjectScore dProjectFeedback
           dOverallSummary] in Hst.
    destruct (columns_result now a c b d f stored Hst) as [a' [c' [_ [_ ->]]]].
    unfold jobInvariant, resultsPopulated, errorPopulated. cbn.
    destruct (Status row); try congruence; cbn;
      destruct (ErrorMessage row); cbn; rewrite ?andb_false_r; auto.
  - intros errorMsg Hj. unfold UpdateError.
    apply storeInvariant_Updates; [exact Hdb|].
    intros row stored Hrow [= <-]. specialize (Hj row Hrow).
    specialize (Hdb id row Hrow).
    revert Hdb. unfold jobInvariant, resultsPopulated, errorPopulated. cbn.
    destruct (Status row); try congruence; cbn;
      intros Hinv; apply andb_prop in Hinv; destruct Hinv as [Hinv _];
      rewrite andb_true_r; exact Hinv.
Qed.

Lemma storeInvariant_queuedStore : storeInvariant queuedStore.
Proof.
  intros id j. unfold queuedStore.
  destruct (decide (id = 1%N)) as [->|Hne].
  - rewrite lookup_singleton_eq. intros [= <-]. reflexivity.
  - rewrite lookup_singleton_ne by congruence. discriminate.
Defined.

Lemma queuedStore_lookup (id : UUID) (j : Evaluation) :
  queuedStore !! id = Some j -> j = queuedJob.
Proof.
  unfold queuedStore. destruct (decide (id = 1%N)) as [->|Hne].
  - rewrite lookup_singleton_eq. congruence.
  - rewrite lookup_singleton_ne by congruence. discriminate.
Defined.

End JobStoreProofs.

Section JobStoreScenarios.
Import Repositories JobInvariant.
Local Existing Instance reliable.

(** C1 on the path of a run on a new job: Queued to Processing, and from
    there to Completed with a full result or to Failed. *)
Lemma Job_Store_transitions_keep_invariant_witness :
  storeInvariant queuedStore
  /\ storeInvariant (fst (UpdateStatus queuedStore 5 1%N StatusProcessing))
  /\ storeInvariant (fst (UpdateResult queuedStore 7 1%N fullResult))
  /\ storeInvariant (fst (UpdateError queuedStore 7 1%N "CV document not found: x")).
Proof.
  pose proof (Job_Store_transitions_keep_invariant queuedStore 5 1%N
                storeInvariant_queuedStore) as [H1 _].
  pose proof (Job_Store_transitions_keep_invariant queuedStore 7 1%N
                storeInvariant_queuedStore) as [_ [H2 H3]].
  split; [exact storeInvariant_queuedStore|].
  split; [|split].
  - apply H1; [reflexivity|].
    intros j Hj. apply queuedStore_lookup in Hj. subst j. reflexivity.
  - apply H2; [reflexivity|].
    intros j Hj. apply queuedStore_lookup in Hj. subst j. discriminate.
  - apply H3.
    intros j Hj. apply queuedStore_lookup in Hj. subst j. discriminate.
Defined.

(** C1, as stated, fails: the three operations write their columns
    whatever the row holds.  [UpdateStatus] can make a job Completed
    without results, [UpdateResult] can do so with a partial result, and
    [UpdateError] makes a Completed job Failed and keeps its results. *)
Lemma Job_Store_transitions_break_invariant :
  jobInvariant queuedJob = true
  /\ (jobInvariant <$> completedStore !! 1%N) = Some true
  /\ (jobInvariant <$> fst (UpdateStatus queuedStore 5 1%N StatusCompleted) !! 1%N)
     = Some false
  /\ (jobInvariant <$> fst (UpdateResult queuedStore 5 1%N emptyResult) !! 1%N)
     = Some false
  /\ (jobInvariant <$> fst (UpdateError completedStore 9 1%N "late failure") !! 1%N)
     = Some false.
Proof. vm_compute. auto 10. Qed.

End JobStoreScenarios.
(** ** The evaluation state machine *)

Section EvaluatorProofs.
Import Repositories JobInvariant Evaluator Prompt Run.
Context `{Database} `{GoFmt} `{JSONTarget CVEvaluationResult}
  `{JSONTarget ProjectEvaluationResult}.
Variable e : evaluatorService.
Variable ctx : Gemini.Context.

Lemma noResults_resultsOf (j j' : Evaluation) :
  resultsOf j' = resultsOf j -> noResults j' = noResults j.
Proof. unfold resultsOf, noResults. intros [= -> -> -> -> ->]. reflexivity. Qed.

(** The run once it has started: the job is Processing in the table,
    and the steps that follow decide the outcome. *)
Lemma EvaluateCandidate_started (tStart tEnd : Time) (evalID : UUID)
  (db : gmap UUID Evaluation) (job : Evaluation) :
  db !! evalID = Some job ->
  starts evalID tStart ->
  let job1 := assignAll (startStatement tStart) job in
  let db1 := <[evalID := job1]> db in
  EvaluateCandidate e ctx tStart tEnd evalID db =
  match docFindByID (docRepo e) (CVDocumentID job) with
  | Err err =>
      failWith db1 tEnd evalID ("CV document not found: " ++ err)
        ("failed to get CV document: " ++ err)
  | Ok cvDoc =>
  match docFindByID (docRepo e) (ProjectDocumentID job) with
  | Err err =>
      failWith db1 tEnd evalID ("Project document not found: " ++ err)
        ("failed to get project document: " ++ err)
  | Ok projectDoc =>
  match ExtractTextWithMetaData (pdfParser e) (FilePath cvDoc) with
  | Err err =>
      failWith db1 tEnd evalID ("Failed to parse CV: " ++ err)
        ("failed to parse CV: " ++ err)
  | Ok cvContent =>
  match ExtractTextWithMetaData (pdfParser e) (FilePath projectDoc) with
  | Err err =>
      failWith db1 tEnd evalID ("Failed to parse project report: " ++ err)
        ("failed to parse project report: " ++ err)
  | Ok projectContent =>
  match evaluateCV e ctx (pdfText cvContent) (cvStageContext e ctx cvContent)
          (JobTitle job) with
  | Err err =>
      failWith db1 tEnd evalID ("Failed to evaluate CV: " ++ err)
        ("failed to evaluate CV: " ++ err)
  | Ok cvResult =>
  match evaluateProject e ctx (pdfText projectContent)
          (projectStageContext e ctx projectContent) with
  | Err err =>
      failWith db1 tEnd evalID ("Failed to evaluate project: " ++ err)
        ("failed to evaluate project: " ++ err)
  | Ok projectResult =>
  match generateSummary e ctx cvResult projectResult (JobTitle job) with
  | Err err =>
      failWith db1 tEnd evalID ("Failed to generate summary: " ++ err)
        ("failed to generate summary: " ++ err)
  | Ok summary =>
      afterSave
        (UpdateResult db1 tEnd evalID (resultData cvResult projectResult summary))
  end end end end end end end.
Proof.
  intros Hjob [Hwrite Hread] job1 db1.
  unfold EvaluateCandidate, UpdateStatus.
  rewrite (Updates_found db evalID job "status"
             [status_ StatusProcessing; updated_at tStart] (startStatement tStart)
             Hwrite Hjob eq_refl).
  unfold FindByID. rewrite Hread. fold job1. fold db1.
  replace (db1 !! evalID) with (Some job1) by (symmetry; apply lookup_insert_eq).
  change (CVDocumentID job1) with (CVDocumentID job).
  change (ProjectDocumentID job1) with (ProjectDocumentID job).
  change (JobTitle job1) with (JobTitle job).
  reflexivity.
Qed.

(** The two ways a failure is recorded: the job is written Failed with
    the message, or the database refuses the write, which the run does
    not look at, and the job stays as it is.  The error returned is the
    same in both. *)
Lemma failWith_cases (db1 : gmap UUID Evaluation) (tEnd : Time) (evalID : UUID)
  (job1 : Evaluation) (recorded returned : string) :
  db1 !! evalID = Some job1 ->
  (updateError evalID (errorStatement tEnd recorded) = None
   /\ failWith db1 tEnd evalID recorded returned
      = (<[evalID := assignAll (errorStatement tEnd recorded) job1]> db1,
         Some returned))
  \/ (exists err,
        updateError evalID (errorStatement tEnd recorded) = Some err
        /\ failWith db1 tEnd evalID recorded returned = (db1, Some returned)).
Proof.
  intros Hj1. unfold failWith, UpdateError.
  destruct (updateError evalID (errorStatement tEnd recorded)) as [err|] eqn:Herr.
  - right. exists err. split; [reflexivity|].
    rewrite (Updates_refused db1 evalID "error" err
               [status_ StatusFailed; error_message recorded; updated_at tEnd] Herr).
    reflexivity.
  - left. split; [reflexivity|].
    rewrite (Updates_found db1 evalID job1 "error"
               [status_ StatusFailed; error_message recorded; updated_at tEnd]
               (errorStatement tEnd recorded) Herr Hj1 eq_refl).
    reflexivity.
Qed.

(** The job after a failure is handed to the store. *)
Lemma failWith_job (db1 : gmap UUID Evaluation) (tEnd : Time) (evalID : UUID)
  (job1 : Evaluation) (recorded returned : string) :
  db1 !! evalID = Some job1 ->
  snd (failWith db1 tEnd evalID recorded returned) = Some returned
  /\ (forall other, other <> evalID ->
        fst (failWith db1 tEnd evalID recorded returned) !! other = db1 !! other)
  /\ exists job',
       fst (failWith db1 tEnd evalID recorded returned) !! evalID = Some job'
       /\ resultsOf job' = resultsOf job1
       /\ identityOf job' = identityOf job1
       /\ (updateError evalID (errorStatement tEnd recorded) = None ->
           Status job' = StatusFailed /\ ErrorMessage job' = Some recorded)
       /\ (forall err,
             updateError evalID (errorStatement tEnd recorded) = Some err ->
             job' = job1).
Proof.
  intros Hj1.
  destruct (failWith_cases db1 tEnd evalID job1 recorded returned Hj1)
    as [[Htaken ->] | [err [Hrefused ->]]]; cbn [fst snd].
  - split; [reflexivity|].
    split; [intros other Hne; apply lookup_insert_ne; congruence|].
    rewrite lookup_insert_eq. eexists. split; [reflexivity|].
    split; [reflexivity|]. split; [reflexivity|].
    split; [intros _; split; reflexivity | intros err Herr; congruence].
  - split; [reflexivity|]. split; [reflexivity|].
    exists job1. split; [exact Hj1|]. split; [reflexivity|]. split; [reflexivity|].
    split; [intros Hnone; congruence | reflexivity].
Qed.

(** The row a result is saved in. *)
Lemma UpdateResult_written (db : gmap UUID Evaluation) (now : Time) (id : UUID)
  (data : EvaluationUpdateData) :
  snd (UpdateResult db now id data) = None ->
  exists row row',
    db !! id = Some row
    /\ fst (UpdateResult db now id data) = <[id := row']> db
    /\ fits (dCVMatchRate data) = true /\ fits (dProjectScore data) = true
    /\ Status row' = StatusCompleted /\ UpdatedAt row' = now
    /\ CVMatchRate row' = writtenScore (dCVMatchRate data) (CVMatchRate row)
    /\ CVFeedback row' = written (dCVFeedback data) (CVFeedback row)
    /\ ProjectScore row' = writtenScore (dProjectScore data) (ProjectScore row)
    /\ ProjectFeedback row' = written (dProjectFeedback data) (ProjectFeedback row)
    /\ OverallSummary row' = written (dOverallSummary data) (OverallSummary row)
    /\ ErrorMessage row' = ErrorMessage row
    /\ identityOf row' = identityOf row.
Proof.
  unfold UpdateResult. intros Hnil.
  match goal with
  | |- context [reportUpdate ?what (Updates db id ?updates)] =>
      destruct (reportUpdate_cases what db id updates)
        as [[row [stored [_ [Hid [Hst Heq]]]]] | [err Heq]]
  end; rewrite Heq in Hnil |- *; [|discriminate].
  exists row, (assignAll stored row). split; [exact Hid|]. split; [reflexivity|].
  clear Heq Hnil.
  destruct data as [[a|] [b|] [c|] [d|] [f|]];
    cbn [optAssign app dCVMatchRate dCVFeedback dProjectScore dProjectFeedback
           dOverallSummary columns column writtenScore fits written] in *;
    repeat match type of Hst with
      | context [decimal_3_2 ?x] => destruct (decimal_3_2 x); try discriminate
      end;
    injection Hst as <-; repeat split; reflexivity.
Qed.

(** C5, as the code has it: a run that has started and whose document
    lookup fails returns an error and hands a non-empty message that
    contains "not found" to the store, with status Failed.  The job ends
    Failed with that message when the database takes the write; the run
    does not look at the error of [UpdateError], so when the write is
    refused the job stays Processing without a message.  The result
    fields are left as they were: none is set when none was set before
    the run. *)
Theorem document_lookup_failure_ends_Failed (tStart tEnd : Time) (evalID : UUID)
  (db : gmap UUID Evaluation) (job : Evaluation) :
  db !! evalID = Some job ->
  starts evalID tStart ->
  lookupFails e job ->
  exists job' errorMsg,
    fst (EvaluateCandidate e ctx tStart tEnd evalID db) !! evalID = Some job'
    /\ isSome (snd (EvaluateCandidate e ctx tStart tEnd evalID db)) = true
    /\ isEmpty errorMsg = false
    /\ Contains errorMsg "not found" = true
    /\ (updateError evalID (errorStatement tEnd errorMsg) = None ->
        Status job' = StatusFailed /\ ErrorMessage job' = Some errorMsg)
    /\ (forall err,
          updateError evalID (errorStatement tEnd errorMsg) = Some err ->
          Status job' = StatusProcessing /\ ErrorMessage job' = ErrorMessage job)
    /\ resultsOf job' = resultsOf job
    /\ (noResults job = true -> noResults job' = true).
Proof.
  intros Hjob Hstart Hfail.
  rewrite (EvaluateCandidate_started tStart tEnd evalID db job Hjob Hstart).
  set (job1 := assignAll (startStatement tStart) job).
  assert (Hj1 : <[evalID := job1]> db !! evalID = Some job1) by apply lookup_insert_eq.
  assert (Hgen : forall recorded returned,
    isEmpty recorded = false -> Contains recorded "not found" = true ->
    exists job' errorMsg,
      fst (failWith (<[evalID := job1]> db) tEnd evalID recorded returned) !! evalID
      = Some job'
      /\ isSome (snd (failWith (<[evalID := job1]> db) tEnd evalID recorded returned))
         = true
      /\ isEmpty errorMsg = false
      /\ Contains errorMsg "not found" = true
      /\ (updateError evalID (errorStatement tEnd errorMsg) = None ->
          Status job' = StatusFailed /\ ErrorMessage job' = Some errorMsg)
      /\ (forall err,
            updateError evalID (errorStatement tEnd errorMsg) = Some err ->
            Status job' = StatusProcessing /\ ErrorMessage job' = ErrorMessage job)
      /\ resultsOf job' = resultsOf job
      /\ (noResults job = true -> noResults job' = true)).
  { intros recorded returned Hne Hnf.
    destruct (failWith_cases _ tEnd evalID job1 recorded returned Hj1)
      as [[Htaken ->] | [err [Hrefused ->]]]; cbn [fst snd].
    - rewrite lookup_insert_eq. eexists _, recorded.
      split; [reflexivity|]. split; [reflexivity|]. split; [exact Hne|].
      split; [exact Hnf|]. split; [intros _; split; reflexivity|].
      split; [intros err' Herr'; congruence|]. split; [reflexivity|].
      intros Hn. rewrite <- Hn. apply noResults_resultsOf. reflexivity.
    - rewrite Hj1. exists job1, recorded.
      split; [reflexivity|]. split; [reflexivity|]. split; [exact Hne|].
      split; [exact Hnf|]. split; [intros Hnone; congruence|].
      split; [intros _ _; split; reflexivity|]. split; [reflexivity|].
      intros Hn. rewrite <- Hn. apply noResults_resultsOf. reflexivity. }
  destruct Hfail as [[err Hcv] | [doc [err [Hcv Hpr]]]].
  - rewrite Hcv. apply Hgen; reflexivity.
  - rewrite Hcv, Hpr. apply Hgen; reflexivity.
Qed.

(** The run past the reading of both documents: the three generation
    steps decide its outcome. *)
Lemma EvaluateCandidate_stages (tStart tEnd : Time) (evalID : UUID)
  (db : gmap UUID Evaluation) (job : Evaluation) (cvDoc projectDoc : Document)
  (cvContent projectContent : PDFContent) :
  db !! evalID = Some job ->
  starts evalID tStart ->
  docFindByID (docRepo e) (CVDocumentID job) = Ok cvDoc ->
  docFindByID (docRepo e) (ProjectDocumentID job) = Ok projectDoc ->
  ExtractTextWithMetaData (pdfParser e) (FilePath cvDoc) = Ok cvContent ->
  ExtractTextWithMetaData (pdfParser e) (FilePath projectDoc) = Ok projectContent ->
  let job1 := assignAll (startStatement tStart) job in
  let db1 := <[evalID := job1]> db in
  EvaluateCandidate e ctx tStart tEnd evalID db =
  match evaluateCV e ctx (pdfText cvContent) (cvStageContext e ctx cvContent)
          (JobTitle job) with
  | Err err =>
      failWith db1 tEnd evalID ("Failed to evaluate CV: " ++ err)
        ("failed to evaluate CV: " ++ err)
  | Ok cvResult =>
  match evaluateProject e ctx (pdfText projectContent)
          (projectStageContext e ctx projectContent) with
  | Err err =>
      failWith db1 tEnd evalID ("Failed to evaluate project: " ++ err)
        ("failed to evaluate project: " ++ err)
  | Ok projectResult =>
  match generateSummary e ctx cvResult projectResult (JobTitle job) with
  | Err err =>
      failWith db1 tEnd evalID ("Failed to generate summary: " ++ err)
        ("failed to generate summary: " ++ err)
  | Ok summary =>
      afterSave
        (UpdateResult db1 tEnd evalID (resultData cvResult projectResult summary))
  end end end.
Proof.
  intros Hjob Hstart Hcv Hpr Hcvp Hprp job1 db1.
  rewrite (EvaluateCandidate_started tStart tEnd evalID db job Hjob Hstart).
  rewrite Hcv, Hpr, Hcvp, Hprp. reflexivity.
Qed.

(** The end of a run whose three generation steps have succeeded: the
    results are saved and the job is Completed, or the save fails and
    the run returns its error with the job left Processing. *)
Lemma afterSave_cases (db1 : gmap UUID Evaluation) (tEnd : Time) (evalID : UUID)
  (job1 : Evaluation) (data : EvaluationUpdateData) :
  db1 !! evalID = Some job1 ->
  (exists job',
      afterSave (UpdateResult db1 tEnd evalID data) = (<[evalID := job']> db1, None)
      /\ fits (dCVMatchRate data) = true /\ fits (dProjectScore data) = true
      /\ Status job' = StatusCompleted /\ UpdatedAt job' = tEnd
      /\ CVMatchRate job' = writtenScore (dCVMatchRate data) (CVMatchRate job1)
      /\ CVFeedback job' = written (dCVFeedback data) (CVFeedback job1)
      /\ ProjectScore job' = writtenScore (dProjectScore data) (ProjectScore job1)
      /\ ProjectFeedback job' = written (dProjectFeedback data) (ProjectFeedback job1)
      /\ OverallSummary job' = written (dOverallSummary data) (OverallSummary job1)
      /\ ErrorMessage job' = ErrorMessage job1
      /\ identityOf job' = identityOf job1)
  \/ (exists err,
        UpdateResult db1 tEnd evalID data = (db1, Some err)
        /\ afterSave (UpdateResult db1 tEnd evalID data)
           = (db1, Some ("failed to save results: " ++ err))).
Proof.
  intros Hj1.
  destruct (UpdateResult db1 tEnd evalID data) as [db2 [err|]] eqn:Hsave.
  - right. exists err.
    assert (Hdb : db2 = db1).
    { unfold UpdateResult in Hsave.
      match type of Hsave with
      | reportUpdate ?what (Updates db1 evalID ?updates) = _ =>
          destruct (reportUpdate_cases what db1 evalID updates)
            as [[row [stored [_ [_ [_ Heq]]]]] | [err' Heq]]
      end; rewrite Heq in Hsave; [discriminate|]. congruence. }
    subst db2. split; reflexivity.
  - left. destruct (UpdateResult_written db1 tEnd evalID data)
      as [row [row' [Hrow [Hfst Hfields]]]]; [rewrite Hsave; reflexivity|].
    rewrite Hsave in Hfst. cbn [fst] in Hfst. subst db2.
    rewrite Hj1 in Hrow. injection Hrow as <-.
    exists row'. split; [reflexivity|]. exact Hfields.
Qed.

(** C4: when the generation call of the CV stage, or of the project
    stage, succeeds with an empty string, the stage returns the fixed
    all-zero result with its explanatory feedback and no error, and the
    run goes on.  When the steps that follow succeed, the run hands the
    zero score and that feedback to the store: the job ends Completed
    holding them when the save returns nil, and when the save fails the
    run returns its error.  When the job ends Failed, the error recorded
    is that of a later step. *)
Theorem empty_generation_falls_back (tStart tEnd : Time) (evalID : UUID)
  (db : gmap UUID Evaluation) (job : Evaluation) (cvDoc projectDoc : Document)
  (cvContent projectContent : PDFContent) :
  db !! evalID = Some job ->
  starts evalID tStart ->
  docFindByID (docRepo e) (CVDocumentID job) = Ok cvDoc ->
  docFindByID (docRepo e) (ProjectDocumentID job) = Ok projectDoc ->
  ExtractTextWithMetaData (pdfParser e) (FilePath cvDoc) = Ok cvContent ->
  ExtractTextWithMetaData (pdfParser e) (FilePath projectDoc) = Ok projectContent ->
  let db1 := <[evalID := assignAll (startStatement tStart) job]> db in
  (cvResponse e ctx (pdfText cvContent) (cvStageContext e ctx cvContent) (JobTitle job)
   = Ok EmptyString ->
   evaluateCV e ctx (pdfText cvContent) (cvStageContext e ctx cvContent) (JobTitle job)
   = Ok emptyResponseCV
   /\ MatchRate emptyResponseCV = 0%float
   /\ isEmpty (cvFeedback emptyResponseCV) = false
   /\ exists job',
        fst (EvaluateCandidate e ctx tStart tEnd evalID db) !! evalID = Some job'
        /\ (forall projectResult summary,
              evaluateProject e ctx (pdfText projectContent)
                (projectStageContext e ctx projectContent) = Ok projectResult ->
              generateSummary e ctx emptyResponseCV projectResult (JobTitle job)
              = Ok summary ->
              EvaluateCandidate e ctx tStart tEnd evalID db
              = afterSave
                  (UpdateResult db1 tEnd evalID
                     (resultData emptyResponseCV projectResult summary))
              /\ (snd (EvaluateCandidate e ctx tStart tEnd evalID db) = None ->
                  Status job' = StatusCompleted
                  /\ CVMatchRate job' = decimal_3_2 0%float
                  /\ CVFeedback job' = Some (cvFeedback emptyResponseCV)
                  /\ OverallSummary job' = Some summary)
              /\ (forall err,
                    UpdateResult db1 tEnd evalID
                      (resultData emptyResponseCV projectResult summary)
                    = (db1, Some err) ->
                    snd (EvaluateCandidate e ctx tStart tEnd evalID db)
                    = Some ("failed to save results: " ++ err)
                    /\ Status job' = StatusProcessing))
        /\ (Status job' = StatusFailed ->
            exists err,
              ErrorMessage job' = Some ("Failed to evaluate project: " ++ err)
              \/ ErrorMessage job' = Some ("Failed to generate summary: " ++ err)))
  /\ (projectResponse e ctx (pdfText projectContent)
        (projectStageContext e ctx projectContent) = Ok EmptyString ->
      evaluateProject e ctx (pdfText projectContent)
        (projectStageContext e ctx projectContent) = Ok emptyResponseProject
      /\ prProjectScore emptyResponseProject = 0%float
      /\ isEmpty (prFeedback emptyResponseProject) = false
      /\ forall cvResult,
           evaluateCV e ctx (pdfText cvContent) (cvStageContext e ctx cvContent)
             (JobTitle job) = Ok cvResult ->
           exists job',
             fst (EvaluateCandidate e ctx tStart tEnd evalID db) !! evalID = Some job'
             /\ (forall summary,
                   generateSummary e ctx cvResult emptyResponseProject (JobTitle job)
                   = Ok summary ->
                   EvaluateCandidate e ctx tStart tEnd evalID db
                   = afterSave
                       (UpdateResult db1 tEnd evalID
                          (resultData cvResult emptyResponseProject summary))
                   /\ (snd (EvaluateCandidate e ctx tStart tEnd evalID db) = None ->
                       Status job' = StatusCompleted
                       /\ ProjectScore job' = decimal_3_2 0%float
                       /\ ProjectFeedback job' = Some (prFeedback emptyResponseProject)
                       /\ OverallSummary job' = Some summary)
                   /\ (forall err,
                         UpdateResult db1 tEnd evalID
                           (resultData cvResult emptyResponseProject summary)
                         = (db1, Some err) ->
                         snd (EvaluateCandidate e ctx tStart tEnd evalID db)
                         = Some ("failed to save results: " ++ err)
                         /\ Status job' = StatusProcessing))
             /\ (Status job' = StatusFailed ->
                 exists err,
                   ErrorMessage job' = Some ("Failed to generate summary: " ++ err))).
Proof.
  intros Hjob Hstart Hcv Hpr Hcvp Hprp db1.
  pose proof (EvaluateCandidate_stages tStart tEnd evalID db job cvDoc projectDoc
                cvContent projectContent Hjob Hstart Hcv Hpr Hcvp Hprp) as Hrun.
  cbv zeta in Hrun. fold db1 in Hrun.
  set (job1 := assignAll (startStatement tStart) job) in *.
  assert (Hj1 : db1 !! evalID = Some job1) by apply lookup_insert_eq.
  assert (Hsaved : forall data summary,
    dOverallSummary data = Some summary ->
    exists job',
      fst (afterSave (UpdateResult db1 tEnd evalID data)) !! evalID = Some job'
      /\ (snd (afterSave (UpdateResult db1 tEnd evalID data)) = None ->
          Status job' = StatusCompleted
          /\ CVMatchRate job' = writtenScore (dCVMatchRate data) (CVMatchRate job1)
          /\ CVFeedback job' = written (dCVFeedback data) (CVFeedback job1)
          /\ ProjectScore job' = writtenScore (dProjectScore data) (ProjectScore job1)
          /\ ProjectFeedback job'
             = written (dProjectFeedback data) (ProjectFeedback job1)
          /\ OverallSummary job' = Some summary)
      /\ (forall err,
            UpdateResult db1 tEnd evalID data = (db1, Some err) ->
            snd (afterSave (UpdateResult db1 tEnd evalID data))
            = Some ("failed to save results: " ++ err)
            /\ Status job' = StatusProcessing)
      /\ (Status job' = StatusFailed -> False)).
  { intros data summary Hsum.
    destruct (afterSave_cases db1 tEnd evalID job1 data Hj1)
      as [[job' [Heq [_ [_ [Hst [_ [Hmr [Hcf [Hps [Hpf [Hos _]]]]]]]]]]] | [err [Hsave Heq]]];
      rewrite Heq; cbn [fst snd].
    - rewrite lookup_insert_eq. exists job'. split; [reflexivity|].
      split; [intros _; rewrite Hos, Hsum; repeat split; assumption|].
      split; [intros err Herr; rewrite Herr in Heq; discriminate|].
      rewrite Hst. discriminate.
    - rewrite Hj1. exists job1. split; [reflexivity|].
      split; [discriminate|].
      split; [intros err' Herr'; rewrite Hsave in Herr'; injection Herr' as <-;
              split; reflexivity|].
      discriminate. }
  assert (Hfailed : forall recorded returned,
    exists job',
      fst (failWith db1 tEnd evalID recorded returned) !! evalID = Some job'
      /\ isSome (snd (failWith db1 tEnd evalID recorded returned)) = true
      /\ (Status job' = StatusFailed -> ErrorMessage job' = Some recorded)).
  { intros recorded returned.
    destruct (failWith_cases db1 tEnd evalID job1 recorded returned Hj1)
      as [[_ ->] | [err [_ ->]]]; cbn [fst snd].
    - rewrite lookup_insert_eq. eexists. repeat split.
    - rewrite Hj1. exists job1. split; [reflexivity|]. split; [reflexivity|].
      discriminate. }
  split.
  - intros Hresp.
    assert (Hc : evaluateCV e ctx (pdfText cvContent) (cvStageContext e ctx cvContent)
                   (JobTitle job) = Ok emptyResponseCV).
    { unfold evaluateCV. rewrite Hresp. reflexivity. }
    split; [exact Hc|]. split; [reflexivity|]. split; [reflexivity|].
    rewrite Hrun, Hc.
    destruct (evaluateProject _ _ _ _) as [projectResult|err] eqn:Hproject.
    + destruct (generateSummary _ _ _ _ _) as [summary|err] eqn:Hsummary.
      * destruct (Hsaved (resultData emptyResponseCV projectResult summary) summary
                    eq_refl) as [job' [Hjob' [Hnil [Herr Hnot]]]].
        exists job'. split; [exact Hjob'|]. split; [|intros Hf; destruct (Hnot Hf)].
        intros pr s Hp' Hs'. injection Hp' as <-.
        rewrite Hsummary in Hs'. injection Hs' as <-.
        split; [reflexivity|]. split; [|exact Herr].
        intros Hn. destruct (Hnil Hn) as [Hst [Hmr [Hcf [_ [_ Hos]]]]].
        repeat split; assumption.
      * destruct (Hfailed ("Failed to generate summary: " ++ err)
                    ("failed to generate summary: " ++ err)) as [job' [Hjob' [_ Hmsg]]].
        exists job'. split; [exact Hjob'|].
        split; [intros pr s Hp' Hs'; injection Hp' as <-;
                rewrite Hsummary in Hs'; discriminate|].
        intros Hf. exists err. right. apply Hmsg. exact Hf.
    + destruct (Hfailed ("Failed to evaluate project: " ++ err)
                  ("failed to evaluate project: " ++ err)) as [job' [Hjob' [_ Hmsg]]].
      exists job'. split; [exact Hjob'|]. split; [intros pr s Hp'; discriminate|].
      intros Hf. exists err. left. apply Hmsg. exact Hf.
  - intros Hresp.
    assert (Hp : evaluateProject e ctx (pdfText projectContent)
                   (projectStageContext e ctx projectContent) = Ok emptyResponseProject).
    { unfold evaluateProject. rewrite Hresp. reflexivity. }
    split; [exact Hp|]. split; [reflexivity|]. split; [reflexivity|].
    intros cvResult Hc. rewrite Hrun, Hc, Hp.
    destruct (generateSummary _ _ _ _ _) as [summary|err] eqn:Hsummary.
    + destruct (Hsaved (resultData cvResult emptyResponseProject summary) summary
                  eq_refl) as [job' [Hjob' [Hnil [Herr Hnot]]]].
      exists job'. split; [exact Hjob'|]. split; [|intros Hf; destruct (Hnot Hf)].
      intros s Hs'. injection Hs' as <-.
      split; [reflexivity|]. split; [|exact Herr].
      intros Hn. destruct (Hnil Hn) as [Hst [_ [_ [Hps [Hpf Hos]]]]].
      repeat split; assumption.
    + destruct (Hfailed ("Failed to generate summary: " ++ err)
                  ("failed to generate summary: " ++ err)) as [job' [Hjob' [_ Hmsg]]].
      exists job'. split; [exact Hjob'|]. split; [intros s Hs'; discriminate|].
      intros Hf. exists err. apply Hmsg. exact Hf.
Qed.

End EvaluatorProofs.

(** ** The context assembler *)

Section ContextProofs.
Import Evaluator Prompt Run.
Context `{GoFmt}.
Variable e : evaluatorService.
Variable ctx : Gemini.Context.

Lemma isEmpty_append_l (a b : string) : isEmpty a = false -> isEmpty (a ++ b) = false.
Proof. destruct a; [discriminate | reflexivity]. Qed.

Lemma Join_nonempty (parts : list string) (sep : string) :
  parts <> [] ->
  Forall (fun p => isEmpty p = false) parts ->
  isEmpty (Join parts sep) = false.
Proof.
  intros Hne Hall. destruct parts as [|p rest]; [congruence|].
  inversion Hall as [|? ? Hp _]; subst.
  destruct rest; cbn [Join]; [exact Hp | now apply isEmpty_append_l].
Qed.

Lemma FormatRAGContext_nonempty (results : list SearchResult) :
  isEmpty (FormatRAGContext results) = false.
Proof.
  unfold FormatRAGContext. destruct results as [|result rest]; [reflexivity|].
  destruct (Z.eqb_spec (Z.of_nat (List.length (result :: rest))) 0) as [Hz|_].
  - cbn [List.length] in Hz. lia.
  - cbn [formatParts]. destruct (formatParts (0 + 1) rest); reflexivity.
Qed.

Lemma searches_find_nothing (embedding : list float) (docTypes : list string)
  (acc : list SearchResult) :
  (forall docType, List.In docType docTypes ->
     findsNothing (SearchSimilar (qdrantService e) ctx embedding docType 3) = true) ->
  fold_left
    (fun allResults docType =>
       match SearchSimilar (qdrantService e) ctx embedding docType 3 with
       | Err _ => allResults
       | Ok results => (allResults ++ results)%list
       end) docTypes acc = acc.
Proof.
  revert acc. induction docTypes as [|d ds IH]; intros acc Hn; [reflexivity|].
  cbn [fold_left]. pose proof (Hn d (or_introl eq_refl)) as Hd.
  destruct (SearchSimilar (qdrantService e) ctx embedding d 3) as [[|r rs]|err];
    try discriminate; rewrite ?app_nil_r; apply IH; intros; apply Hn; now right.
Qed.

(** C2, as the code has it: when the query is embedded, the context of a
    stage is never empty, and it is the sentinel when no category brings
    a result; when embedding the query fails, [retrieveContext] returns
    an error and the stage goes on with the empty string. *)
Theorem stage_context_empty_only_when_embedding_fails (queryText : string)
  (docTypes : list string) :
  (forall embedding,
      GenerateEmbedding (geminiService e) ctx queryText = Ok embedding ->
      retrieveContext e ctx queryText docTypes
      = Ok (stageContext e ctx queryText docTypes)
      /\ isEmpty (stageContext e ctx queryText docTypes) = false
      /\ ((forall docType, List.In docType docTypes ->
             findsNothing (SearchSimilar (qdrantService e) ctx embedding docType 3)
             = true) ->
          stageContext e ctx queryText docTypes = "No relevant context found."))
  /\ (forall err,
      GenerateEmbedding (geminiService e) ctx queryText = Err err ->
      retrieveContext e ctx queryText docTypes
      = Err ("failed to generate query embedding: " ++ err)
      /\ stageContext e ctx queryText docTypes = EmptyString).
Proof.
  split.
  - intros embedding Hemb. unfold stageContext, retrieveContext. rewrite Hemb.
    split; [reflexivity|]. split; [apply FormatRAGContext_nonempty|].
    intros Hn. rewrite (searches_find_nothing _ _ _ Hn). reflexivity.
  - intros err Hemb. unfold stageContext, retrieveContext. rewrite Hemb.
    split; reflexivity.
Qed.

End ContextProofs.

(** ** The generation client *)

Section GeminiProofs.
Import Gemini Run.
Variable g : geminiService.

Lemma textParts_nonempty (candidates : list Candidate) (acc : list string) :
  Forall (fun p => isEmpty p = false) acc ->
  Forall (fun p => isEmpty p = false)
    (fold_left
       (fun parts candidate =>
          match candContent candidate with
          | Some c => (parts ++ [fmtContent c])%list
          | None => parts
          end) candidates acc).
Proof.
  revert acc. induction candidates as [|c cs IH]; intros acc Hacc; [exact Hacc|].
  cbn [fold_left]. apply IH. destruct (candContent c); [|exact Hacc].
  apply Forall_app. split; [exact Hacc | repeat constructor].
Qed.

Lemma GenerateText_textOrError (k : nat) (prompt : string) (temperature : float) :
  textOrError (GenerateText g k prompt temperature).
Proof.
  unfold GenerateText.
  destruct (generateContent g k prompt temperature) as [[resp|]|err];
    [|right; eexists; reflexivity|right; eexists; reflexivity].
  destruct (isEmpty (respText resp)) eqn:Htext;
    [|left; eexists; split; [reflexivity | exact Htext]].
  match goal with |- context [fold_left ?f ?l ?a] =>
    pose proof (textParts_nonempty l a (List.Forall_nil _)) as Hparts;
    set (textParts := fold_left f l a) in * end.
  destruct ((0 <? Z.of_nat (List.length (Candidates resp)))
            && (0 <? Z.of_nat (List.length textParts))) eqn:Hc;
    [|right; eexists; reflexivity].
  left. eexists. split; [reflexivity|].
  apply andb_prop in Hc. destruct Hc as [_ Hc]. apply Z.ltb_lt in Hc.
  apply Join_nonempty; [|exact Hparts].
  intros Hnil. rewrite Hnil in Hc. cbn in Hc. lia.
Qed.

Lemma retryLoop_textOrError (ctx : Context) (k0 : nat) (prompt : string)
  (temperature : float) (maxRetries : Z) (remaining calls : nat)
  (lastErr : option string) :
  textOrError
    (fst (retryLoop g ctx k0 prompt temperature maxRetries remaining calls lastErr)).
Proof.
  revert calls lastErr. induction remaining as [|remaining IH]; intros calls lastErr;
    cbn [retryLoop].
  - right. eexists. reflexivity.
  - pose proof (GenerateText_textOrError (k0 + calls) prompt temperature) as Hg.
    destruct (GenerateText g (k0 + calls) prompt temperature) as [text|err].
    + exact Hg.
    + destruct (Done ctx (S calls)); [right; eexists; reflexivity | apply IH].
Qed.

End GeminiProofs.

(** C10: [GenerateText] returns a non-empty text or an error, never an
    empty text without an error; so does [GenerateTextWithRetry], and the
    generation calls of [evaluateCV] and [evaluateProject] never hand an
    empty response to the fallback when the service is this client. *)
Theorem GenerateText_never_succeeds_empty (g : Gemini.geminiService) :
  (forall k prompt temperature,
      Run.textOrError (Gemini.GenerateText g k prompt temperature))
  /\ (forall ctx k0 prompt temperature maxRetries,
      Run.textOrError
        (fst (Gemini.GenerateTextWithRetry g ctx k0 prompt temperature maxRetries)))
  /\ (forall (fmt : GoFmt) docs index parser retries ctx cvText projectText
        context jobTitle,
      let e :=
        {| Evaluator.docRepo := docs;
           Evaluator.geminiService := Evaluator.geminiBacked g;
           Evaluator.qdrantService := index;
           Evaluator.pdfParser := parser;
           Evaluator.maxRetries := retries |} in
      Run.textOrError (Evaluator.cvResponse e ctx cvText context jobTitle)
      /\ Run.textOrError (Evaluator.projectResponse e ctx projectText context)).
Proof.
  split; [|split].
  - apply GenerateText_textOrError.
  - intros. apply retryLoop_textOrError.
  - intros. split; apply retryLoop_textOrError.
Qed.

Section RetryProofs.
Import Gemini Run.
Variable g : geminiService.
Variable ctx : Context.
Variable k0 : nat.
Variable prompt : string.
Variable temperature : float.
Variable maxRetries : Z.

Local Abbreviation attempt i := (GenerateText g (k0 + i) prompt temperature).
Local Abbreviation loop := (retryLoop g ctx k0 prompt temperature maxRetries).

(** [k] failed attempts, none followed by a cancelled context, take the
    loop [k] iterations further. *)
Lemma retryLoop_failures (k remaining calls : nat) (lastErr : option string) :
  (forall i, (i < k)%nat ->
     isOk (attempt (calls + i)) = false /\ Done ctx (S (calls + i)) = None) ->
  loop (k + remaining)%nat calls lastErr
  = loop remaining (calls + k)%nat
      (match k with
       | O => lastErr
       | S k' => Some (errOf (attempt (calls + k')))
       end).
Proof.
  revert calls lastErr. induction k as [|k IH]; intros calls lastErr Hfail.
  - cbn [Nat.add]. rewrite Nat.add_0_r. reflexivity.
  - cbn [Nat.add retryLoop].
    destruct (Hfail O ltac:(lia)) as [Hok Hdone]. rewrite Nat.add_0_r in Hok, Hdone.
    destruct (attempt calls) as [text|err] eqn:Hatt; [discriminate|].
    rewrite Hdone, IH.
    + replace (S calls + k)%nat with (calls + S k)%nat by lia.
      destruct k as [|k']; [|replace (S calls + k')%nat with (calls + S k')%nat by lia;
                             reflexivity].
      rewrite Nat.add_0_r, Hatt. reflexivity.
    + intros i Hi. specialize (Hfail (S i) ltac:(lia)).
      replace (S calls + i)%nat with (calls + S i)%nat by lia. exact Hfail.
Qed.

(** C3, as the code has it.  For a budget of [maxRetries >= 1] attempts:
    as long as the context is not found cancelled after a failed attempt,
    the first successful attempt is returned at once, and when all
    [maxRetries] attempts fail the error wraps the last one, after
    exactly [maxRetries] attempts; a context found cancelled after a
    failed attempt ends the call there with the context's error. *)
Theorem GenerateTextWithRetry_outcomes :
  1 <= maxRetries ->
  (forall k result,
      Z.of_nat k < maxRetries ->
      (forall i, (i < k)%nat ->
         isOk (attempt i) = false /\ Done ctx (S i) = None) ->
      attempt k = Ok result ->
      GenerateTextWithRetry g ctx k0 prompt temperature maxRetries
      = (Ok result, S k))
  /\ ((forall i, Z.of_nat i < maxRetries ->
         isOk (attempt i) = false /\ Done ctx (S i) = None) ->
      GenerateTextWithRetry g ctx k0 prompt temperature maxRetries
      = (Err ("failed after " ++ Itoa maxRetries ++ " attempts: "
              ++ errOf (attempt (Z.to_nat maxRetries - 1)%nat)),
         Z.to_nat maxRetries))
  /\ (forall k ctxErr,
      Z.of_nat k < maxRetries ->
      (forall i, (i < k)%nat ->
         isOk (attempt i) = false /\ Done ctx (S i) = None) ->
      isOk (attempt k) = false ->
      Done ctx (S k) = Some ctxErr ->
      GenerateTextWithRetry g ctx k0 prompt temperature maxRetries
      = (Err ("context cancelled: " ++ ctxErr), S k)).
Proof.
  intros Hn. unfold GenerateTextWithRetry. split; [|split].
  - intros k result Hk Hfail Hok.
    replace (Z.to_nat maxRetries) with (k + S (Z.to_nat maxRetries - S k))%nat by lia.
    rewrite retryLoop_failures by (intros i Hi; apply Hfail; exact Hi).
    cbn [retryLoop Nat.add]. rewrite Hok. reflexivity.
  - intros Hfail.
    replace (Z.to_nat maxRetries) with (Z.to_nat maxRetries + 0)%nat at 1 by lia.
    rewrite retryLoop_failures by (intros i Hi; apply Hfail; lia).
    cbn [retryLoop Nat.add fmtLastErr].
    destruct (Z.to_nat maxRetries) as [|n] eqn:Hm; [lia|].
    cbn [fmtLastErr]. replace (S n - 1)%nat with n by lia. reflexivity.
  - intros k ctxErr Hk Hfail Hk' Hdone.
    replace (Z.to_nat maxRetries) with (k + S (Z.to_nat maxRetries - S k))%nat by lia.
    rewrite retryLoop_failures by (intros i Hi; apply Hfail; exact Hi).
    cbn [retryLoop Nat.add].
    destruct (attempt k) as [text|err]; [discriminate|].
    rewrite Hdone. reflexivity.
Qed.

End RetryProofs.

(** ** The structured-response extractor *)

Section ExtractorProofs.
Import Markdown Evaluator.
Local Arguments append : simpl nomatch.

Lemma append_assoc (a b c : string) : (a ++ b) ++ c = a ++ (b ++ c).
Proof. induction a as [|x a IH]; cbn [append]; [reflexivity | f_equal; exact IH]. Qed.

Lemma append_nil_r (a : string) : a ++ EmptyString = a.
Proof. induction a as [|x a IH]; cbn [append]; [reflexivity | f_equal; exact IH]. Qed.

Lemma length_append (a b : string) :
  String.length (a ++ b) = (String.length a + String.length b)%nat.
Proof.
  induction a as [|x a IH]; cbn [append String.length Nat.add];
    [reflexivity | f_equal; exact IH].
Qed.

Lemma freeOf_append (c : ascii) (a b : string) :
  freeOf c (a ++ b) = freeOf c a && freeOf c b.
Proof.
  induction a as [|x a IH]; cbn [append freeOf andb]; [reflexivity|].
  rewrite IH, andb_assoc. reflexivity.
Qed.

Lemma drop_append (a b : string) : drop (String.length a) (a ++ b) = b.
Proof. induction a as [|x a IH]; cbn [append String.length drop]; [reflexivity | exact IH]. Qed.

Lemma take_append (a b : string) : take (String.length a) (a ++ b) = a.
Proof.
  induction a as [|x a IH]; cbn [append String.length take];
    [destruct b; reflexivity | f_equal; exact IH].
Qed.

Lemma slice_middle (a p b : string) :
  slice (a ++ p ++ b) (len a) (len a + len p) = p.
Proof.
  unfold slice, len.
  replace (Z.to_nat (Z.of_nat (String.length a) + Z.of_nat (String.length p)
                     - Z.of_nat (String.length a))) with (String.length p) by lia.
  rewrite Nat2Z.id, drop_append, take_append. reflexivity.
Qed.

(** *** Removing the occurrences of a pattern *)

Variable old : string.
Variable c : ascii.
Hypothesis old_nonempty : isEmpty old = false.
Hypothesis c_not_in_old : freeOf c old = true.

Lemma HasPrefix_across (p u t : string) :
  freeOf c p = true ->
  HasPrefix (u ++ String c t) p = HasPrefix (u ++ String c EmptyString) p
  /\ (HasPrefix (u ++ String c EmptyString) p = true ->
      (String.length p <= String.length u)%nat).
Proof.
  revert p. induction u as [|b u IH]; intros p Hp.
  - destruct p as [|a p]; cbn; [split; [reflexivity | lia]|].
    cbn in Hp. apply andb_prop in Hp. destruct Hp as [Ha _].
    apply negb_true_iff in Ha. rewrite Ha. cbn. split; [reflexivity | discriminate].
  - destruct p as [|a p]; cbn; [split; [reflexivity | lia]|].
    cbn in Hp. apply andb_prop in Hp. destruct Hp as [_ Hp].
    destruct (IH p Hp) as [Heq Hlen]. rewrite Heq. split; [reflexivity|].
    intros Htrue. apply andb_prop in Htrue. destruct Htrue as [_ Htrue].
    specialize (Hlen Htrue). lia.
Qed.

Lemma HasPrefix_first (t : string) : HasPrefix (String c t) old = false.
Proof.
  destruct old as [|a p]; [discriminate|].
  cbn in c_not_in_old |- *. apply andb_prop in c_not_in_old.
  destruct c_not_in_old as [Ha _]. apply negb_true_iff in Ha. rewrite Ha. reflexivity.
Qed.

(** An occurrence of the pattern does not reach across a byte that is
    not in the pattern: the text is rewritten on either side of it. *)
Lemma replaceAux_across (s t : string) (k : nat) :
  (k <= String.length s)%nat ->
  replaceAux old EmptyString k (s ++ String c t)
  = replaceAux old EmptyString k (s ++ String c EmptyString)
    ++ replaceAux old EmptyString O t.
Proof.
  revert k. induction s as [|b s IH]; intros k Hk.
  - cbn in Hk. replace k with O by lia. cbn [append replaceAux].
    rewrite !HasPrefix_first. reflexivity.
  - cbn [append replaceAux]. destruct k as [|k].
    + destruct (HasPrefix_across old (String b s) t c_not_in_old) as [Heq Hlen].
      cbn [append] in Heq, Hlen. rewrite Heq.
      destruct (HasPrefix (String b (s ++ String c EmptyString)) old) eqn:Hp.
      * specialize (Hlen eq_refl). cbn [String.length] in Hlen.
        cbn [append]. apply IH. lia.
      * cbn [append]. f_equal. apply IH. lia.
    + apply IH. cbn [String.length] in Hk. lia.
Qed.

(** The byte itself is kept. *)
Lemma replaceAux_keeps_last (s : string) (k : nat) :
  (k <= String.length s)%nat ->
  exists x, replaceAux old EmptyString k (s ++ String c EmptyString)
            = x ++ String c EmptyString.
Proof.
  revert k. induction s as [|b s IH]; intros k Hk.
  - cbn in Hk. replace k with O by lia. cbn [append replaceAux].
    rewrite HasPrefix_first. exists EmptyString. reflexivity.
  - cbn [append replaceAux]. destruct k as [|k].
    + destruct (HasPrefix_across old (String b s) EmptyString c_not_in_old) as [_ Hlen].
      cbn [append] in Hlen.
      destruct (HasPrefix (String b (s ++ String c EmptyString)) old) eqn:Hp.
      * specialize (Hlen eq_refl). cbn [String.length] in Hlen.
        cbn [append]. apply IH. lia.
      * destruct (IH O ltac:(lia)) as [x Hx]. rewrite Hx.
        exists (String b x). reflexivity.
    + apply IH. cbn [String.length] in Hk. lia.
Qed.

(** Nothing is added: a byte that is not in the text is not in what is
    left of it. *)
Lemma replaceAux_freeOf (d : ascii) (s : string) (k : nat) :
  freeOf d s = true -> freeOf d (replaceAux old EmptyString k s) = true.
Proof.
  revert k. induction s as [|b s IH]; intros k Hs; [reflexivity|].
  cbn in Hs. apply andb_prop in Hs. destruct Hs as [Hb Hs].
  cbn [replaceAux]. destruct k as [|k]; [|now apply IH].
  destruct (HasPrefix (String b s) old); cbn; [now apply IH|].
  rewrite Hb. now apply IH.
Qed.

End ExtractorProofs.

Section ExtractorTheorem.
Import Markdown Evaluator.
Local Arguments append : simpl nomatch.

Lemma ReplaceAll_across (old : string) (c : ascii) (s t : string) :
  isEmpty old = false -> freeOf c old = true ->
  ReplaceAll (s ++ String c t) old EmptyString
  = ReplaceAll (s ++ String c EmptyString) old EmptyString
    ++ ReplaceAll t old EmptyString.
Proof. intros Ho Hc. apply replaceAux_across; [exact Ho | exact Hc | lia]. Qed.

(** What is left of an object is an object. *)
Lemma ReplaceAll_object (old body : string) :
  isEmpty old = false -> freeOf "{" old = true -> freeOf "}" old = true ->
  exists body', ReplaceAll (object body) old EmptyString = object body'.
Proof.
  intros Ho Hl Hr. unfold ReplaceAll, object. cbn [append replaceAux].
  rewrite (HasPrefix_first old "{" Ho Hl).
  destruct (replaceAux_keeps_last old "}" Ho Hr body O ltac:(lia)) as [x Hx].
  rewrite Hx. exists x. reflexivity.
Qed.

(** One pass over a text made of a line, an object and a rest. *)
Lemma ReplaceAll_line_object (old a body b : string) :
  isEmpty old = false -> freeOf nlByte old = true ->
  freeOf "{" old = true -> freeOf "}" old = true ->
  exists a' body',
    ReplaceAll ((a ++ nl) ++ object body ++ b) old EmptyString
    = (a' ++ nl) ++ object body' ++ ReplaceAll b old EmptyString
    /\ ReplaceAll (a ++ nl) old EmptyString = a' ++ nl
    /\ ReplaceAll (object body) old EmptyString = object body'.
Proof.
  intros Ho Hn Hl Hr.
  destruct (replaceAux_keeps_last old nlByte Ho Hn a O ltac:(lia)) as [a' Ha].
  destruct (ReplaceAll_object old body Ho Hl Hr) as [body' Hb].
  exists a', body'. split; [|split; [exact Ha | exact Hb]].
  assert (Htext : (a ++ nl) ++ object body ++ b
                  = a ++ String nlByte (String "{" body ++ String "}" b)).
  { unfold nl, object. rewrite !append_assoc. reflexivity. }
  rewrite Htext, (ReplaceAll_across old nlByte a _ Ho Hn).
  rewrite (ReplaceAll_across old "}" (String "{" body) b Ho Hr).
  change (String "{" body ++ String "}" EmptyString) with (object body).
  rewrite Hb. unfold ReplaceAll at 1. rewrite Ha. reflexivity.
Qed.

Lemma ReplaceAll_freeOf (d : ascii) (s old : string) :
  freeOf d s = true -> freeOf d (ReplaceAll s old EmptyString) = true.
Proof. apply replaceAux_freeOf. Qed.

Lemma indexAux_first (sub : ascii) (a r : string) (i : Z) :
  freeOf sub a = true ->
  indexAux (String sub EmptyString) i (a ++ String sub r) = i + len a.
Proof.
  revert i. induction a as [|b a IH]; intros i Ha.
  - cbn [append indexAux HasPrefix]. rewrite Ascii.eqb_refl. cbn [andb].
    unfold len. cbn [String.length]. lia.
  - cbn in Ha. apply andb_prop in Ha. destruct Ha as [Hb Ha].
    apply negb_true_iff in Hb. rewrite Ascii.eqb_sym in Hb.
    cbn [append indexAux HasPrefix]. rewrite Hb. cbn [andb].
    rewrite IH by exact Ha. unfold len. cbn [String.length]. lia.
Qed.

Lemma lastIndexAux_none (sub : ascii) (b : string) (i found : Z) :
  freeOf sub b = true ->
  lastIndexAux (String sub EmptyString) i found b = found.
Proof.
  revert i found. induction b as [|x b IH]; intros i found Hb; [reflexivity|].
  cbn in Hb. apply andb_prop in Hb. destruct Hb as [Hx Hb].
  apply negb_true_iff in Hx. rewrite Ascii.eqb_sym in Hx.
  cbn [lastIndexAux HasPrefix]. rewrite Hx. cbn [andb]. apply IH. exact Hb.
Qed.

Lemma lastIndexAux_last (sub : ascii) (a b : string) (i found : Z) :
  freeOf sub b = true ->
  lastIndexAux (String sub EmptyString) i found (a ++ String sub b) = i + len a.
Proof.
  revert i found. induction a as [|x a IH]; intros i found Hb.
  - cbn [append lastIndexAux HasPrefix]. rewrite Ascii.eqb_refl. cbn [andb].
    rewrite lastIndexAux_none by exact Hb. unfold len. cbn [String.length]. lia.
  - cbn [append lastIndexAux]. rewrite IH by exact Hb.
    unfold len. cbn [String.length]. lia.
Qed.

(** The object between a text without opening brace and a text without
    closing brace is what the boundaries select. *)
Lemma slice_object (a body b : string) :
  freeOf "{" a = true -> freeOf "}" b = true ->
  let text := a ++ object body ++ b in
  let startObj := Index text "{" in
  let endObj := LastIndex text "}" in
  (negb (startObj =? -1) && negb (endObj =? -1) && (endObj >? startObj)) = true
  /\ slice text startObj (endObj + 1) = object body.
Proof.
  intros Ha Hb text startObj endObj.
  assert (Hs : startObj = len a).
  { unfold startObj, Index, text, object. cbn [append].
    rewrite indexAux_first by exact Ha. lia. }
  assert (He : endObj = len a + len body + 1).
  { unfold endObj, LastIndex, text.
    replace (a ++ object body ++ b) with ((a ++ String "{" body) ++ String "}" b)
      by (unfold object; rewrite !append_assoc; reflexivity).
    rewrite lastIndexAux_last by exact Hb.
    rewrite len_append. unfold len. cbn [String.length]. lia. }
  pose proof (len_nonneg a). pose proof (len_nonneg body).
  split.
  - rewrite Hs, He.
    replace (len a =? -1) with false by (symmetry; apply Z.eqb_neq; lia).
    replace (len a + len body + 1 =? -1) with false
      by (symmetry; apply Z.eqb_neq; lia).
    cbn [negb andb]. rewrite Z.gtb_ltb. apply Z.ltb_lt. lia.
  - rewrite Hs, He.
    replace (len a + len body + 1 + 1) with (len a + len (object body))
      by (unfold object; rewrite !len_append; unfold len; cbn [String.length]; lia).
    apply slice_middle.
Qed.

Lemma extractJSON_between (s a body b : string) :
  ReplaceAll (ReplaceAll s openingFence EmptyString) fence EmptyString
  = a ++ object body ++ b ->
  freeOf "{" a = true -> freeOf "}" b = true ->
  extractJSON s = object body.
Proof.
  intros Hs Ha Hb. unfold extractJSON.
  change "```json" with openingFence. change "```" with fence. rewrite Hs.
  destruct (slice_object a body b Ha Hb) as [Hc Hsl].
  cbv zeta in Hc, Hsl. rewrite Hc. exact Hsl.
Qed.

(** C8, as the code has it: for a JSON object wrapped in code fences,
    with prose before it that has no opening brace and prose after it
    that has no closing brace, the extractor selects the same text as for
    the bare object, and the response decodes to what the bare object
    decodes to. *)
Theorem extractJSON_wrap_in_markdown (before body after : string) :
  freeOf "{" before = true ->
  freeOf "}" after = true ->
  extractJSON (wrap_in_markdown before (object body) after)
  = extractJSON (object body)
  /\ forall (T : Type) (target : JSONTarget T) (result : T),
       parseJSONResponse (object body) = Ok result ->
       parseJSONResponse (wrap_in_markdown before (object body) after) = Ok result.
Proof.
  intros Hbefore Hafter.
  assert (Hex :
    extractJSON (wrap_in_markdown before (object body) after)
    = extractJSON (object body)).
  { destruct (ReplaceAll_line_object openingFence (before ++ openingFence) body
                (nl ++ fence ++ after) eq_refl eq_refl eq_refl eq_refl)
      as [a1 [body1 [H1 [Ha1 Hb1]]]].
    destruct (ReplaceAll_line_object fence a1 body1
                (ReplaceAll (nl ++ fence ++ after) openingFence EmptyString)
                eq_refl eq_refl eq_refl eq_refl)
      as [a2 [body2 [H2 [Ha2 Hb2]]]].
    assert (Hfa : freeOf "{" (a2 ++ nl) = true).
    { rewrite <- Ha2, <- Ha1. apply ReplaceAll_freeOf, ReplaceAll_freeOf.
      rewrite !freeOf_append, Hbefore. reflexivity. }
    assert (Hfb : freeOf "}"
      (ReplaceAll (ReplaceAll (nl ++ fence ++ after) openingFence EmptyString)
         fence EmptyString) = true).
    { apply ReplaceAll_freeOf, ReplaceAll_freeOf.
      rewrite !freeOf_append, Hafter. reflexivity. }
    rewrite (extractJSON_between
               (wrap_in_markdown before (object body) after) (a2 ++ nl) body2
               (ReplaceAll (ReplaceAll (nl ++ fence ++ after) openingFence EmptyString)
                  fence EmptyString)).
    - symmetry. apply (extractJSON_between _ EmptyString body2 EmptyString);
        [|reflexivity|reflexivity].
      rewrite Hb1, Hb2. cbn [append]. rewrite append_nil_r. reflexivity.
    - replace (wrap_in_markdown before (object body) after)
        with (((before ++ openingFence) ++ nl) ++ object body ++ nl ++ fence ++ after)
        by (unfold wrap_in_markdown; rewrite !append_assoc; reflexivity).
      rewrite H1. exact H2.
    - exact Hfa.
    - exact Hfb. }
  split; [exact Hex|].
  intros T target result. unfold parseJSONResponse. rewrite Hex.
  destruct (Unmarshal (extractJSON (object body))); [auto | discriminate].
Qed.

End ExtractorTheorem.

(** ** The worker pool *)

Section PoolProofs.
Import Worker Pool.

Lemma liveLoops_nonneg (ls : list workerState) : 0 <= liveLoops ls.
Proof.
  induction ls as [|s ls IH]; cbn [liveLoops]; [lia|].
  destruct s; cbn [liveLoop]; lia.
Qed.

Lemma liveLoops_insert (ls : list workerState) (i : nat) (s0 s : workerState) :
  ls !! i = Some s0 ->
  liveLoops (<[i := s]> ls) = liveLoops ls - liveLoop s0 + liveLoop s.
Proof.
  revert i. induction ls as [|x ls IH]; intros i Hi; [discriminate|].
  destruct i as [|i]; cbn in Hi.
  - injection Hi as ->. cbn. lia.
  - change (<[S i := s]> (x :: ls)) with (x :: <[i := s]> ls).
    cbn [liveLoops]. rewrite (IH i Hi). lia.
Qed.

Lemma liveLoops_zero (ls : list workerState) :
  liveLoops ls = 0 -> Forall (fun s => s = Exited) ls.
Proof.
  induction ls as [|s ls IH]; intros Hz; [constructor|].
  cbn [liveLoops] in Hz. pose proof (liveLoops_nonneg ls).
  destruct s; cbn [liveLoop] in Hz; try lia.
  constructor; [reflexivity | apply IH; lia].
Qed.

Lemma liveLoops_repeat (n : nat) : liveLoops (repeat AtSelect n) = Z.of_nat n.
Proof.
  induction n as [|n IH]; [reflexivity|].
  cbn [repeat liveLoops liveLoop]. rewrite IH. lia.
Qed.

Lemma poolInv_Start (concurrency : nat) : poolInv (Start concurrency).
Proof.
  split; [|discriminate].
  unfold live. cbn. rewrite liveLoops_repeat. lia.
Qed.

Lemma poolInv_step (ev : event) (w w' : worker) :
  poolInv w -> step ev w = Some w' -> poolInv w'.
Proof.
  intros [Hwg Hret] Hstep. unfold live in Hwg.
  pose proof (liveLoops_nonneg (loops w)) as Hnn.
  destruct ev; cbn [step] in Hstep.
  - destruct (loops w !! i) as [[| |]|] eqn:Hi; try discriminate.
    destruct (stopChan w); [|discriminate]. injection Hstep as <-.
    unfold poolInv, live. cbn. rewrite (liveLoops_insert _ _ _ _ Hi). cbn.
    split; [lia|]. intros Hs. specialize (Hret Hs).
    pose proof (liveLoops_insert (loops w) i AtSelect AtSelect Hi) as Hl.
    assert (1 <= liveLoops (loops w)).
    { clear -Hi. revert i Hi. induction (loops w) as [|x ls IH]; intros i Hi;
        [discriminate|]. destruct i; cbn in Hi.
      - injection Hi as ->. cbn. pose proof (liveLoops_nonneg ls). lia.
      - cbn [liveLoops]. specialize (IH i Hi). destruct x; cbn; lia. }
    destruct (poller w); cbn in *; lia.
  - destruct (loops w !! i) as [[| |]|] eqn:Hi; try discriminate.
    destruct (jobQueue w); [discriminate|]. injection Hstep as <-.
    unfold poolInv, live. cbn. rewrite (liveLoops_insert _ _ _ _ Hi). cbn.
    split; [lia | exact Hret].
  - destruct (loops w !! i) as [[| |]|] eqn:Hi; try discriminate.
    injection Hstep as <-.
    unfold poolInv, live. cbn. rewrite (liveLoops_insert _ _ _ _ Hi). cbn.
    split; [lia | exact Hret].
  - destruct (poller w) eqn:Hp; try discriminate.
    destruct (stopChan w); [|discriminate]. injection Hstep as <-.
    unfold poolInv, live. cbn in *. split; [lia|].
    intros Hs. specialize (Hret Hs). lia.
  - destruct (poller w) eqn:Hp; try discriminate.
    destruct (Z.of_nat (List.length pending) <=? 10); [|discriminate].
    injection Hstep as <-. unfold poolInv, live. cbn in *. split; [lia | exact Hret].
  - destruct (poller w) as [|[|evalID rest]|] eqn:Hp; try discriminate.
    destruct (hasRoom w); [|discriminate]. injection Hstep as <-.
    unfold poolInv, live. cbn in *. split; [lia | exact Hret].
  - destruct (poller w) as [|[|evalID rest]|] eqn:Hp; try discriminate.
    destruct (stopChan w); [|discriminate]. injection Hstep as <-.
    unfold poolInv, live. cbn in *. split; [lia | exact Hret].
  - destruct (poller w) as [|[|evalID rest]|] eqn:Hp; try discriminate.
    injection Hstep as <-. unfold poolInv, live. cbn in *. split; [lia | exact Hret].
  - destruct (hasRoom w); [|discriminate]. injection Hstep as <-.
    unfold poolInv, live. cbn in *. split; [exact Hwg | exact Hret].
  - destruct (stopCall w) eqn:Hs; try discriminate. injection Hstep as <-.
    unfold poolInv, live. cbn. split; [exact Hwg | discriminate].
  - destruct (stopCall w) eqn:Hs; try discriminate.
    destruct (Z.eqb_spec (wg w) 0) as [Hz|]; [|discriminate]. injection Hstep as <-.
    unfold poolInv, live. cbn. split; [exact Hwg | intros _; exact Hz].
Qed.

Lemma poolInv_run (evs : list event) (w w' : worker) :
  poolInv w -> run evs w = Some w' -> poolInv w'.
Proof.
  revert w. induction evs as [|ev evs IH]; intros w Hinv Hrun; cbn [run] in Hrun.
  - injection Hrun as <-. exact Hinv.
  - destruct (step ev w) as [w1|] eqn:Hstep; [|discriminate].
    apply (IH w1); [apply (poolInv_step ev w) | ]; assumption.
Qed.

(** C9, as the code has it.  [Stop] returns only when every worker loop
    and the poller have returned; a loop returns only from its [select],
    once the stop signal is given, so a job in flight is run to its end
    first.  (A loop at its [select] with a job queued and the signal
    given may take either case: a job may still start after [Stop].) *)
Theorem Stop_waits_for_every_loop (concurrency : nat) (w : worker) :
  reachable concurrency w ->
  (stopCall w = StopReturned ->
   Forall (fun s => s = Exited) (loops w) /\ poller w = PollerExited)
  /\ (forall ev w' i evalID,
        step ev w = Some w' ->
        loops w !! i = Some (Processing evalID) ->
        loops w' !! i = Some (Processing evalID)
        \/ (ev = WorkerFinishes i /\ loops w' !! i = Some AtSelect))
  /\ (forall ev w' i,
        step ev w = Some w' ->
        loops w' !! i = Some Exited ->
        loops w !! i = Some Exited
        \/ (ev = WorkerStops i /\ loops w !! i = Some AtSelect /\ stopChan w = true)).
Proof.
  intros [evs Hrun].
  pose proof (poolInv_run evs _ _ (poolInv_Start concurrency) Hrun) as [Hwg Hret].
  split; [|split].
  - intros Hs. specialize (Hret Hs). rewrite Hret in Hwg. unfold live in Hwg.
    pose proof (liveLoops_nonneg (loops w)).
    assert (liveLoops (loops w) = 0 /\ livePoller (poller w) = 0) as [Hl Hp]
      by (destruct (poller w); cbn in *; lia).
    split; [apply liveLoops_zero; exact Hl|].
    destruct (poller w); cbn in Hp; try lia. reflexivity.
  - intros ev w' i evalID Hstep Hi.
    destruct ev; cbn [step] in Hstep;
      repeat match type of Hstep with
        | context [match ?x with _ => _ end] => destruct x eqn:?; try discriminate
        end;
      injection Hstep as <-; cbn [loops withLoop withPoller];
      try (left; exact Hi);
      match goal with
      | |- context [<[?j := _]> _] =>
          destruct (decide (j = i)) as [->|Hne];
          [ try congruence | left; rewrite list_lookup_insert_ne by exact Hne; exact Hi ]
      end.
    right. split; [reflexivity|].
    apply list_lookup_insert_eq. apply lookup_lt_Some in Hi. exact Hi.
  - intros ev w' i Hstep Hi.
    destruct ev; cbn [step] in Hstep;
      repeat match type of Hstep with
        | context [match ?x with _ => _ end] => destruct x eqn:?; try discriminate
        end;
      injection Hstep as <-; cbn [loops withLoop withPoller] in Hi;
      try (left; exact Hi);
      match type of Hi with
      | context [<[?j := _]> _] =>
          destruct (decide (j = i)) as [->|Hne];
          [ | left; rewrite list_lookup_insert_ne in Hi by exact Hne; exact Hi ]
      end.
    + right. auto.
    + rewrite list_lookup_insert_eq in Hi; [discriminate|].
      eapply lookup_lt_Some; eassumption.
    + rewrite list_lookup_insert_eq in Hi; [discriminate|].
      eapply lookup_lt_Some; eassumption.
Qed.

Lemma reachable_afterShutdown : reachable 2 afterShutdown.
Proof. exists shutdown. reflexivity. Defined.

(** C9 on a shutdown with a job in flight. *)
Lemma Stop_waits_for_every_loop_witness :
  reachable 2 afterShutdown
  /\ stopCall afterShutdown = StopReturned
  /\ Forall (fun s => s = Exited) (loops afterShutdown)
  /\ poller afterShutdown = PollerExited.
Proof.
  split; [exact reachable_afterShutdown|]. split; [reflexivity|].
  apply (Stop_waits_for_every_loop 2 afterShutdown reachable_afterShutdown).
  reflexivity.
Defined.

(** C9, as stated, fails: with the stop signal given and [Stop] waiting,
    a loop at its [select] takes the job that is queued. *)
Lemma job_starts_after_Stop :
  run [Submits 7%N; StopCloses] (Start 1)
  = Some {| jobQueue := [7%N]; stopChan := true; wg := 2; loops := [AtSelect];
            poller := PollerAtSelect; stopCall := StopWaiting |}
  /\ run lateStart (Start 1)
     = Some {| jobQueue := []; stopChan := true; wg := 2;
               loops := [Processing 7%N]; poller := PollerAtSelect;
               stopCall := StopWaiting |}.
Proof. split; reflexivity. Qed.

End PoolProofs.

(** ** The properties on the scenarios *)

Section Scenarios.
Import Repositories JobInvariant Evaluator Prompt Run Scenario Markdown.
Local Existing Instance reliable.
Local Existing Instance twoDecimals.
Local Existing Instance noDecoder.

(** C2, as stated, fails: when embedding the query fails, the context
    the stage hands to the prompt builder is the empty string. *)
Lemma stage_context_is_empty_when_embedding_fails :
  retrieveContext (serviceWith bothDocuments "ok") Gemini.Background
    "Ten years of Go." ["job_description"; "cv_rubric"]
  = Err "failed to generate query embedding: embedding unavailable"
  /\ stageContext (serviceWith bothDocuments "ok") Gemini.Background
       "Ten years of Go." ["job_description"; "cv_rubric"] = EmptyString
  /\ cvStageContext (serviceWith bothDocuments "ok") Gemini.Background
       {| pdfText := "Ten years of Go."; PageCount := 1;
          pdfFilePath := "uploads/cv.pdf" |} = EmptyString.
Proof. repeat split. Qed.

(** C2 on an index without results, queried with an embedding that
    succeeds and with one that fails. *)
Lemma stage_context_empty_only_when_embedding_fails_witness :
  stageContext serviceEmbedding Gemini.Background "Ten years of Go."
    ["job_description"; "cv_rubric"] = "No relevant context found."
  /\ stageContext (serviceWith bothDocuments "ok") Gemini.Background
       "Ten years of Go." ["job_description"; "cv_rubric"] = EmptyString.
Proof.
  split.
  - apply (stage_context_empty_only_when_embedding_fails serviceEmbedding
             Gemini.Background "Ten years of Go." ["job_description"; "cv_rubric"])
      with (embedding := [1%float; 0%float]); [reflexivity|].
    intros docType _. reflexivity.
  - apply (stage_context_empty_only_when_embedding_fails
             (serviceWith bothDocuments "ok") Gemini.Background "Ten years of Go."
             ["job_description"; "cv_rubric"])
      with (err := "embedding unavailable"). reflexivity.
Defined.

(** C3 on a budget of three attempts: two failures and a success, and
    three failures. *)
Lemma GenerateTextWithRetry_outcomes_witness :
  1 <= 3
  /\ Gemini.GenerateTextWithRetry failsTwice Gemini.Background 0 "prompt"
       temperatureEval 3 = (Ok "done", 3%nat)
  /\ Gemini.GenerateTextWithRetry alwaysFails Gemini.Background 0 "prompt"
       temperatureEval 3
     = (Err "failed after 3 attempts: failed to generate text: unavailable", 3%nat).
Proof.
  split; [lia|]. split.
  - apply (GenerateTextWithRetry_outcomes failsTwice Gemini.Background 0 "prompt"
             temperatureEval 3 ltac:(lia)); [lia | | reflexivity].
    intros i Hi. destruct i as [|[|i]]; [split; reflexivity | split; reflexivity | lia].
  - apply (GenerateTextWithRetry_outcomes alwaysFails Gemini.Background 0 "prompt"
             temperatureEval 3 ltac:(lia)).
    intros i Hi. split; reflexivity.
Defined.

(** C3, as stated, fails: with the context cancelled, the call ends
    after the first failed attempt of a budget of three, and its error
    is the context's, not the attempt's; a later attempt that would have
    succeeded is not made. *)
Lemma GenerateTextWithRetry_stops_when_cancelled :
  Gemini.GenerateTextWithRetry alwaysFails cancelled 0 "prompt" temperatureEval 3
  = (Err "context cancelled: context canceled", 1%nat)
  /\ Gemini.GenerateTextWithRetry failsTwice cancelled 0 "prompt" temperatureEval 3
     = (Err "context cancelled: context canceled", 1%nat)
  /\ Gemini.GenerateText failsTwice 2 "prompt" temperatureEval = Ok "done".
Proof. repeat split. Qed.

(** C4 on a run in which every generation call returns the empty
    string, on a database that takes every statement. *)
Lemma empty_generation_falls_back_witness :
  queuedStore !! 1%N = Some queuedJob
  /\ starts 1%N 20
  /\ cvResponse (serviceWith bothDocuments "") Gemini.Background
       "Ten years of Go." EmptyString "Backend Engineer" = Ok EmptyString
  /\ evaluateCV (serviceWith bothDocuments "") Gemini.Background
       "Ten years of Go." EmptyString "Backend Engineer" = Ok emptyResponseCV
  /\ snd (EvaluateCandidate (serviceWith bothDocuments "") Gemini.Background
            20 21 1%N queuedStore) = None
  /\ (Status <$>
        fst (EvaluateCandidate (serviceWith bothDocuments "") Gemini.Background
               20 21 1%N queuedStore) !! 1%N) = Some StatusCompleted
  /\ (CVMatchRate <$>
        fst (EvaluateCandidate (serviceWith bothDocuments "") Gemini.Background
               20 21 1%N queuedStore) !! 1%N) = Some (Some 0%float).
Proof.
  assert (Hstart : starts 1%N 20) by (split; reflexivity).
  assert (Hnil : snd (EvaluateCandidate (serviceWith bothDocuments "")
                        Gemini.Background 20 21 1%N queuedStore) = None)
    by (vm_compute; reflexivity).
  split; [reflexivity|]. split; [exact Hstart|]. split; [reflexivity|].
  destruct (empty_generation_falls_back (serviceWith bothDocuments "")
              Gemini.Background 20 21 1%N queuedStore queuedJob
              cvDocument projectDocument
              {| pdfText := "Ten years of Go."; PageCount := 1;
                 pdfFilePath := "uploads/cv.pdf" |}
              {| pdfText := "Ten years of Go."; PageCount := 1;
                 pdfFilePath := "uploads/report.pdf" |}
              eq_refl Hstart eq_refl eq_refl eq_refl eq_refl) as [Hcv _].
  destruct (Hcv eq_refl) as [Heval [_ [_ [job' [Hjob [Hrun _]]]]]].
  split; [exact Heval|]. split; [exact Hnil|].
  destruct (Hrun emptyResponseProject EmptyString eq_refl eq_refl)
    as [_ [Hsaved _]].
  destruct (Hsaved Hnil) as [Hstatus [Hrate _]].
  split.
  - transitivity (Status <$> Some job'); [exact (f_equal (fmap Status) Hjob)|].
    exact (f_equal Some Hstatus).
  - transitivity (CVMatchRate <$> Some job');
      [exact (f_equal (fmap CVMatchRate) Hjob)|].
    exact (f_equal Some Hrate).
Defined.

(** C5 on a new job whose documents are not in the Document Store, on a
    database that takes every statement. *)
Lemma document_lookup_failure_ends_Failed_witness :
  queuedStore !! 1%N = Some queuedJob
  /\ starts 1%N 20
  /\ lookupFails (serviceWith ∅ "ok") queuedJob
  /\ (Status <$>
        fst (EvaluateCandidate (serviceWith ∅ "ok") Gemini.Background
               20 21 1%N queuedStore) !! 1%N) = Some StatusFailed
  /\ (noResults <$>
        fst (EvaluateCandidate (serviceWith ∅ "ok") Gemini.Background
               20 21 1%N queuedStore) !! 1%N) = Some true.
Proof.
  assert (Hstart : starts 1%N 20) by (split; reflexivity).
  assert (Hfail : lookupFails (serviceWith ∅ "ok") queuedJob)
    by (left; eexists; reflexivity).
  split; [reflexivity|]. split; [exact Hstart|]. split; [exact Hfail|].
  destruct (document_lookup_failure_ends_Failed (serviceWith ∅ "ok")
              Gemini.Background 20 21 1%N queuedStore queuedJob eq_refl Hstart Hfail)
    as [job' [errorMsg [Hjob [_ [_ [_ [Htaken [_ [_ Hnone]]]]]]]]].
  destruct (Htaken eq_refl) as [Hstatus _].
  split.
  - transitivity (Status <$> Some job'); [exact (f_equal (fmap Status) Hjob)|].
    exact (f_equal Some Hstatus).
  - transitivity (noResults <$> Some job');
      [exact (f_equal (fmap noResults) Hjob)|].
    exact (f_equal Some (Hnone eq_refl)).
Defined.

(** C5, as stated, fails.  A job that holds results (it was completed by
    an earlier run) keeps them when a later run fails its lookup.  And
    on a database that refuses the write of the failure, which the run
    does not look at, the job is not Failed: it stays Processing without
    a message, and the run returns the error of the lookup all the
    same. *)
Lemma lookup_failure_keeps_earlier_results :
  (Status <$> completedStore !! 1%N) = Some StatusCompleted
  /\ (Status <$>
        fst (EvaluateCandidate (serviceWith ∅ "ok") Gemini.Background
               20 21 1%N completedStore) !! 1%N) = Some StatusFailed
  /\ (ErrorMessage <$>
        fst (EvaluateCandidate (serviceWith ∅ "ok") Gemini.Background
               20 21 1%N completedStore) !! 1%N)
     = Some (Some "CV document not found: document not found: record not found")
  /\ (noResults <$>
        fst (EvaluateCandidate (serviceWith ∅ "ok") Gemini.Background
               20 21 1%N completedStore) !! 1%N) = Some false
  /\ (Status <$>
        fst (runOn lostAfterStart (serviceWith ∅ "ok") 20 21 1%N queuedStore) !! 1%N)
     = Some StatusProcessing
  /\ (ErrorMessage <$>
        fst (runOn lostAfterStart (serviceWith ∅ "ok") 20 21 1%N queuedStore) !! 1%N)
     = Some None
  /\ snd (runOn lostAfterStart (serviceWith ∅ "ok") 20 21 1%N queuedStore)
     = Some "failed to get CV document: document not found: record not found".
Proof. vm_compute. repeat split. Qed.

(** C8 on a fenced object between two sentences. *)
Lemma extractJSON_wrap_in_markdown_witness :
  freeOf "{" "Here is the evaluation: " = true
  /\ freeOf "}" " Hope it helps." = true
  /\ extractJSON plainResponse = extractJSON (object payloadBody)
  /\ @parseJSONResponse string JSON.RawMessage plainResponse
     = Ok (object payloadBody).
Proof.
  split; [reflexivity|]. split; [reflexivity|].
  destruct (extractJSON_wrap_in_markdown "Here is the evaluation: " payloadBody
              " Hope it helps." eq_refl eq_refl) as [Hex Hdec].
  split; [exact Hex|].
  apply (Hdec string JSON.RawMessage). reflexivity.
Defined.

(** C8, as stated, fails: the first opening brace of the prose is taken
    for the start of the object; the text selected is not JSON and the
    response does not decode, while the bare object does. *)
Lemma extractJSON_takes_brace_of_prose :
  extractJSON bracedResponse = "{draft}: " ++ nl ++ object payloadBody
  /\ extractJSON (object payloadBody) = object payloadBody
  /\ @parseJSONResponse string JSON.RawMessage (object payloadBody)
     = Ok (object payloadBody)
  /\ isOk (@parseJSONResponse string JSON.RawMessage bracedResponse) = false.
Proof. repeat split. Qed.

End Scenarios.
(** * Further properties of the code *)

(** ** The Job Store: lookups after updates *)

Section StoreMore.
Import Repositories JobInvariant Run More.
Context `{Database}.

(** A score that does not fit its column fails the statement on a row
    of the table. *)
Lemma columns_overflow (now : Time) (data : EvaluationUpdateData) :
  fits (dCVMatchRate data) && fits (dProjectScore data) = false ->
  columns
    ([status_ StatusCompleted; updated_at now]
       ++ optAssign cv_match_rate (dCVMatchRate data)
       ++ optAssign cv_feedback (dCVFeedback data)
       ++ optAssign project_score (dProjectScore data)
       ++ optAssign project_feedback (dProjectFeedback data)
       ++ optAssign overall_summary (dOverallSummary data))%list = None.
Proof.
  destruct data as [[a|] [b|] [c|] [d|] [f|]];
    cbn [optAssign app dCVMatchRate dCVFeedback dProjectScore dProjectFeedback
           dOverallSummary columns column fits isSome andb];
    repeat match goal with
      | |- context [decimal_3_2 ?x] => destruct (decimal_3_2 x)
      end;
    cbn [isSome andb]; intros Hfit; try discriminate; reflexivity.
Qed.

(** X1: When no evaluation has the identifier, each of the three updates
    leaves the table as it is and returns an error, and so does the
    lookup: "evaluation not found" when the database reports no error of
    its own, and the database's error under the operation's prefix
    otherwise. *)
Theorem update_of_missing_evaluation (db : gmap UUID Evaluation) (now : Time)
  (id : UUID) (status : EvaluationStatus) (data : EvaluationUpdateData)
  (errorMsg : string) :
  db !! id = None ->
  (FindByID db id = Err "evaluation not found"
   \/ exists err, FindByID db id = Err ("failed to find evaluation: " ++ err))
  /\ (UpdateStatus db now id status = (db, Some "evaluation not found")
      \/ exists err,
           UpdateStatus db now id status
           = (db, Some ("failed to update status: " ++ err)))
  /\ (UpdateResult db now id data = (db, Some "evaluation not found")
      \/ exists err,
           UpdateResult db now id data
           = (db, Some ("failed to update result: " ++ err)))
  /\ (UpdateError db now id errorMsg = (db, Some "evaluation not found")
      \/ exists err,
           UpdateError db now id errorMsg
           = (db, Some ("failed to update error: " ++ err)))
  /\ (findError id = None ->
      (forall updates, updateError id updates = None) ->
      FindByID db id = Err "evaluation not found"
      /\ UpdateStatus db now id status = (db, Some "evaluation not found")
      /\ UpdateResult db now id data = (db, Some "evaluation not found")
      /\ UpdateError db now id errorMsg = (db, Some "evaluation not found")).
Proof.
  intros Hid.
  assert (Hupd : forall what updates,
    reportUpdate what (Updates db id updates) = (db, Some "evaluation not found")
    \/ exists err,
         reportUpdate what (Updates db id updates)
         = (db, Some ("failed to update " ++ what ++ ": " ++ err))).
  { intros what updates. unfold Updates.
    destruct (updateError id updates) as [err|];
      [right; exists err; reflexivity|].
    rewrite Hid. left. reflexivity. }
  split; [|split; [|split; [|split]]].
  - unfold FindByID. destruct (findError id) as [err|];
      [right; exists err; reflexivity | left; rewrite Hid; reflexivity].
  - apply (Hupd "status").
  - apply (Hupd "result").
  - apply (Hupd "error").
  - intros Hfind Hnone. unfold FindByID, UpdateStatus, UpdateResult, UpdateError, Updates.
    rewrite Hfind, !Hnone, Hid. repeat split.
Qed.

End StoreMore.

Section StoreMoreScenarios.
Import Repositories JobInvariant Run More.
Local Existing Instance reliable.

(** An update of an identifier the table does not hold. *)
Lemma update_of_missing_evaluation_witness :
  queuedStore !! 2%N = None
  /\ UpdateError queuedStore 9 2%N "lost" = (queuedStore, Some "evaluation not found").
Proof.
  split; [reflexivity|].
  apply (update_of_missing_evaluation queuedStore 9 2%N StatusFailed emptyResult "lost");
    reflexivity.
Defined.

End StoreMoreScenarios.

Section StoreReadBack.
Import Repositories JobInvariant Run More.
Context `{Database}.

(** X2: [UpdateStatus] and [UpdateError] on an evaluation of the table.
    When the database takes the statement, the call returns nil and the
    row found afterwards has the new status (and the error message), the
    time of the update, and every other field as it was.  When the
    database refuses it, the call returns the database's error under its
    prefix and the table is as it was. *)
Theorem status_and_error_read_back (db : gmap UUID Evaluation) (now : Time)
  (id : UUID) (row : Evaluation) (status : EvaluationStatus) (errorMsg : string) :
  db !! id = Some row ->
  findError id = None ->
  (updateError id [status_ status; updated_at now] = None ->
   snd (UpdateStatus db now id status) = None
   /\ exists row',
       FindByID (fst (UpdateStatus db now id status)) id = Ok row'
       /\ Status row' = status /\ UpdatedAt row' = now
       /\ ErrorMessage row' = ErrorMessage row
       /\ resultsOf row' = resultsOf row /\ identityOf row' = identityOf row)
  /\ (forall err,
        updateError id [status_ status; updated_at now] = Some err ->
        UpdateStatus db now id status
        = (db, Some ("failed to update status: " ++ err)))
  /\ (updateError id (errorStatement now errorMsg) = None ->
      snd (UpdateError db now id errorMsg) = None
      /\ exists row',
          FindByID (fst (UpdateError db now id errorMsg)) id = Ok row'
          /\ Status row' = StatusFailed /\ UpdatedAt row' = now
          /\ ErrorMessage row' = Some errorMsg
          /\ resultsOf row' = resultsOf row /\ identityOf row' = identityOf row)
  /\ (forall err,
        updateError id (errorStatement now errorMsg) = Some err ->
        UpdateError db now id errorMsg
        = (db, Some ("failed to update error: " ++ err))).
Proof.
  intros Hrow Hfind. split; [|split; [|split]].
  - intros Htaken. unfold UpdateStatus, FindByID.
    rewrite (Updates_found db id row "status" _ [status_ status; updated_at now]
               Htaken Hrow eq_refl).
    cbn [fst snd]. rewrite Hfind, lookup_insert_eq.
    split; [reflexivity|]. eexists. repeat split; reflexivity.
  - intros err Herr. unfold UpdateStatus.
    exact (Updates_refused db id "status" err [status_ status; updated_at now] Herr).
  - intros Htaken. unfold UpdateError, FindByID.
    rewrite (Updates_found db id row "error"
               [status_ StatusFailed; error_message errorMsg; updated_at now]
               (errorStatement now errorMsg) Htaken Hrow eq_refl).
    cbn [fst snd]. rewrite Hfind, lookup_insert_eq.
    split; [reflexivity|]. eexists. repeat split; reflexivity.
  - intros err Herr. unfold UpdateError.
    exact (Updates_refused db id "error" err
             [status_ StatusFailed; error_message errorMsg; updated_at now] Herr).
Qed.

(** X3: [UpdateResult] on an evaluation of the table.  When it returns
    nil, every score given fits its column, the status is Completed, and
    the row holds what the columns make of the scores given and the
    texts given; a field left nil keeps the stored value and the error
    message is not cleared.  When a score given does not fit its
    [DECIMAL(3,2)] column, or the database refuses the statement, the
    call returns an error and the table is as it was. *)
Theorem UpdateResult_writes_given_fields (db : gmap UUID Evaluation) (now : Time)
  (id : UUID) (row : Evaluation) (data : EvaluationUpdateData) :
  db !! id = Some row ->
  (snd (UpdateResult db now id data) = None ->
   fits (dCVMatchRate data) = true /\ fits (dProjectScore data) = true
   /\ exists row',
       fst (UpdateResult db now id data) !! id = Some row'
       /\ Status row' = StatusCompleted /\ UpdatedAt row' = now
       /\ CVMatchRate row' = writtenScore (dCVMatchRate data) (CVMatchRate row)
       /\ CVFeedback row' = written (dCVFeedback data) (CVFeedback row)
       /\ ProjectScore row' = writtenScore (dProjectScore data) (ProjectScore row)
       /\ ProjectFeedback row' = written (dProjectFeedback data) (ProjectFeedback row)
       /\ OverallSummary row' = written (dOverallSummary data) (OverallSummary row)
       /\ ErrorMessage row' = ErrorMessage row
       /\ identityOf row' = identityOf row)
  /\ (fits (dCVMatchRate data) && fits (dProjectScore data) = false ->
      fst (UpdateResult db now id data) = db
      /\ ((forall updates, updateError id updates = None) ->
          snd (UpdateResult db now id data)
          = Some ("failed to update result: " ++ numericOverflow)))
  /\ (forall err,
        snd (UpdateResult db now id data) = Some err ->
        fst (UpdateResult db now id data) = db).
Proof.
  intros Hrow. split; [|split].
  - intros Hnil.
    destruct (UpdateResult_written db now id data Hnil)
      as [row0 [row' [Hrow0 [Hfst [Hf1 [Hf2 Hfields]]]]]].
    rewrite Hrow in Hrow0. injection Hrow0 as <-.
    split; [exact Hf1|]. split; [exact Hf2|].
    exists row'. rewrite Hfst, lookup_insert_eq. split; [reflexivity | exact Hfields].
  - intros Hfit. pose proof (columns_overflow now data Hfit) as Hcol.
    unfold UpdateResult, Updates.
    destruct (updateError id _) as [err|] eqn:Herr.
    + split; [reflexivity|]. intros Hnone. rewrite Hnone in Herr. discriminate.
    + rewrite Hrow, Hcol. split; reflexivity.
  - intros err Herr. unfold UpdateResult in *.
    match goal with
    | |- context [reportUpdate ?what (Updates db id ?updates)] =>
        destruct (reportUpdate_cases what db id updates)
          as [[row0 [stored [_ [_ [_ Heq]]]]] | [err' Heq]]
    end; rewrite Heq in Herr |- *; [discriminate | reflexivity].
Qed.

(** X4: No update touches another evaluation. *)
Theorem updates_leave_other_evaluations (db : gmap UUID Evaluation) (now : Time)
  (id other : UUID) (status : EvaluationStatus) (data : EvaluationUpdateData)
  (errorMsg : string) :
  other <> id ->
  fst (UpdateStatus db now id status) !! other = db !! other
  /\ fst (UpdateResult db now id data) !! other = db !! other
  /\ fst (UpdateError db now id errorMsg) !! other = db !! other.
Proof.
  intros Hne.
  assert (Hupd : forall what updates,
    fst (reportUpdate what (Updates db id updates)) !! other = db !! other).
  { intros what updates.
    destruct (reportUpdate_cases what db id updates)
      as [[row [stored [_ [_ [_ ->]]]]] | [err ->]]; cbn [fst]; [|reflexivity].
    apply lookup_insert_ne. congruence. }
  unfold UpdateStatus, UpdateResult, UpdateError. repeat split; apply Hupd.
Qed.

End StoreReadBack.

Section StoreReadBackScenarios.
Import Repositories JobInvariant Run More.
Local Existing Instance reliable.

(** The two updates on the queued job. *)
Lemma status_and_error_read_back_witness :
  queuedStore !! 1%N = Some queuedJob
  /\ findError 1%N = None
  /\ updateError 1%N (errorStatement 9 "boom") = None
  /\ snd (UpdateError queuedStore 9 1%N "boom") = None
  /\ snd (UpdateStatus queuedStore 9 1%N StatusProcessing) = None.
Proof.
  assert (Hrow : queuedStore !! 1%N = Some queuedJob) by reflexivity.
  assert (Hfind : findError 1%N = None) by reflexivity.
  assert (Htaken : updateError 1%N (errorStatement 9 "boom") = None) by reflexivity.
  split; [exact Hrow|]. split; [exact Hfind|]. split; [exact Htaken|].
  destruct (status_and_error_read_back queuedStore 9 1%N queuedJob
              StatusProcessing "boom" Hrow Hfind) as [H1 [_ [H2 _]]].
  split; [exact (proj1 (H2 Htaken)) | exact (proj1 (H1 eq_refl))].
Defined.

(** A full result written on the queued job, and a project score of 85,
    which the column refuses. *)
Lemma UpdateResult_writes_given_fields_witness :
  queuedStore !! 1%N = Some queuedJob
  /\ snd (UpdateResult queuedStore 9 1%N fullResult) = None
  /\ (ProjectScore <$> fst (UpdateResult queuedStore 9 1%N fullResult) !! 1%N)
     = Some (Some 4%float)
  /\ fits (dProjectScore score85) = false
  /\ UpdateResult queuedStore 9 1%N score85
     = (queuedStore,
        Some "failed to update result: ERROR: numeric field overflow (SQLSTATE 22003)").
Proof.
  assert (Hrow : queuedStore !! 1%N = Some queuedJob) by reflexivity.
  assert (Hnil : snd (UpdateResult queuedStore 9 1%N fullResult) = None)
    by (vm_compute; reflexivity).
  destruct (UpdateResult_writes_given_fields queuedStore 9 1%N queuedJob fullResult
              Hrow) as [Hok _].
  destruct (Hok Hnil) as [_ [_ [row' [Hrow' [_ [_ [_ [_ [Hps _]]]]]]]]].
  split; [exact Hrow|]. split; [exact Hnil|]. split.
  - transitivity (ProjectScore <$> Some row');
      [exact (f_equal (fmap ProjectScore) Hrow')|].
    exact (f_equal Some Hps).
  - split; [vm_compute; reflexivity|]. vm_compute. reflexivity.
Defined.

(** An update of the second job of a table of two. *)
Lemma updates_leave_other_evaluations_witness :
  1%N <> 2%N
  /\ twoJobs !! 1%N = Some queuedJob
  /\ fst (UpdateError twoJobs 9 2%N "boom") !! 1%N = Some queuedJob.
Proof.
  assert (Hne : 1%N <> 2%N) by discriminate.
  assert (Hrow : twoJobs !! 1%N = Some queuedJob) by reflexivity.
  split; [exact Hne|]. split; [exact Hrow|].
  rewrite <- Hrow.
  apply (updates_leave_other_evaluations twoJobs 9 2%N 1%N StatusFailed
           emptyResult "boom" Hne).
Defined.

End StoreReadBackScenarios.

(** ** The run of a job *)

Section RunMore.
Import Repositories JobInvariant Evaluator Prompt Run More.
Context `{Database} `{GoFmt} `{JSONTarget CVEvaluationResult}
  `{JSONTarget ProjectEvaluationResult}.
Variable e : evaluatorService.
Variable ctx : Gemini.Context.

(** A run whose first statement fails returns there. *)
Lemma EvaluateCandidate_not_started (tStart tEnd : Time) (evalID : UUID)
  (db : gmap UUID Evaluation) (err : string) :
  UpdateStatus db tStart evalID StatusProcessing = (db, Some err) ->
  EvaluateCandidate e ctx tStart tEnd evalID db
  = (db, Some ("failed to update status: " ++ err)).
Proof. intros Hst. unfold EvaluateCandidate. rewrite Hst. reflexivity. Qed.


(** X5: A run whose status write fails stops there: it returns the error
    of [UpdateStatus] under the prefix "failed to update status: " and
    the table is as it was.  For an evaluation that is not in the table
    the error is "failed to update status: evaluation not found" when
    the database reports no error of its own. *)
Theorem run_of_missing_evaluation (tStart tEnd : Time) (evalID : UUID)
  (db : gmap UUID Evaluation) :
  db !! evalID = None ->
  (updateError evalID (startStatement tStart) = None ->
   EvaluateCandidate e ctx tStart tEnd evalID db
   = (db, Some "failed to update status: evaluation not found"))
  /\ (forall err,
        updateError evalID (startStatement tStart) = Some err ->
        EvaluateCandidate e ctx tStart tEnd evalID db
        = (db, Some ("failed to update status: failed to update status: " ++ err))).
Proof.
  intros Hid. split.
  - intros Hnone. apply EvaluateCandidate_not_started.
    unfold UpdateStatus, Updates.
    change [status_ StatusProcessing; updated_at tStart]
      with (startStatement tStart).
    rewrite Hnone, Hid. reflexivity.
  - intros err Herr. apply EvaluateCandidate_not_started. unfold UpdateStatus.
    exact (Updates_refused db evalID "status" err
             [status_ StatusProcessing; updated_at tStart] Herr).
Qed.


(** X8: A service on the client of gemini.go that is given a budget of
    no attempt fails every job whose two documents it can read, at the
    CV stage: the generation call makes no attempt, and the run returns
    the message of a retry loop that has no last error to wrap.  The job
    is recorded Failed with that message when the database takes the
    write, and stays Processing when it does not. *)
Theorem run_without_retry_budget (g : Gemini.geminiService) (tStart tEnd : Time)
  (evalID : UUID) (db : gmap UUID Evaluation) (job : Evaluation)
  (cvDoc projectDoc : Document) (cvContent projectContent : PDFContent) :
  geminiService e = geminiBacked g ->
  maxRetries e <= 0 ->
  db !! evalID = Some job ->
  starts evalID tStart ->
  docFindByID (docRepo e) (CVDocumentID job) = Ok cvDoc ->
  docFindByID (docRepo e) (ProjectDocumentID job) = Ok projectDoc ->
  ExtractTextWithMetaData (pdfParser e) (FilePath cvDoc) = Ok cvContent ->
  ExtractTextWithMetaData (pdfParser e) (FilePath projectDoc) = Ok projectContent ->
  let failure :=
    "failed to generate CV evaluation: failed after " ++ Itoa (maxRetries e)
    ++ " attempts: %!w(<nil>)" in
  snd (Gemini.GenerateTextWithRetry g ctx 0
         (BuildCVEvaluationPrompt (pdfText cvContent) (cvStageContext e ctx cvContent)
            EmptyString (JobTitle job))
         temperatureEval (maxRetries e)) = O
  /\ snd (EvaluateCandidate e ctx tStart tEnd evalID db)
     = Some ("failed to evaluate CV: " ++ failure)
  /\ exists job',
       fst (EvaluateCandidate e ctx tStart tEnd evalID db) !! evalID = Some job'
       /\ resultsOf job' = resultsOf job
       /\ (updateError evalID (errorStatement tEnd ("Failed to evaluate CV: " ++ failure))
           = None ->
           Status job' = StatusFailed
           /\ ErrorMessage job' = Some ("Failed to evaluate CV: " ++ failure))
       /\ (forall err,
             updateError evalID
               (errorStatement tEnd ("Failed to evaluate CV: " ++ failure)) = Some err ->
             Status job' = StatusProcessing).
Proof.
  intros Hg Hn Hjob Hstart Hcv Hpr Hcvp Hprp failure.
  assert (Hloop : forall prompt temperature,
    Gemini.GenerateTextWithRetry g ctx 0 prompt temperature (maxRetries e)
    = (Err ("failed after " ++ Itoa (maxRetries e) ++ " attempts: %!w(<nil>)"), O)).
  { intros prompt temperature. unfold Gemini.GenerateTextWithRetry.
    replace (Z.to_nat (maxRetries e)) with O by lia. reflexivity. }
  split; [rewrite Hloop; reflexivity|].
  rewrite (EvaluateCandidate_stages e ctx tStart tEnd evalID db job cvDoc projectDoc
             cvContent projectContent Hjob Hstart Hcv Hpr Hcvp Hprp).
  assert (Heval : evaluateCV e ctx (pdfText cvContent) (cvStageContext e ctx cvContent)
                    (JobTitle job) = Err failure).
  { unfold evaluateCV, cvResponse. rewrite Hg.
    cbn [GenerateTextWithRetry geminiBacked]. rewrite Hloop. reflexivity. }
  rewrite Heval.
  set (job1 := assignAll (startStatement tStart) job).
  assert (Hj1 : <[evalID := job1]> db !! evalID = Some job1) by apply lookup_insert_eq.
  destruct (failWith_job _ tEnd evalID job1 ("Failed to evaluate CV: " ++ failure)
              ("failed to evaluate CV: " ++ failure) Hj1)
    as [Hret [_ [job' [Hjob' [Hres [_ [Htaken Hrefused]]]]]]].
  split; [exact Hret|].
  exists job'. split; [exact Hjob'|]. split; [exact Hres|].
  split; [exact Htaken|].
  intros err Herr. rewrite (Hrefused err Herr). reflexivity.
Qed.

(** X9: With the parser of pdf_parser.go, a job whose CV is not on disk
    any more fails at the parsing step: the run returns an error that
    names the missing path and writes no result field.  The job is
    recorded Failed with the message when the database takes the write,
    and stays Processing when it does not. *)
Theorem run_on_missing_CV_file (fs : PDFParser.FileSystem) (tStart tEnd : Time)
  (evalID : UUID) (db : gmap UUID Evaluation) (job : Evaluation)
  (cvDoc projectDoc : Document) :
  pdfParser e = PDFParser.pdfParserService fs ->
  db !! evalID = Some job ->
  starts evalID tStart ->
  docFindByID (docRepo e) (CVDocumentID job) = Ok cvDoc ->
  docFindByID (docRepo e) (ProjectDocumentID job) = Ok projectDoc ->
  fs (FilePath cvDoc) = PDFParser.NotExist ->
  let failure := "file does not exist: " ++ FilePath cvDoc in
  snd (EvaluateCandidate e ctx tStart tEnd evalID db)
  = Some ("failed to parse CV: " ++ failure)
  /\ exists job',
       fst (EvaluateCandidate e ctx tStart tEnd evalID db) !! evalID = Some job'
       /\ resultsOf job' = resultsOf job
       /\ (updateError evalID (errorStatement tEnd ("Failed to parse CV: " ++ failure))
           = None ->
           Status job' = StatusFailed
           /\ ErrorMessage job' = Some ("Failed to parse CV: " ++ failure))
       /\ (forall err,
             updateError evalID
               (errorStatement tEnd ("Failed to parse CV: " ++ failure)) = Some err ->
             Status job' = StatusProcessing).
Proof.
  intros Hparser Hjob Hstart Hcv Hpr Hfile failure.
  rewrite (EvaluateCandidate_started e ctx tStart tEnd evalID db job Hjob Hstart).
  rewrite Hcv, Hpr, Hparser.
  cbn [Evaluator.ExtractTextWithMetaData PDFParser.pdfParserService].
  assert (Hmissing : PDFParser.ExtractTextWithMetaData fs (FilePath cvDoc)
                     = Err failure).
  { unfold PDFParser.ExtractTextWithMetaData. rewrite Hfile. reflexivity. }
  rewrite Hmissing.
  set (job1 := assignAll (startStatement tStart) job).
  assert (Hj1 : <[evalID := job1]> db !! evalID = Some job1) by apply lookup_insert_eq.
  destruct (failWith_job _ tEnd evalID job1 ("Failed to parse CV: " ++ failure)
              ("failed to parse CV: " ++ failure) Hj1)
    as [Hret [_ [job' [Hjob' [Hres [_ [Htaken Hrefused]]]]]]].
  split; [exact Hret|].
  exists job'. split; [exact Hjob'|]. split; [exact Hres|].
  split; [exact Htaken|].
  intros err Herr. rewrite (Hrefused err Herr). reflexivity.
Qed.

End RunMore.

Section RunMoreScenarios.
Import Repositories JobInvariant Evaluator Prompt Run Scenario PDFParser More.
Local Existing Instance reliable.
Local Existing Instance twoDecimals.
Local Existing Instance noDecoder.

(** A run on an identifier the table does not hold. *)
Lemma run_of_missing_evaluation_witness :
  queuedStore !! 2%N = None
  /\ updateError 2%N (startStatement 5) = None
  /\ EvaluateCandidate (serviceWith bothDocuments "ok") Gemini.Background 5 9 2%N
       queuedStore
     = (queuedStore, Some "failed to update status: evaluation not found").
Proof.
  assert (Hid : queuedStore !! 2%N = None) by reflexivity.
  assert (Hnone : updateError 2%N (startStatement 5) = None) by reflexivity.
  split; [exact Hid|]. split; [exact Hnone|].
  exact (proj1 (run_of_missing_evaluation (serviceWith bothDocuments "ok")
                  Gemini.Background 5 9 2%N queuedStore Hid) Hnone).
Defined.


(** The queued job on a service configured with [maxRetries = 0]. *)
Lemma run_without_retry_budget_witness :
  maxRetries noBudget <= 0
  /\ queuedStore !! 1%N = Some queuedJob
  /\ starts 1%N 5
  /\ snd (EvaluateCandidate noBudget Gemini.Background 5 9 1%N queuedStore)
     = Some ("failed to evaluate CV: failed to generate CV evaluation: "
             ++ "failed after 0 attempts: %!w(<nil>)").
Proof.
  assert (Hn : maxRetries noBudget <= 0) by (cbn; lia).
  assert (Hid : queuedStore !! 1%N = Some queuedJob) by reflexivity.
  assert (Hstart : starts 1%N 5) by (split; reflexivity).
  split; [exact Hn|]. split; [exact Hid|]. split; [exact Hstart|].
  destruct (run_without_retry_budget noBudget Gemini.Background failsTwice 5 9 1%N
              queuedStore queuedJob cvDocument projectDocument
              {| pdfText := "Ten years of Go."; PageCount := 1;
                 pdfFilePath := "uploads/cv.pdf" |}
              {| pdfText := "Ten years of Go."; PageCount := 1;
                 pdfFilePath := "uploads/report.pdf" |}
              eq_refl Hn Hid Hstart eq_refl eq_refl eq_refl eq_refl)
    as [_ [Hret _]].
  exact Hret.
Defined.

(** The queued job on a disk without its documents. *)
Lemma run_on_missing_CV_file_witness :
  queuedStore !! 1%N = Some queuedJob
  /\ starts 1%N 5
  /\ scanOnly (FilePath cvDocument) = NotExist
  /\ snd (EvaluateCandidate serviceOnDisk Gemini.Background 5 9 1%N queuedStore)
     = Some "failed to parse CV: file does not exist: uploads/cv.pdf".
Proof.
  assert (Hid : queuedStore !! 1%N = Some queuedJob) by reflexivity.
  assert (Hstart : starts 1%N 5) by (split; reflexivity).
  assert (Hfile : scanOnly (FilePath cvDocument) = NotExist) by reflexivity.
  split; [exact Hid|]. split; [exact Hstart|]. split; [exact Hfile|].
  destruct (run_on_missing_CV_file serviceOnDisk Gemini.Background scanOnly 5 9 1%N
              queuedStore queuedJob cvDocument projectDocument
              eq_refl Hid Hstart eq_refl eq_refl Hfile)
    as [Hret _].
  exact Hret.
Defined.

End RunMoreScenarios.

(** ** The client of the generation service *)

Section GeminiMore.
Import Gemini Run More.
Variable g : geminiService.
Variable ctx : Context.
Variable k0 : nat.
Variable prompt : string.
Variable temperature : float.
Variable maxRetries : Z.

Local Abbreviation attempt i := (GenerateText g (k0 + i) prompt temperature).
Local Abbreviation loop := (retryLoop g ctx k0 prompt temperature maxRetries).

(** What the loop returns after [calls] attempts, with [remaining]
    iterations left. *)
Lemma retryLoop_inversion (remaining calls : nat) (lastErr : option string) :
  (calls <= snd (loop remaining calls lastErr) <= calls + remaining)%nat
  /\ (forall result,
        fst (loop remaining calls lastErr) = Ok result ->
        exists k,
          snd (loop remaining calls lastErr) = S k /\ (calls <= k)%nat
          /\ attempt k = Ok result
          /\ forall i, (calls <= i < k)%nat ->
               isOk (attempt i) = false /\ Done ctx (S i) = None).
Proof.
  revert calls lastErr. induction remaining as [|remaining IH]; intros calls lastErr.
  - cbn [retryLoop fst snd]. split; [lia | discriminate].
  - cbn [retryLoop]. destruct (attempt calls) as [text|err] eqn:Hatt.
    + cbn [fst snd]. split; [lia|]. intros result [= <-].
      exists calls. repeat split; try lia. exact Hatt.
    + destruct (Done ctx (S calls)) as [ctxErr|] eqn:Hdone.
      * cbn [fst snd]. split; [lia | discriminate].
      * destruct (IH (S calls) (Some err)) as [Hb Hok]. split; [lia|].
        intros result Hres. destruct (Hok result Hres) as [k [Hk [Hle [Hatk Hfail]]]].
        exists k. repeat split; try assumption; try lia;
          destruct (Nat.eq_dec i calls) as [->|Hne];
          try (apply Hfail; lia); [rewrite Hatt; reflexivity | exact Hdone].
Qed.

(** X10: [GenerateTextWithRetry] makes at most [maxRetries] attempts, and no
    attempt after one that succeeds: a text it returns is the answer of
    the last attempt made, every attempt before it failed, and the
    context was not found cancelled in between. *)
Theorem GenerateTextWithRetry_returns_first_success :
  (snd (GenerateTextWithRetry g ctx k0 prompt temperature maxRetries)
   <= Z.to_nat maxRetries)%nat
  /\ (forall result,
        fst (GenerateTextWithRetry g ctx k0 prompt temperature maxRetries) = Ok result ->
        exists k,
          snd (GenerateTextWithRetry g ctx k0 prompt temperature maxRetries) = S k
          /\ attempt k = Ok result
          /\ forall i, (i < k)%nat ->
               isOk (attempt i) = false /\ Done ctx (S i) = None).
Proof.
  unfold GenerateTextWithRetry.
  destruct (retryLoop_inversion (Z.to_nat maxRetries) O None) as [Hb Hok].
  split; [lia|]. intros result Hres.
  destruct (Hok result Hres) as [k [Hk [_ [Hatk Hfail]]]].
  exists k. repeat split; try assumption; apply Hfail; lia.
Qed.

(** X11: With a budget of no attempt, zero or negative, the client is never
    called and the call fails; its message wraps a nil error, which
    [fmt] prints as [%!w(<nil>)]. *)
Theorem GenerateTextWithRetry_without_budget :
  maxRetries <= 0 ->
  GenerateTextWithRetry g ctx k0 prompt temperature maxRetries
  = (Err ("failed after " ++ Itoa maxRetries ++ " attempts: %!w(<nil>)"), O).
Proof.
  intros Hn. unfold GenerateTextWithRetry.
  replace (Z.to_nat maxRetries) with O by lia. reflexivity.
Qed.

Lemma take_length (n : nat) (s : string) :
  (String.length s <= n)%nat -> take n s = s.
Proof.
  revert s. induction n as [|n IH]; intros [|c s] Hs; cbn [take String.length] in *;
    try reflexivity; [lia|]. f_equal. apply IH. lia.
Qed.

Lemma length_take (n : nat) (s : string) : (String.length (take n s) <= n)%nat.
Proof.
  revert s. induction n as [|n IH]; intros [|c s]; cbn [take String.length];
    try lia. specialize (IH s). lia.
Qed.

Lemma GenerateEmbedding_take (text : string) :
  GenerateEmbedding g text = GenerateEmbedding g (take (Z.to_nat 40000) text).
Proof.
  unfold GenerateEmbedding.
  assert (Hshort : (len (take (Z.to_nat 40000) text) >? 40000) = false).
  { rewrite Z.gtb_ltb. apply Z.ltb_ge. unfold len.
    pose proof (length_take (Z.to_nat 40000) text). lia. }
  rewrite Hshort.
  destruct (len text >? 40000) eqn:Hlen; [reflexivity|].
  apply gtb_false in Hlen. rewrite take_length; [reflexivity|]. unfold len in Hlen. lia.
Qed.

(** X12: [GenerateEmbedding] embeds the first 40000 bytes of a text and
    nothing else: the result is that of the text cut there, and what
    follows 40000 bytes does not change it. *)
Theorem GenerateEmbedding_reads_first_40000_bytes (text : string) :
  GenerateEmbedding g text = GenerateEmbedding g (take (Z.to_nat 40000) text)
  /\ (forall rest rest',
        len text = 40000 ->
        GenerateEmbedding g (text ++ rest) = GenerateEmbedding g (text ++ rest')).
Proof.
  split; [apply GenerateEmbedding_take|].
  intros rest rest' Hlen.
  rewrite (GenerateEmbedding_take (text ++ rest)),
    (GenerateEmbedding_take (text ++ rest')).
  replace (Z.to_nat 40000) with (String.length text) by (unfold len in Hlen; lia).
  rewrite !take_append. reflexivity.
Qed.

End GeminiMore.

Section GeminiMoreScenarios.
Import Gemini Run More Scenario.

(** A budget of zero attempts on a client whose third answer would
    succeed. *)
Lemma GenerateTextWithRetry_without_budget_witness :
  0 <= 0
  /\ GenerateTextWithRetry failsTwice Background 2 "prompt" Evaluator.temperatureEval 0
     = (Err "failed after 0 attempts: %!w(<nil>)", O).
Proof.
  split; [lia|].
  apply (GenerateTextWithRetry_without_budget failsTwice Background 2 "prompt"
           Evaluator.temperatureEval 0). lia.
Defined.

End GeminiMoreScenarios.

(** ** The worker pool, further *)

Section PoolMore.
Import Worker Pool More.

Ltac step_cases Hstep :=
  cbn [step] in Hstep;
  repeat match type of Hstep with
    | context [match ?x with _ => _ end] => destruct x eqn:?; try discriminate
    end;
  injection Hstep as <-.

Lemma queue_step (ev : event) (w w' : worker) :
  Z.of_nat (List.length (jobQueue w)) <= queueCapacity ->
  step ev w = Some w' ->
  Z.of_nat (List.length (jobQueue w')) <= queueCapacity.
Proof.
  intros Hq Hstep.
  destruct ev; step_cases Hstep; cbn [jobQueue withLoop withPoller];
    try exact Hq; unfold hasRoom in *.
  - cbn [List.length] in Hq. lia.
  - rewrite List.length_app. cbn [List.length].
    match goal with H : (_ <? _) = true |- _ => apply Z.ltb_lt in H end. lia.
  - rewrite List.length_app. cbn [List.length].
    match goal with H : (_ <? _) = true |- _ => apply Z.ltb_lt in H end. lia.
Qed.

Lemma loops_step (ev : event) (w w' : worker) :
  step ev w = Some w' -> List.length (loops w') = List.length (loops w).
Proof.
  intros Hstep.
  destruct ev; step_cases Hstep; cbn [loops withLoop withPoller];
    try reflexivity; apply length_insert.
Qed.

Lemma inFlight_bounds (ls : list workerState) :
  0 <= inFlight ls <= Z.of_nat (List.length ls).
Proof.
  induction ls as [|s ls IH]; cbn [inFlight List.length]; [lia|].
  destruct s; lia.
Qed.

Lemma inFlight_Exited (ls : list workerState) :
  Forall (fun s => s = Exited) ls -> inFlight ls = 0.
Proof.
  induction 1 as [|s ls Hs _ IH]; [reflexivity|]. subst s. exact IH.
Qed.

Lemma run_invariant (P : worker -> Prop) :
  (forall ev w w', P w -> step ev w = Some w' -> P w') ->
  forall evs w w', P w -> run evs w = Some w' -> P w'.
Proof.
  intros Hstep evs. induction evs as [|ev evs IH]; intros w w' Hw Hrun;
    cbn [run] in Hrun.
  - injection Hrun as <-. exact Hw.
  - destruct (step ev w) as [w1|] eqn:Hev; [|discriminate].
    apply (IH w1); [apply (Hstep ev w) | ]; assumption.
Qed.

(** X13: The queue never holds more than its capacity of 100 jobs: a job
    enters it, from a handler or from the poller, only while there is
    room. *)
Theorem jobQueue_within_capacity (concurrency : nat) (w : worker) :
  reachable concurrency w ->
  Z.of_nat (List.length (jobQueue w)) <= 100.
Proof.
  intros [evs Hrun].
  apply (run_invariant (fun w => Z.of_nat (List.length (jobQueue w)) <= queueCapacity)
           queue_step evs (Start concurrency) w); [|exact Hrun].
  cbn. unfold queueCapacity. lia.
Qed.

(** X14: The pool has the [concurrency] loops that [Start] launched and no
    other, so at most [concurrency] jobs are being processed at any
    time. *)
Theorem jobs_in_flight_within_concurrency (concurrency : nat) (w : worker) :
  reachable concurrency w ->
  List.length (loops w) = concurrency
  /\ 0 <= inFlight (loops w) <= Z.of_nat concurrency.
Proof.
  intros [evs Hrun].
  assert (Hlen : List.length (loops w) = concurrency).
  { apply (run_invariant (fun w => List.length (loops w) = concurrency)) 
      with (evs := evs) (w := Start concurrency); [| |exact Hrun].
    - intros ev w1 w2 Hw Hstep. rewrite (loops_step ev w1 w2 Hstep). exact Hw.
    - cbn. apply repeat_length. }
  split; [exact Hlen|]. rewrite <- Hlen. apply inFlight_bounds.
Qed.

(** X15: A pool started with no worker loop never processes a job: no run
    has an event in which a job is taken off the queue. *)
Theorem no_loop_no_job (evs : list event) (w : worker) :
  run evs (Start 0) = Some w ->
  forallb (fun ev => negb (startsJob ev)) evs = true.
Proof.
  assert (Hgen : forall evs w0 w, loops w0 = [] -> run evs w0 = Some w ->
                   forallb (fun ev => negb (startsJob ev)) evs = true).
  { clear. intros evs. induction evs as [|ev evs IH]; intros w0 w Hl Hrun;
      [reflexivity|]. cbn [run] in Hrun.
    destruct (step ev w0) as [w1|] eqn:Hstep; [|discriminate].
    cbn [forallb]. apply andb_true_intro. split.
    - destruct ev; try reflexivity. cbn [step] in Hstep. rewrite Hl in Hstep.
      discriminate.
    - apply (IH w1 w); [|exact Hrun].
      pose proof (loops_step ev w0 w1 Hstep) as Hlen. rewrite Hl in Hlen.
      destruct (loops w1); [reflexivity | discriminate]. }
  intros Hrun. apply (Hgen evs (Start 0) w); [reflexivity | exact Hrun].
Qed.

Lemma stopped_step (ev : event) (w w' : worker) :
  stopped w -> step ev w = Some w' ->
  isSubmit ev = true /\ stopped w' /\ loops w' = loops w
  /\ exists added, jobQueue w' = (jobQueue w ++ added)%list.
Proof.
  intros [Hs [Hl Hp]] Hstep.
  assert (Hex : forall i s, loops w !! i = Some s -> s = Exited).
  { intros i s Hi. exact (Forall_lookup_1 _ _ _ _ Hl Hi). }
  destruct ev; cbn [step] in Hstep;
    try (destruct (loops w !! i) as [s|] eqn:Hi; [|discriminate];
         rewrite (Hex i s Hi) in Hstep; discriminate);
    try (rewrite Hp in Hstep; discriminate);
    try (rewrite Hs in Hstep; discriminate).
  destruct (hasRoom w); [|discriminate]. injection Hstep as <-.
  split; [reflexivity|]. split; [|split; [reflexivity|]].
  - repeat split; cbn; assumption.
  - eexists. reflexivity.
Qed.

Lemma stopped_run (evs : list event) (w w' : worker) :
  stopped w -> run evs w = Some w' ->
  forallb isSubmit evs = true /\ stopped w' /\ loops w' = loops w
  /\ exists added, jobQueue w' = (jobQueue w ++ added)%list.
Proof.
  revert w. induction evs as [|ev evs IH]; intros w Hw Hrun; cbn [run] in Hrun.
  - injection Hrun as <-. repeat split; try apply Hw.
    exists []. rewrite app_nil_r. reflexivity.
  - destruct (step ev w) as [w1|] eqn:Hstep; [|discriminate].
    destruct (stopped_step ev w w1 Hw Hstep) as [Hev [Hw1 [Hl1 [a1 Hq1]]]].
    destruct (IH w1 Hw1 Hrun) as [Hevs [Hw' [Hl' [a Hq']]]].
    split; [cbn [forallb]; rewrite Hev, Hevs; reflexivity|].
    split; [exact Hw'|]. split; [congruence|].
    exists (a1 ++ a)%list. rewrite Hq', Hq1, <- app_assoc. reflexivity.
Qed.

(** X16: Once [Stop] has returned the pool is over: the only thing that can
    still happen is a handler's job entering the queue, and such a job
    is never taken off it; every loop and the poller stay returned and
    no job is in flight. *)
Theorem after_Stop_returns_nothing_runs (concurrency : nat) (w : worker)
  (evs : list event) (w' : worker) :
  reachable concurrency w ->
  stopCall w = StopReturned ->
  run evs w = Some w' ->
  forallb isSubmit evs = true
  /\ loops w' = loops w
  /\ inFlight (loops w') = 0
  /\ poller w' = PollerExited
  /\ stopCall w' = StopReturned
  /\ exists added, jobQueue w' = (jobQueue w ++ added)%list.
Proof.
  intros [evs0 Hrun0] Hs Hrun.
  pose proof (poolInv_run evs0 _ _ (poolInv_Start concurrency) Hrun0) as [Hwg Hret].
  specialize (Hret Hs). rewrite Hret in Hwg. unfold live in Hwg.
  pose proof (liveLoops_nonneg (loops w)).
  assert (liveLoops (loops w) = 0 /\ livePoller (poller w) = 0) as [Hl Hp]
    by (destruct (poller w); cbn in *; lia).
  assert (Hw : stopped w).
  { split; [exact Hs|]. split; [apply liveLoops_zero; exact Hl|].
    destruct (poller w); cbn in Hp; try lia. reflexivity. }
  destruct (stopped_run evs w w' Hw Hrun) as [Hevs [[Hs' [Hl' Hp']] [Hloops Hq]]].
  repeat split; try assumption. apply inFlight_Exited. exact Hl'.
Qed.

Lemma reachable_lateStart :
  reachable 1 {| jobQueue := []; stopChan := true; wg := 2;
                 loops := [Processing 7%N]; poller := PollerAtSelect;
                 stopCall := StopWaiting |}.
Proof. exists lateStart. reflexivity. Defined.

(** The queue of the pool after its shutdown. *)
Lemma jobQueue_within_capacity_witness :
  reachable 2 afterShutdown
  /\ Z.of_nat (List.length (jobQueue afterShutdown)) <= 100.
Proof.
  split; [exact reachable_afterShutdown|].
  exact (jobQueue_within_capacity 2 afterShutdown reachable_afterShutdown).
Defined.

(** A pool of one loop with its one job in flight. *)
Lemma jobs_in_flight_within_concurrency_witness :
  reachable 1 {| jobQueue := []; stopChan := true; wg := 2;
                 loops := [Processing 7%N]; poller := PollerAtSelect;
                 stopCall := StopWaiting |}
  /\ inFlight [Processing 7%N] = 1
  /\ inFlight [Processing 7%N] <= 1.
Proof.
  split; [exact reachable_lateStart|]. split; [reflexivity|].
  apply (jobs_in_flight_within_concurrency 1 _ reachable_lateStart).
Defined.

(** A pool without loops that is stopped with a job in its queue. *)
Lemma no_loop_no_job_witness :
  run idlePool (Start 0)
  = Some {| jobQueue := [7%N]; stopChan := true; wg := 0; loops := [];
            poller := PollerExited; stopCall := StopReturned |}
  /\ forallb (fun ev => negb (startsJob ev)) idlePool = true.
Proof.
  assert (Hrun : run idlePool (Start 0)
                 = Some {| jobQueue := [7%N]; stopChan := true; wg := 0; loops := [];
                           poller := PollerExited; stopCall := StopReturned |})
    by reflexivity.
  split; [exact Hrun|]. exact (no_loop_no_job idlePool _ Hrun).
Defined.

(** A job submitted after the shutdown stays in the queue. *)
Lemma after_Stop_returns_nothing_runs_witness :
  reachable 2 afterShutdown
  /\ stopCall afterShutdown = StopReturned
  /\ run lateSubmit afterShutdown
     = Some {| jobQueue := [8%N]; stopChan := true; wg := 0;
               loops := [Exited; Exited]; poller := PollerExited;
               stopCall := StopReturned |}
  /\ inFlight [Exited; Exited] = 0.
Proof.
  assert (Hrun : run lateSubmit afterShutdown
                 = Some {| jobQueue := [8%N]; stopChan := true; wg := 0;
                           loops := [Exited; Exited]; poller := PollerExited;
                           stopCall := StopReturned |}) by reflexivity.
  split; [exact reachable_afterShutdown|]. split; [reflexivity|].
  split; [exact Hrun|].
  destruct (after_Stop_returns_nothing_runs 2 afterShutdown lateSubmit _
              reachable_afterShutdown eq_refl Hrun) as [_ [_ [Hin _]]].
  exact Hin.
Defined.

End PoolMore.

(** ** The chunker, further *)

Section ChunkerMore.
Import Chunker ChunkLayout More.

Lemma renderGroup_prefix (g : list unit) (seed : string) :
  exists rest, renderGroup seed g = seed ++ rest.
Proof.
  unfold renderGroup. revert seed. induction g as [|u g IH]; intros seed.
  - exists EmptyString. cbn [fold_left]. rewrite append_nil_r. reflexivity.
  - cbn [fold_left]. destruct (IH (writeUnit seed u)) as [rest ->].
    unfold writeUnit. destruct (len seed >? 0);
      eexists; rewrite ?append_assoc; reflexivity.
Qed.

Lemma renderGroup_nonempty (g : list unit) (seed : string) :
  g <> [] ->
  Forall (fun u : unit => isEmpty (snd u) = false) g ->
  isEmpty (renderGroup seed g) = false.
Proof.
  intros Hg Hus. destruct g as [|u g]; [congruence|].
  inversion Hus as [|? ? Hu _]; subst.
  change (renderGroup seed (u :: g)) with (renderGroup (writeUnit seed u) g).
  destruct (renderGroup_prefix g (writeUnit seed u)) as [rest ->].
  apply isEmpty_append_l, len_pos_isEmpty, len_writeUnit_pos. exact Hu.
Qed.

Lemma layoutFrom_length (overlap : Z) (prev : option string)
  (groups : list (list unit)) :
  List.length (layoutFrom overlap prev groups) = List.length groups.
Proof.
  revert prev. induction groups as [|g groups IH]; intros prev; [reflexivity|].
  cbn [layoutFrom List.length]. rewrite IH. reflexivity.
Qed.

Lemma layoutFrom_nonempty (overlap : Z) (prev : option string)
  (groups : list (list unit)) :
  Forall (fun g => g <> []) groups ->
  Forall (Forall (fun u : unit => isEmpty (snd u) = false)) groups ->
  Forall (fun c => isEmpty c = false) (layoutFrom overlap prev groups).
Proof.
  revert prev. induction groups as [|g groups IH]; intros prev Hgs Hus;
    [constructor|].
  inversion Hgs; inversion Hus; subst. cbn [layoutFrom]. constructor.
  - apply renderGroup_nonempty; assumption.
  - apply IH; assumption.
Qed.

Lemma concat_length_groups (groups : list (list unit)) :
  Forall (fun g => g <> []) groups ->
  (List.length groups <= List.length (concat groups))%nat.
Proof.
  induction 1 as [|g groups Hg _ IH]; [reflexivity|].
  cbn [concat List.length]. rewrite List.length_app.
  destruct g; [congruence|]. cbn [List.length]. lia.
Qed.

(** The chunks as the layout of groups of non-empty units. *)
Lemma ChunkText_groups (text : string) (maxChunkSize overlap : Z) :
  exists groups,
    concat groups = units (effMax maxChunkSize) text
    /\ Forall (fun g => g <> []) groups
    /\ Forall (Forall (fun u : unit => isEmpty (snd u) = false)) groups
    /\ ChunkText text maxChunkSize overlap
       = layoutFrom (effOverlap maxChunkSize overlap) None groups.
Proof.
  destruct (ChunkText_layout text maxChunkSize overlap)
    as [groups [Hus [Hgs [Heq _]]]].
  exists groups. repeat split; try assumption.
  apply Forall_concat. rewrite Hus. apply units_nonempty.
Qed.

(** X17: No chunk is empty, there are at most as many chunks as the text has
    units, and no chunk at all exactly when the text has no unit. *)
Theorem ChunkText_chunks_nonempty (text : string) (maxChunkSize overlap : Z) :
  Forall (fun c => isEmpty c = false) (ChunkText text maxChunkSize overlap)
  /\ (List.length (ChunkText text maxChunkSize overlap)
      <= List.length (units (effMax maxChunkSize) text))%nat
  /\ (ChunkText text maxChunkSize overlap = []
      <-> units (effMax maxChunkSize) text = []).
Proof.
  destruct (ChunkText_groups text maxChunkSize overlap)
    as [groups [Hus [Hgs [Hne ->]]]].
  split; [apply layoutFrom_nonempty; assumption|].
  rewrite <- Hus. split.
  - rewrite layoutFrom_length. apply concat_length_groups. exact Hgs.
  - split.
    + intros Hnil. apply (f_equal (@List.length _)) in Hnil.
      rewrite layoutFrom_length in Hnil. destruct groups; [reflexivity|discriminate].
    + intros Hnil. destruct groups as [|g groups]; [reflexivity|].
      inversion Hgs; subst. destruct g; [congruence | discriminate].
Qed.

Lemma effMax_pos (maxChunkSize : Z) : 0 < effMax maxChunkSize.
Proof. unfold effMax. destruct (Z.leb_spec maxChunkSize 0); lia. Qed.

Lemma effOverlap_bounds (maxChunkSize overlap : Z) :
  0 <= effOverlap maxChunkSize overlap < effMax maxChunkSize.
Proof.
  unfold effOverlap. pose proof (effMax_pos maxChunkSize) as Hm.
  destruct (Z.ltb_spec overlap 0).
  - destruct (Z.geb_spec 0 (effMax maxChunkSize)); [lia|]. lia.
  - destruct (Z.geb_spec overlap (effMax maxChunkSize)); [|lia].
    split; [apply Z.quot_pos; lia | apply Z.quot_lt; lia].
Qed.

(** X18: The sizes [ChunkText] works with: a size that is not positive stands
    for 1000, a negative overlap for none, and an overlap that is not
    below the size for a quarter of the size.  The overlap in effect is
    always below the size in effect, and calling with the sizes in
    effect changes nothing. *)
Theorem ChunkText_sizes_in_effect (text : string) (maxChunkSize overlap : Z) :
  0 < effMax maxChunkSize
  /\ 0 <= effOverlap maxChunkSize overlap < effMax maxChunkSize
  /\ ChunkText text maxChunkSize overlap
     = ChunkText text (effMax maxChunkSize) (effOverlap maxChunkSize overlap).
Proof.
  pose proof (effMax_pos maxChunkSize) as Hm.
  pose proof (effOverlap_bounds maxChunkSize overlap) as Ho.
  split; [exact Hm|]. split; [exact Ho|].
  assert (Hmm : effMax (effMax maxChunkSize) = effMax maxChunkSize).
  { unfold effMax at 1. destruct (Z.leb_spec (effMax maxChunkSize) 0); [lia|reflexivity]. }
  assert (Hoo : effOverlap (effMax maxChunkSize) (effOverlap maxChunkSize overlap)
                = effOverlap maxChunkSize overlap).
  { unfold effOverlap at 1. rewrite Hmm.
    destruct (Z.ltb_spec (effOverlap maxChunkSize overlap) 0); [lia|].
    destruct (Z.geb_spec (effOverlap maxChunkSize overlap) (effMax maxChunkSize));
      [lia | reflexivity]. }
  unfold ChunkText. rewrite Hmm, Hoo. reflexivity.
Qed.

Lemma runesAux_nonempty (fuel : nat) (s : string) :
  Forall (fun r => isEmpty r = false) (runesAux fuel s).
Proof.
  revert s. induction fuel as [|fuel IH]; intros s; [constructor|].
  cbn [runesAux]. destruct s as [|c r]; [constructor|].
  destruct (runeWidth (String c r)) as [|w]; constructor;
    try apply IH; reflexivity.
Qed.

Lemma ofRunes_nonempty (rs : list string) :
  rs <> [] -> Forall (fun r => isEmpty r = false) rs -> isEmpty (ofRunes rs) = false.
Proof.
  intros Hne Hrs. destruct rs as [|r rs]; [congruence|].
  inversion Hrs; subst. cbn [ofRunes fold_right]. apply isEmpty_append_l. assumption.
Qed.

Lemma getLastNChars_nonempty (text : string) (n : Z) :
  0 < n -> isEmpty text = false -> isEmpty (getLastNChars text n) = false.
Proof.
  intros Hn Htext. unfold getLastNChars.
  destruct (Z.leb_spec n 0); [lia|].
  destruct (Z.leb_spec (Z.of_nat (List.length (runes text))) n); [exact Htext|].
  apply ofRunes_nonempty.
  - intros Hnil. apply (f_equal (@List.length _)) in Hnil.
    rewrite List.length_skipn in Hnil. cbn [List.length] in Hnil. lia.
  - apply Forall_drop. apply runesAux_nonempty.
Qed.

Lemma layoutFrom_consecutive (overlap : Z) (p : option string)
  (groups : list (list unit)) (i : nat) (prev next : string) :
  layoutFrom overlap p groups !! i = Some prev ->
  layoutFrom overlap p groups !! S i = Some next ->
  exists g, groups !! S i = Some g
            /\ next = renderGroup (seedOf overlap (Some prev) g) g.
Proof.
  revert p i. induction groups as [|g0 groups IH]; intros p i Hprev Hnext;
    [discriminate|].
  cbn [layoutFrom] in Hprev, Hnext. destruct i as [|i].
  - cbn in Hprev. injection Hprev as <-.
    destruct groups as [|g1 groups]; [discriminate|].
    cbn in Hnext. injection Hnext as <-. exists g1. split; reflexivity.
  - destruct (IH (Some (renderGroup (seedOf overlap p g0) g0)) i Hprev Hnext)
      as [g [Hg Heq]].
    exists g. split; [exact Hg | exact Heq].
Qed.

(** X19: With an overlap in effect, every chunk after the first opens with
    the last characters of the chunk before it, as [getLastNChars] cuts
    them, followed by the separator of its first unit written twice: once
    after the overlap, once before the unit. *)
Theorem ChunkText_chunk_opens_with_overlap (text : string) (maxChunkSize overlap : Z)
  (i : nat) (prev next : string) :
  0 < effOverlap maxChunkSize overlap ->
  ChunkText text maxChunkSize overlap !! i = Some prev ->
  ChunkText text maxChunkSize overlap !! S i = Some next ->
  isEmpty (getLastNChars prev (effOverlap maxChunkSize overlap)) = false
  /\ exists sep rest,
       (sep = spaceSep \/ sep = paraSep)
       /\ isEmpty rest = false
       /\ next = getLastNChars prev (effOverlap maxChunkSize overlap)
                 ++ sep ++ sep ++ rest.
Proof.
  intros Ho Hprev Hnext.
  destruct (ChunkText_groups text maxChunkSize overlap)
    as [groups [Hus [Hgs [Hne Heq]]]].
  assert (Hpne : isEmpty prev = false).
  { pose proof (layoutFrom_nonempty (effOverlap maxChunkSize overlap) None groups
                  Hgs Hne) as Hall.
    rewrite <- Heq in Hall. exact (Forall_lookup_1 _ _ _ _ Hall Hprev). }
  pose proof (getLastNChars_nonempty prev _ Ho Hpne) as Hov.
  split; [exact Hov|].
  rewrite Heq in Hprev, Hnext.
  destruct (layoutFrom_consecutive _ _ _ _ _ _ Hprev Hnext) as [g [Hg ->]].
  pose proof (Forall_lookup_1 _ _ _ _ Hgs Hg) as Hgne.
  pose proof (Forall_lookup_1 _ _ _ _ Hne Hg) as Hgus.
  destruct g as [|u g]; [congruence|]. inversion Hgus as [|? ? Hu _]; subst.
  cbn [seedOf]. unfold seedFor.
  replace (0 <? effOverlap maxChunkSize overlap) with true
    by (symmetry; apply Z.ltb_lt; exact Ho).
  cbn zeta. rewrite Hov.
  change (renderGroup ?seed (u :: g)) with (renderGroup (writeUnit seed u) g).
  destruct (renderGroup_prefix g
              (writeUnit (getLastNChars prev (effOverlap maxChunkSize overlap)
                          ++ sepOf (fst u)) u)) as [rest ->].
  unfold writeUnit.
  replace (len (getLastNChars prev (effOverlap maxChunkSize overlap) ++ sepOf (fst u))
           >? 0) with true.
  - exists (sepOf (fst u)), (snd u ++ rest). split; [destruct (fst u); auto|].
    split; [apply isEmpty_append_l; exact Hu|].
    rewrite !append_assoc. reflexivity.
  - symmetry. rewrite Z.gtb_ltb. apply Z.ltb_lt. rewrite len_append.
    apply isEmpty_false_len in Hov. pose proof (len_nonneg (sepOf (fst u))). lia.
Qed.

(** The overlap between the two chunks of a text of two sentences. *)
Lemma ChunkText_chunk_opens_with_overlap_witness :
  0 < effOverlap 10 3
  /\ ChunkText "Hello world. Bye now!" 10 3 !! 0%nat = Some "Hello world"
  /\ ChunkText "Hello world. Bye now!" 10 3 !! 1%nat = Some "rld  Bye now"
  /\ isEmpty (getLastNChars "Hello world" (effOverlap 10 3)) = false.
Proof.
  assert (Ho : 0 < effOverlap 10 3) by (vm_compute; reflexivity).
  assert (H0 : ChunkText "Hello world. Bye now!" 10 3 !! 0%nat = Some "Hello world")
    by (vm_compute; reflexivity).
  assert (H1 : ChunkText "Hello world. Bye now!" 10 3 !! 1%nat = Some "rld  Bye now")
    by (vm_compute; reflexivity).
  split; [exact Ho|]. split; [exact H0|]. split; [exact H1|].
  exact (proj1 (ChunkText_chunk_opens_with_overlap "Hello world. Bye now!" 10 3 0
                  "Hello world" "rld  Bye now" Ho H0 H1)).
Defined.

End ChunkerMore.

(** ** The helpers of the chunker *)

Section ChunkerHelpers.
Import Chunker More.
Local Arguments append : simpl nomatch.

Lemma take_drop (n : nat) (s : string) : take n s ++ drop n s = s.
Proof.
  revert s. induction n as [|n IH]; intros [|c s]; cbn [take drop append];
    try reflexivity. f_equal. apply IH.
Qed.

Lemma ofRunes_app (a b : list string) :
  ofRunes (a ++ b)%list = ofRunes a ++ ofRunes b.
Proof.
  unfold ofRunes. induction a as [|r a IH]; cbn [fold_right app]; [reflexivity|].
  change (fold_right append EmptyString (a ++ b)%list) with (ofRunes (a ++ b)%list).
  unfold ofRunes. rewrite IH, append_assoc. reflexivity.
Qed.

(** [string([]rune(s)) == s] for a valid [s]. *)
Lemma ofRunes_runesAux (fuel : nat) (s : string) :
  validAux fuel s = true -> ofRunes (runesAux fuel s) = s.
Proof.
  revert s. induction fuel as [|fuel IH]; intros s Hv.
  - destruct s; [reflexivity | discriminate].
  - destruct s as [|c r]; [reflexivity|]. cbn [validAux runesAux] in *.
    destruct (runeWidth (String c r)) as [|w]; [discriminate|].
    cbn [ofRunes fold_right].
    change (fold_right append EmptyString (runesAux fuel (drop (S w) (String c r))))
      with (ofRunes (runesAux fuel (drop (S w) (String c r)))).
    rewrite (IH _ Hv). apply take_drop.
Qed.

(** X20: On a text that is valid UTF-8, [getLastNChars] returns an end of
    the text, whatever [n] is; on a non-empty text and for [n > 0] what
    it returns is not empty. *)
Theorem getLastNChars_is_suffix (text : string) (n : Z) :
  ValidString text = true ->
  (exists before, text = before ++ getLastNChars text n)
  /\ (0 < n -> isEmpty text = false -> isEmpty (getLastNChars text n) = false).
Proof.
  intros Hv. split.
  - unfold getLastNChars. destruct (n <=? 0).
    + exists text. rewrite append_nil_r. reflexivity.
    + destruct (Z.of_nat (List.length (runes text)) <=? n).
      * exists EmptyString. reflexivity.
      * exists (ofRunes (firstn (List.length (runes text) - Z.to_nat n) (runes text))).
        rewrite <- ofRunes_app, firstn_skipn. symmetry.
        apply ofRunes_runesAux. exact Hv.
  - intros Hn Htext. apply getLastNChars_nonempty; assumption.
Qed.

(** The last two characters of a text with a two-byte letter. *)
Lemma getLastNChars_is_suffix_witness :
  ValidString ("caf" ++ bytes [195; 169]%nat ++ "s") = true
  /\ getLastNChars ("caf" ++ bytes [195; 169]%nat ++ "s") 2
     = bytes [195; 169]%nat ++ "s"
  /\ exists before,
       "caf" ++ bytes [195; 169]%nat ++ "s"
       = before ++ getLastNChars ("caf" ++ bytes [195; 169]%nat ++ "s") 2.
Proof.
  assert (Hv : ValidString ("caf" ++ bytes [195; 169]%nat ++ "s") = true)
    by (vm_compute; reflexivity).
  split; [exact Hv|]. split; [vm_compute; reflexivity|].
  exact (proj1 (getLastNChars_is_suffix _ 2 Hv)).
Defined.

Lemma noByte_append (f : ascii -> bool) (a b : string) :
  noByte f (a ++ b) = noByte f a && noByte f b.
Proof.
  induction a as [|c a IH]; cbn [append noByte andb]; [reflexivity|].
  rewrite IH, andb_assoc. reflexivity.
Qed.

Lemma noByte_rev (f : ascii -> bool) (s : string) : noByte f (rev s) = noByte f s.
Proof.
  induction s as [|c s IH]; [reflexivity|].
  cbn [rev noByte]. rewrite noByte_append, IH. cbn [noByte].
  rewrite andb_true_r, andb_comm. reflexivity.
Qed.

Lemma noByte_trimLeft (f : ascii -> bool) (s : string) :
  noByte f s = true -> noByte f (trimLeft s) = true.
Proof.
  assert (Hgen : forall n s, (String.length s <= n)%nat ->
                   noByte f s = true -> noByte f (trimLeft s) = true).
  { clear s. induction n as [|n IH]; intros s Hlen Hs.
    - destruct s; [reflexivity | cbn in Hlen; lia].
    - destruct s as [|c1 s1]; [reflexivity|]. cbn [trimLeft].
      cbn [String.length] in Hlen. pose proof Hs as Hs0.
      cbn [noByte] in Hs. apply andb_prop in Hs. destruct Hs as [_ Hs1].
      destruct (asciiSpace c1); [apply IH; [lia | exact Hs1]|].
      destruct s1 as [|c2 s2]; [exact Hs0|].
      cbn [String.length] in Hlen.
      cbn [noByte] in Hs1. apply andb_prop in Hs1. destruct Hs1 as [_ Hs2].
      destruct (space2 c1 c2); [apply IH; [lia | exact Hs2]|].
      destruct s2 as [|c3 s3]; [exact Hs0|].
      cbn [String.length] in Hlen.
      cbn [noByte] in Hs2. apply andb_prop in Hs2. destruct Hs2 as [_ Hs3].
      destruct (space3 c1 c2 c3); [apply IH; [lia | exact Hs3] | exact Hs0]. }
  apply (Hgen (String.length s)). lia.
Qed.

Lemma noByte_trimLeftRev (f : ascii -> bool) (s : string) :
  noByte f s = true -> noByte f (trimLeftRev s) = true.
Proof.
  assert (Hgen : forall n s, (String.length s <= n)%nat ->
                   noByte f s = true -> noByte f (trimLeftRev s) = true).
  { clear s. induction n as [|n IH]; intros s Hlen Hs.
    - destruct s; [reflexivity | cbn in Hlen; lia].
    - destruct s as [|c1 s1]; [reflexivity|]. cbn [trimLeftRev].
      cbn [String.length] in Hlen. pose proof Hs as Hs0.
      cbn [noByte] in Hs. apply andb_prop in Hs. destruct Hs as [_ Hs1].
      destruct (asciiSpace c1); [apply IH; [lia | exact Hs1]|].
      destruct s1 as [|c2 s2]; [exact Hs0|].
      cbn [String.length] in Hlen.
      cbn [noByte] in Hs1. apply andb_prop in Hs1. destruct Hs1 as [_ Hs2].
      destruct (space2 c2 c1); [apply IH; [lia | exact Hs2]|].
      destruct s2 as [|c3 s3]; [exact Hs0|].
      cbn [String.length] in Hlen.
      cbn [noByte] in Hs2. apply andb_prop in Hs2. destruct Hs2 as [_ Hs3].
      destruct (space3 c3 c2 c1); [apply IH; [lia | exact Hs3] | exact Hs0]. }
  apply (Hgen (String.length s)). lia.
Qed.

Lemma noByte_TrimSpace (f : ascii -> bool) (s : string) :
  noByte f s = true -> noByte f (TrimSpace s) = true.
Proof.
  intros Hs. unfold TrimSpace, trimRight.
  rewrite noByte_rev. apply noByte_trimLeftRev. rewrite noByte_rev.
  apply noByte_trimLeft. exact Hs.
Qed.

Lemma fieldsAux_noByte (f : ascii -> bool) (s acc : string) :
  noByte f acc = true -> Forall (fun p => noByte f p = true) (fieldsAux f acc s).
Proof.
  revert acc. induction s as [|c s IH]; intros acc Hacc; cbn [fieldsAux].
  - destruct (isEmpty acc); repeat constructor. exact Hacc.
  - destruct (f c) eqn:Hc.
    + apply Forall_app. split; [destruct (isEmpty acc); repeat constructor; exact Hacc|].
      apply IH. reflexivity.
    + apply IH. rewrite noByte_append, Hacc. cbn [noByte]. rewrite Hc. reflexivity.
Qed.

Lemma fieldsAux_one (f : ascii -> bool) (s acc : string) :
  noByte f s = true ->
  fieldsAux f acc s = if isEmpty (acc ++ s) then [] else [acc ++ s].
Proof.
  revert acc. induction s as [|c s IH]; intros acc Hs; cbn [fieldsAux].
  - rewrite append_nil_r. reflexivity.
  - cbn [noByte] in Hs. apply andb_prop in Hs. destruct Hs as [Hc Hs].
    apply negb_true_iff in Hc. rewrite Hc, (IH _ Hs), append_assoc. reflexivity.
Qed.

Lemma sentences_fold (P : string -> Prop) (l acc : list string) :
  Forall P acc ->
  Forall (fun s => isEmpty (TrimSpace s) = false -> P (TrimSpace s)) l ->
  Forall P
    (fold_left
       (fun result s =>
          let s := TrimSpace s in
          if isEmpty s then result else (result ++ [s])%list) l acc).
Proof.
  revert acc. induction l as [|s l IH]; intros acc Hacc Hl; [exact Hacc|].
  inversion Hl as [|? ? Hs Hl']; subst. cbn [fold_left]. apply IH; [|exact Hl'].
  cbn zeta. destruct (isEmpty (TrimSpace s)) eqn:He; [exact Hacc|].
  apply Forall_app. split; [exact Hacc | repeat constructor; apply Hs; reflexivity].
Qed.

(** X21: The sentences [splitIntoSentences] returns are not empty and hold
    none of the terminators [.], [!] and [?]; a text without terminator
    is one sentence, its trimmed self, or none when it is blank. *)
Theorem splitIntoSentences_sentences (text : string) :
  Forall (fun s => isEmpty s = false /\ noByte isSentenceEnd s = true)
    (splitIntoSentences text)
  /\ (noByte isSentenceEnd text = true ->
      splitIntoSentences text
      = if isEmpty (TrimSpace text) then [] else [TrimSpace text]).
Proof.
  split.
  - unfold splitIntoSentences. apply sentences_fold; [constructor|].
    unfold FieldsFunc.
    pose proof (fieldsAux_noByte isSentenceEnd text EmptyString eq_refl) as Hall.
    induction Hall as [|s l Hs _ IH]; constructor; [|exact IH].
    intros He. split; [exact He | apply noByte_TrimSpace; exact Hs].
  - intros Hfree. unfold splitIntoSentences, FieldsFunc.
    rewrite (fieldsAux_one _ _ _ Hfree). cbn [append].
    destruct text as [|c text]; [reflexivity|]. cbn [isEmpty fold_left].
    destruct (isEmpty (TrimSpace (String c text))); reflexivity.
Qed.

End ChunkerHelpers.

(** ** The extractor on a response without code fences *)

Section ExtractorMore.
Import Markdown Evaluator More.
Local Arguments append : simpl nomatch.

Lemma replaceAux_absent (q : ascii) (p new s : string) :
  freeOf q s = true -> replaceAux (String q p) new O s = s.
Proof.
  induction s as [|b s IH]; intros Hs; [reflexivity|].
  cbn [freeOf] in Hs. apply andb_prop in Hs. destruct Hs as [Hb Hs].
  apply negb_true_iff in Hb. rewrite Ascii.eqb_sym in Hb.
  cbn [replaceAux HasPrefix]. rewrite Hb. cbn [andb]. rewrite (IH Hs). reflexivity.
Qed.

Lemma indexAux_absent (sub : ascii) (s : string) (i : Z) :
  freeOf sub s = true -> indexAux (String sub EmptyString) i s = -1.
Proof.
  revert i. induction s as [|b s IH]; intros i Hs; [reflexivity|].
  cbn [freeOf] in Hs. apply andb_prop in Hs. destruct Hs as [Hb Hs].
  apply negb_true_iff in Hb. rewrite Ascii.eqb_sym in Hb.
  cbn [indexAux HasPrefix]. rewrite Hb. cbn [andb]. apply IH. exact Hs.
Qed.

Lemma fences_absent (text : string) :
  freeOf "`" text = true ->
  ReplaceAll (ReplaceAll text openingFence EmptyString) fence EmptyString = text.
Proof.
  intros Ht. unfold ReplaceAll, openingFence, fence.
  rewrite (replaceAux_absent "`" "``json" EmptyString text Ht).
  apply (replaceAux_absent "`" "``" EmptyString text Ht).
Qed.

(** X22: On a response without backtick nothing is removed, and the
    extractor returns: the text from the first opening brace to the last
    closing brace, whatever is around and between them, so an array of
    objects loses its brackets; without any opening brace, the text from
    the first opening bracket to the last closing bracket; without brace
    and bracket, the response as it is. *)
Theorem extractJSON_without_fences (text : string) :
  freeOf "`" text = true ->
  (forall a body b,
      text = a ++ object body ++ b ->
      freeOf "{" a = true -> freeOf "}" b = true ->
      extractJSON text = object body)
  /\ (forall a body b,
        freeOf "{" text = true ->
        text = a ++ "[" ++ body ++ "]" ++ b ->
        freeOf "[" a = true -> freeOf "]" b = true ->
        extractJSON text = "[" ++ body ++ "]")
  /\ (freeOf "{" text = true -> freeOf "[" text = true -> extractJSON text = text).
Proof.
  intros Ht. pose proof (fences_absent text Ht) as Hfen.
  assert (Hobj : freeOf "{" text = true ->
                 forall endObj,
                   (negb (Index text "{" =? -1) && negb (endObj =? -1)
                    && (endObj >? Index text "{")) = false).
  { intros Hno endObj. unfold Index. rewrite (indexAux_absent "{" text 0 Hno).
    reflexivity. }
  split; [|split].
  - intros a body b Heq Ha Hb. apply (extractJSON_between text a body b);
      [rewrite Hfen; exact Heq | exact Ha | exact Hb].
  - intros a body b Hno Heq Ha Hb. unfold extractJSON.
    change "```json" with openingFence. change "```" with fence. rewrite Hfen.
    cbv zeta. rewrite (Hobj Hno).
    assert (Hstart : Index text "[" = len a).
    { unfold Index. rewrite Heq.
      change (a ++ "[" ++ body ++ "]" ++ b) with (a ++ String "[" (body ++ "]" ++ b)).
      rewrite (indexAux_first "[" a (body ++ "]" ++ b) 0 Ha). lia. }
    assert (Hend : LastIndex text "]" = len a + len ("[" ++ body)).
    { unfold LastIndex. rewrite Heq.
      replace (a ++ "[" ++ body ++ "]" ++ b) with ((a ++ "[" ++ body) ++ String "]" b)
        by (rewrite !append_assoc; reflexivity).
      rewrite (lastIndexAux_last "]" (a ++ "[" ++ body) b 0 (-1) Hb).
      rewrite len_append. lia. }
    rewrite Hstart, Hend.
    pose proof (len_nonneg a). pose proof (len_nonneg ("[" ++ body)) as Hb0.
    assert (Hb1 : 0 < len ("[" ++ body))
      by (unfold len; cbn [append String.length]; lia).
    replace (negb (len a =? -1)) with true
      by (symmetry; apply negb_true_iff, Z.eqb_neq; lia).
    replace (negb (len a + len ("[" ++ body) =? -1)) with true
      by (symmetry; apply negb_true_iff, Z.eqb_neq; lia).
    replace (len a + len ("[" ++ body) >? len a) with true
      by (symmetry; rewrite Z.gtb_ltb; apply Z.ltb_lt; lia).
    cbn [andb]. rewrite Heq.
    replace (len a + len ("[" ++ body) + 1) with (len a + len ("[" ++ body ++ "]")).
    + replace (a ++ "[" ++ body ++ "]" ++ b) with (a ++ ("[" ++ body ++ "]") ++ b)
        by (rewrite !append_assoc; reflexivity).
      apply (slice_middle a ("[" ++ body ++ "]") b).
    + replace ("[" ++ body ++ "]") with (("[" ++ body) ++ "]")
        by (rewrite append_assoc; reflexivity).
      rewrite (len_append ("[" ++ body) "]"). unfold len at 3. cbn [String.length]. lia.
  - intros Hno Hnb. unfold extractJSON.
    change "```json" with openingFence. change "```" with fence. rewrite Hfen.
    cbv zeta. rewrite (Hobj Hno). unfold Index at 1.
    rewrite (indexAux_absent "[" text 0 Hnb). reflexivity.
Qed.

(** The array [[{"a":1},{"b":2}]] comes out without its brackets. *)
Lemma extractJSON_without_fences_witness :
  freeOf "`" ("[" ++ object twoObjects ++ "]") = true
  /\ extractJSON ("[" ++ object twoObjects ++ "]") = object twoObjects.
Proof.
  assert (Ht : freeOf "`" ("[" ++ object twoObjects ++ "]") = true)
    by (vm_compute; reflexivity).
  split; [exact Ht|].
  apply (proj1 (extractJSON_without_fences _ Ht) "[" twoObjects "]");
    reflexivity.
Defined.

End ExtractorMore.

(** ** The retrieved context and the prompts *)

Section ContextMore.
Import Evaluator Prompt Run More.
Local Arguments append : simpl nomatch.
Context `{GoFmt}.

Lemma HasPrefix_append_self (p t : string) : HasPrefix (p ++ t) p = true.
Proof.
  induction p as [|c p IH]; [reflexivity|].
  cbn [append HasPrefix]. rewrite Ascii.eqb_refl. exact IH.
Qed.

Lemma HasPrefix_append_l (a b sub : string) :
  HasPrefix a sub = true -> HasPrefix (a ++ b) sub = true.
Proof.
  revert a. induction sub as [|x sub IH]; intros a Ha; [reflexivity|].
  destruct a as [|y a]; [discriminate|]. cbn [append HasPrefix] in *.
  apply andb_prop in Ha. destruct Ha as [Hxy Ha].
  rewrite Hxy, (IH a Ha). reflexivity.
Qed.

Lemma Contains_prefix (s sub : string) : HasPrefix s sub = true -> Contains s sub = true.
Proof. intros Hp. destruct s; cbn [Contains]; rewrite Hp; reflexivity. Qed.

Lemma Contains_append_r (a s sub : string) :
  Contains s sub = true -> Contains (a ++ s) sub = true.
Proof.
  intros Hs. induction a as [|c a IH]; [exact Hs|].
  cbn [append Contains]. rewrite IH. apply orb_true_r.
Qed.

Lemma Contains_append_l (a b sub : string) :
  Contains a sub = true -> Contains (a ++ b) sub = true.
Proof.
  induction a as [|c a IH]; intros Ha.
  - cbn [Contains] in Ha. destruct sub; [|discriminate].
    apply Contains_prefix. reflexivity.
  - cbn [Contains] in Ha. cbn [append Contains].
    apply orb_prop in Ha. destruct Ha as [Ha|Ha].
    + change (String c (a ++ b)) with (String c a ++ b).
      rewrite (HasPrefix_append_l _ b _ Ha). reflexivity.
    + rewrite (IH Ha). apply orb_true_r.
Qed.

Lemma Contains_self (s : string) : Contains s s = true.
Proof.
  apply Contains_prefix. rewrite <- (append_nil_r s) at 1. apply HasPrefix_append_self.
Qed.

Lemma Join_Contains (parts : list string) (sep part sub : string) :
  In part parts -> Contains part sub = true -> Contains (Join parts sep) sub = true.
Proof.
  intros Hin Hsub. induction parts as [|p rest IH]; [destruct Hin|].
  destruct Hin as [->|Hin].
  - destruct rest; cbn [Join]; [exact Hsub | apply Contains_append_l; exact Hsub].
  - specialize (IH Hin). destruct rest as [|q rest]; [destruct Hin|].
    change (Join (p :: q :: rest) sep) with (p ++ sep ++ Join (q :: rest) sep).
    apply Contains_append_r, Contains_append_r. exact IH.
Qed.

Lemma concat_Contains (parts : list string) (part : string) :
  In part parts -> Contains (String.concat EmptyString parts) part = true.
Proof.
  intros Hin. induction parts as [|p rest IH]; [destruct Hin|].
  destruct Hin as [->|Hin].
  - destruct rest; cbn [String.concat]; [apply Contains_self|].
    apply Contains_append_l, Contains_self.
  - specialize (IH Hin). destruct rest as [|q rest]; [destruct Hin|].
    change (String.concat EmptyString (p :: q :: rest))
      with (p ++ EmptyString ++ String.concat EmptyString (q :: rest)).
    apply Contains_append_r, Contains_append_r. exact IH.
Qed.

Lemma formatParts_Contains (results : list SearchResult) (i : Z) (r : SearchResult) :
  In r results ->
  exists part, In part (formatParts i results)
               /\ Contains part (TrimSpace (Text r)) = true.
Proof.
  revert i. induction results as [|r0 rest IH]; intros i Hin; [destruct Hin|].
  cbn [formatParts]. destruct Hin as [->|Hin].
  - eexists. split; [left; reflexivity|].
    repeat apply Contains_append_r. apply Contains_self.
  - destruct (IH (i + 1) Hin) as [part [Hp Hc]].
    exists part. split; [right; exact Hp | exact Hc].
Qed.

Lemma FormatRAGContext_Contains (results : list SearchResult) (r : SearchResult) :
  In r results -> Contains (FormatRAGContext results) (TrimSpace (Text r)) = true.
Proof.
  intros Hin. unfold FormatRAGContext.
  destruct (Z.eqb_spec (Z.of_nat (List.length results)) 0) as [Hz|_].
  - destruct results; [destruct Hin | cbn [List.length] in Hz; lia].
  - destruct (formatParts_Contains results 0 r Hin) as [part [Hp Hc]].
    apply (Join_Contains _ _ part); assumption.
Qed.

Variable e : evaluatorService.
Variable ctx : Gemini.Context.

Lemma searches_flat_map (embedding : list float) (docTypes : list string)
  (acc : list SearchResult) :
  fold_left
    (fun allResults docType =>
       match SearchSimilar (qdrantService e) ctx embedding docType 3 with
       | Err _ => allResults
       | Ok results => (allResults ++ results)%list
       end) docTypes acc
  = (acc ++ flat_map
              (fun docType => found (SearchSimilar (qdrantService e) ctx embedding docType 3))
              docTypes)%list.
Proof.
  revert acc. induction docTypes as [|d ds IH]; intros acc; cbn [fold_left flat_map].
  - rewrite app_nil_r. reflexivity.
  - rewrite IH. destruct (SearchSimilar (qdrantService e) ctx embedding d 3);
      cbn [found app]; rewrite <- ?app_assoc; reflexivity.
Qed.

(** X23: Once the query is embedded, retrieval does not fail: a category
    whose search fails is left out, and the context is made of the
    results of the other categories, in the order of the categories.
    Every result found is in the context with its trimmed text. *)
Theorem retrieveContext_skips_failed_searches (queryText : string)
  (docTypes : list string) (embedding : list float) :
  GenerateEmbedding (geminiService e) ctx queryText = Ok embedding ->
  retrieveContext e ctx queryText docTypes
  = Ok (FormatRAGContext
          (flat_map
             (fun docType =>
                found (SearchSimilar (qdrantService e) ctx embedding docType 3))
             docTypes))
  /\ (forall docType results r,
        In docType docTypes ->
        SearchSimilar (qdrantService e) ctx embedding docType 3 = Ok results ->
        In r results ->
        Contains (stageContext e ctx queryText docTypes) (TrimSpace (Text r)) = true).
Proof.
  intros Hemb.
  assert (Heq : retrieveContext e ctx queryText docTypes
                = Ok (FormatRAGContext
                        (flat_map
                           (fun docType =>
                              found (SearchSimilar (qdrantService e) ctx embedding
                                       docType 3))
                           docTypes))).
  { unfold retrieveContext. rewrite Hemb, searches_flat_map. reflexivity. }
  split; [exact Heq|].
  intros docType results r Hd Hres Hr. unfold stageContext. rewrite Heq.
  apply FormatRAGContext_Contains. apply in_flat_map.
  exists docType. split; [exact Hd|]. rewrite Hres. exact Hr.
Qed.

(** X24: Each prompt holds every text it is built from: the CV prompt the CV,
    the job description, the rubric and the job title; the project
    prompt the report, the brief and the rubric; the summary prompt the
    two feedbacks, the two scores as [%.2f] prints them and the job
    title. *)
Theorem prompts_hold_their_inputs :
  (forall cvText jobDescription scoringRubric jobTitle x,
      In x [cvText; jobDescription; scoringRubric; jobTitle] ->
      Contains (BuildCVEvaluationPrompt cvText jobDescription scoringRubric jobTitle) x
      = true)
  /\ (forall projectText caseStudyBrief scoringRubric x,
        In x [projectText; caseStudyBrief; scoringRubric] ->
        Contains (BuildProjectEvaluationPrompt projectText caseStudyBrief scoringRubric) x
        = true)
  /\ (forall cvFeedback projectFeedback cvMatchRate projectScore jobTitle x,
        In x [cvFeedback; projectFeedback; fmt_2f cvMatchRate; fmt_2f projectScore;
              jobTitle] ->
        Contains
          (BuildFinalSummaryPrompt cvFeedback projectFeedback cvMatchRate projectScore
             jobTitle) x
        = true).
Proof.
  split; [|split]; intros; apply concat_Contains;
    cbn [In] in *; intuition (subst; auto 20).
Qed.

End ContextMore.

Section ContextMoreScenarios.
Import Evaluator Prompt Run More Scenario.
Local Existing Instance twoDecimals.

(** Retrieval for the CV stage on an index whose search fails for the
    job descriptions. *)
Lemma retrieveContext_skips_failed_searches_witness :
  GenerateEmbedding (geminiService servicePartial) Gemini.Background "Ten years of Go."
  = Ok [1%float; 0%float]
  /\ SearchSimilar partialIndex Gemini.Background [1%float; 0%float]
       "job_description" 3 = Err "index unavailable"
  /\ retrieveContext servicePartial Gemini.Background "Ten years of Go."
       ["job_description"; "cv_rubric"]
     = Ok (FormatRAGContext [rubric])
  /\ Contains
       (stageContext servicePartial Gemini.Background "Ten years of Go."
          ["job_description"; "cv_rubric"]) "Five points for Go." = true.
Proof.
  assert (Hemb : GenerateEmbedding (geminiService servicePartial) Gemini.Background
                   "Ten years of Go." = Ok [1%float; 0%float]) by reflexivity.
  destruct (retrieveContext_skips_failed_searches servicePartial Gemini.Background
              "Ten years of Go." ["job_description"; "cv_rubric"] [1%float; 0%float]
              Hemb) as [Heq Hall].
  split; [exact Hemb|]. split; [reflexivity|]. split; [exact Heq|].
  apply (Hall "cv_rubric" [rubric] rubric); [right; left; reflexivity | reflexivity|].
  left. reflexivity.
Defined.

End ContextMoreScenarios.

(** ** The PDF parser *)

Section PDFMore.
Import Evaluator PDFParser More.
Local Arguments append : simpl nomatch.

Lemma high_solid (c : ascii) : (128 <= code c)%N -> solid c = false.
Proof.
  intros Hc. unfold solid. apply N.ltb_ge in Hc. rewrite Hc. reflexivity.
Qed.

Lemma eqb_solid (c : ascii) (k : N) :
  N.eqb (code c) k = true -> (128 <=? k)%N = true -> solid c = false.
Proof.
  intros Hc Hk. apply N.eqb_eq in Hc. apply N.leb_le in Hk.
  apply high_solid. lia.
Qed.

Lemma inRange_solid (c : ascii) (lo hi : N) :
  inRange lo hi c = true -> (128 <=? lo)%N = true -> solid c = false.
Proof.
  unfold inRange. intros Hc Hk. apply andb_prop in Hc. destruct Hc as [Hc _].
  apply N.leb_le in Hc. apply N.leb_le in Hk. apply high_solid. lia.
Qed.

Ltac cases H :=
  repeat match type of H with
    | (_ || _) = true => apply orb_prop in H; destruct H as [H|H]
    end.

Ltac high :=
  match goal with
  | H : N.eqb (code ?c) _ = true |- solid ?c = false =>
      exact (eqb_solid c _ H eq_refl)
  | H : inRange _ _ ?c = true |- solid ?c = false =>
      exact (inRange_solid c _ _ H eq_refl)
  end.

Lemma asciiSpace_solid (c : ascii) : asciiSpace c = true -> solid c = false.
Proof. intros Hc. unfold solid. rewrite Hc. apply andb_false_r. Qed.

Lemma space2_solid (a b : ascii) :
  space2 a b = true -> solid a = false /\ solid b = false.
Proof.
  unfold space2. intros Hs. apply andb_prop in Hs. destruct Hs as [Ha Hb].
  cases Hb; split; high.
Qed.

Lemma space3_solid (a b c : ascii) :
  space3 a b c = true -> solid a = false /\ solid b = false /\ solid c = false.
Proof.
  unfold space3. intros Hs. cases Hs;
    apply andb_prop in Hs; destruct Hs as [Hs Hc];
    apply andb_prop in Hs; destruct Hs as [Ha Hb];
    cases Hc; repeat split; high.
Qed.

Lemma trimLeft_solid (s : string) :
  noByte solid s = false -> noByte solid (trimLeft s) = false.
Proof.
  assert (Hgen : forall n s, (String.length s <= n)%nat ->
                   noByte solid s = false -> noByte solid (trimLeft s) = false).
  { clear s. induction n as [|n IH]; intros s Hlen Hs.
    - destruct s; [discriminate | cbn in Hlen; lia].
    - destruct s as [|c1 s1]; [discriminate|]. cbn [trimLeft].
      cbn [String.length] in Hlen. pose proof Hs as Hs0. cbn [noByte] in Hs.
      destruct (asciiSpace c1) eqn:H1.
      { rewrite (asciiSpace_solid c1 H1) in Hs. apply IH; [lia | exact Hs]. }
      destruct s1 as [|c2 s2]; [exact Hs0|]. cbn [String.length] in Hlen.
      destruct (space2 c1 c2) eqn:H2.
      { destruct (space2_solid c1 c2 H2) as [Ha Hb]. cbn [noByte] in Hs.
        rewrite Ha, Hb in Hs. apply IH; [lia | exact Hs]. }
      destruct s2 as [|c3 s3]; [exact Hs0|]. cbn [String.length] in Hlen.
      destruct (space3 c1 c2 c3) eqn:H3; [|exact Hs0].
      destruct (space3_solid c1 c2 c3 H3) as [Ha [Hb Hc]]. cbn [noByte] in Hs.
      rewrite Ha, Hb, Hc in Hs. apply IH; [lia | exact Hs]. }
  apply (Hgen (String.length s)). lia.
Qed.

Lemma trimLeftRev_solid (s : string) :
  noByte solid s = false -> noByte solid (trimLeftRev s) = false.
Proof.
  assert (Hgen : forall n s, (String.length s <= n)%nat ->
                   noByte solid s = false -> noByte solid (trimLeftRev s) = false).
  { clear s. induction n as [|n IH]; intros s Hlen Hs.
    - destruct s; [discriminate | cbn in Hlen; lia].
    - destruct s as [|c1 s1]; [discriminate|]. cbn [trimLeftRev].
      cbn [String.length] in Hlen. pose proof Hs as Hs0. cbn [noByte] in Hs.
      destruct (asciiSpace c1) eqn:H1.
      { rewrite (asciiSpace_solid c1 H1) in Hs. apply IH; [lia | exact Hs]. }
      destruct s1 as [|c2 s2]; [exact Hs0|]. cbn [String.length] in Hlen.
      destruct (space2 c2 c1) eqn:H2.
      { destruct (space2_solid c2 c1 H2) as [Ha Hb]. cbn [noByte] in Hs.
        rewrite Ha, Hb in Hs. apply IH; [lia | exact Hs]. }
      destruct s2 as [|c3 s3]; [exact Hs0|]. cbn [String.length] in Hlen.
      destruct (space3 c3 c2 c1) eqn:H3; [|exact Hs0].
      destruct (space3_solid c3 c2 c1 H3) as [Ha [Hb Hc]]. cbn [noByte] in Hs.
      rewrite Ha, Hb, Hc in Hs. apply IH; [lia | exact Hs]. }
  apply (Hgen (String.length s)). lia.
Qed.

(** A text with an ASCII byte that is not white space is not blank. *)
Lemma TrimSpace_solid (s : string) :
  noByte solid s = false -> isEmpty (TrimSpace s) = false.
Proof.
  intros Hs. unfold TrimSpace, trimRight.
  assert (Hkeep : noByte solid (rev (trimLeftRev (rev (trimLeft s)))) = false).
  { rewrite noByte_rev. apply trimLeftRev_solid. rewrite noByte_rev.
    apply trimLeft_solid. exact Hs. }
  destruct (rev (trimLeftRev (rev (trimLeft s)))); [discriminate | reflexivity].
Qed.

(** A text of ASCII white space is blank. *)
Lemma TrimSpace_blank (s : string) :
  noByte (fun c => negb (asciiSpace c)) s = true -> TrimSpace s = EmptyString.
Proof.
  intros Hs. assert (Hl : trimLeft s = EmptyString).
  { induction s as [|c s IH]; [reflexivity|]. cbn [noByte] in Hs.
    apply andb_prop in Hs. destruct Hs as [Hc Hs].
    apply negb_true_iff, negb_false_iff in Hc. cbn [trimLeft]. rewrite Hc.
    apply IH. exact Hs. }
  unfold TrimSpace. rewrite Hl. reflexivity.
Qed.

Lemma headedPages_unreadable (pages : list pdfPage) (i : Z) (b : string) :
  existsb readable pages = false -> headedPages i pages b = b.
Proof.
  revert i b. induction pages as [|p pages IH]; intros i b Hp; [reflexivity|].
  cbn [existsb] in Hp. apply orb_false_elim in Hp. destruct Hp as [Hp Hps].
  destruct p as [|[text|err]]; try discriminate; cbn [headedPages]; apply IH; exact Hps.
Qed.

Lemma headedPages_keeps (pages : list pdfPage) (i : Z) (b : string) :
  noByte solid b = false -> noByte solid (headedPages i pages b) = false.
Proof.
  revert i b. induction pages as [|p pages IH]; intros i b Hb; [exact Hb|].
  destruct p as [|[text|err]]; cbn [headedPages]; try (apply IH; exact Hb).
  apply IH. rewrite noByte_append, Hb. reflexivity.
Qed.

Lemma headedPages_readable (pages : list pdfPage) (i : Z) (b : string) :
  existsb readable pages = true -> noByte solid (headedPages i pages b) = false.
Proof.
  revert i b. induction pages as [|p pages IH]; intros i b Hp; [discriminate|].
  destruct p as [|[text|err]]; cbn [existsb readable orb] in Hp; cbn [headedPages];
    try (apply IH; exact Hp).
  apply headedPages_keeps. rewrite !noByte_append.
  replace (noByte solid
             ("--- Page " ++ Itoa i ++ " ---" ++ String (byte 10) EmptyString))
    with false by reflexivity.
  cbn [andb]. apply andb_false_r.
Qed.

Lemma plainPages_blank (pages : list pdfPage) (b : string) :
  forallb blankPage pages = true ->
  noByte (fun c => negb (asciiSpace c)) b = true ->
  noByte (fun c => negb (asciiSpace c)) (plainPages pages b) = true.
Proof.
  revert b. induction pages as [|p pages IH]; intros b Hp Hb; [exact Hb|].
  cbn [forallb] in Hp. apply andb_prop in Hp. destruct Hp as [Hp Hps].
  destruct p as [|[text|err]]; cbn [plainPages]; try (apply IH; assumption).
  apply IH; [exact Hps|]. cbn [blankPage] in Hp.
  rewrite !noByte_append, Hb, Hp. reflexivity.
Qed.

(** X25: What [ExtractTextWithMetaData] returns for a path: an error for a
    missing file and for a file that does not open; for a document, its
    text when one page at least is read, whatever the page holds, with
    the count of all its pages, read or not; and an error when no page
    is read. *)
Theorem ExtractTextWithMetaData_outcomes (fs : FileSystem) (filePath : string) :
  (fs filePath = NotExist ->
   ExtractTextWithMetaData fs filePath = Err ("file does not exist: " ++ filePath))
  /\ (forall err,
        fs filePath = OpenFails err ->
        ExtractTextWithMetaData fs filePath = Err ("failed to open PDF: " ++ err))
  /\ (forall pages,
        fs filePath = Opened pages ->
        ExtractTextWithMetaData fs filePath
        = if existsb readable pages
          then Ok {| pdfText := headedPages 1 pages EmptyString;
                     PageCount := Z.of_nat (List.length pages);
                     pdfFilePath := filePath |}
          else Err "no text content found in PDF").
Proof.
  unfold ExtractTextWithMetaData, Open. split; [|split].
  - intros ->. reflexivity.
  - intros err ->. reflexivity.
  - intros pages ->. destruct (existsb readable pages) eqn:Hp.
    + rewrite (TrimSpace_solid _ (headedPages_readable pages 1 EmptyString Hp)).
      reflexivity.
    + rewrite (headedPages_unreadable pages 1 EmptyString Hp). reflexivity.
Qed.

(** X26: The two extractors differ on a document whose pages are read and
    hold white space only: [ExtractText] finds no text in it, and
    [ExtractTextWithMetaData] returns the page headers it wrote itself. *)
Theorem blank_document_has_text_with_headers (fs : FileSystem) (filePath : string)
  (pages : list pdfPage) :
  fs filePath = Opened pages ->
  existsb readable pages = true ->
  forallb blankPage pages = true ->
  ExtractText fs filePath = Err "no text content found in PDF"
  /\ ExtractTextWithMetaData fs filePath
     = Ok {| pdfText := headedPages 1 pages EmptyString;
             PageCount := Z.of_nat (List.length pages);
             pdfFilePath := filePath |}.
Proof.
  intros Hfs Hread Hblank. unfold ExtractText, ExtractTextWithMetaData, Open.
  rewrite Hfs. split.
  - rewrite (TrimSpace_blank _ (plainPages_blank pages EmptyString Hblank eq_refl)).
    reflexivity.
  - rewrite (TrimSpace_solid _ (headedPages_readable pages 1 EmptyString Hread)).
    reflexivity.
Qed.

(** A scanned document of two pages without text. *)
Lemma blank_document_has_text_with_headers_witness :
  scanOnly "scan.pdf" = Opened [PlainText (Ok " "); PlainText (Ok EmptyString)]
  /\ ExtractText scanOnly "scan.pdf" = Err "no text content found in PDF"
  /\ ExtractTextWithMetaData scanOnly "scan.pdf"
     = Ok {| pdfText :=
               headedPages 1 [PlainText (Ok " "); PlainText (Ok EmptyString)] EmptyString;
             PageCount := 2; pdfFilePath := "scan.pdf" |}.
Proof.
  assert (Hfs : scanOnly "scan.pdf"
                = Opened [PlainText (Ok " "); PlainText (Ok EmptyString)])
    by reflexivity.
  destruct (blank_document_has_text_with_headers scanOnly "scan.pdf" _ Hfs
              eq_refl eq_refl) as [Hplain Hmeta].
  split; [exact Hfs|]. split; [exact Hplain | exact Hmeta].
Defined.

End PDFMore.

(** ** The text cleaner *)

Section CleanTextMore.
Import PDFParser More.
Local Arguments append : simpl nomatch.

Local Abbreviation isNl := (Ascii.eqb (byte 10)).
Local Abbreviation nl := (String (byte 10) EmptyString).

Lemma splitAux_lines (s acc : string) :
  noByte isNl acc = true ->
  Forall (fun line => noByte isNl line = true) (splitAux nl O acc s).
Proof.
  revert acc. induction s as [|c s IH]; intros acc Hacc; cbn [splitAux].
  - repeat constructor. exact Hacc.
  - cbn [HasPrefix]. destruct (isNl c) eqn:Hc; cbn [andb].
    + replace (HasPrefix s EmptyString) with true by (destruct s; reflexivity).
      constructor; [exact Hacc|]. apply IH. reflexivity.
    + apply IH. rewrite noByte_append, Hacc. cbn [noByte]. rewrite Hc. reflexivity.
Qed.

Lemma line_no_newline (p sub : string) :
  noByte isNl p = true -> Contains p (String (byte 10) sub) = false.
Proof.
  induction p as [|c p IH]; intros Hp; [reflexivity|].
  cbn [noByte] in Hp. apply andb_prop in Hp. destruct Hp as [Hc Hp].
  apply negb_true_iff in Hc. cbn [Contains HasPrefix]. rewrite Hc, (IH Hp).
  reflexivity.
Qed.

Lemma line_then_rest (p rest : string) :
  noByte isNl p = true ->
  HasPrefix rest nl = false ->
  Contains rest nn = false ->
  Contains (p ++ nl ++ rest) nn = false.
Proof.
  intros Hp Hstart Hrest. induction p as [|c p IH].
  - change (EmptyString ++ nl ++ rest) with (String (byte 10) rest).
    cbn [Contains]. rewrite Hrest. unfold nn. cbn [HasPrefix].
    rewrite Ascii.eqb_refl. cbn [andb]. cbn [HasPrefix] in Hstart.
    rewrite Hstart. reflexivity.
  - cbn [noByte] in Hp. apply andb_prop in Hp. destruct Hp as [Hc Hp].
    apply negb_true_iff in Hc.
    change (String c p ++ nl ++ rest) with (String c (p ++ nl ++ rest)).
    cbn [Contains]. rewrite (IH Hp). unfold nn. cbn [HasPrefix]. rewrite Hc.
    reflexivity.
Qed.

Lemma Join_lines (lines : list string) :
  Forall (fun line => isEmpty line = false /\ noByte isNl line = true) lines ->
  Contains (Join lines nl) nn = false /\ HasPrefix (Join lines nl) nl = false.
Proof.
  induction 1 as [|p rest [Hne Hp] Hrest [IHc IHp]]; [split; reflexivity|].
  assert (Hstart : forall t, HasPrefix (p ++ t) nl = false).
  { intros t. destruct p as [|c p]; [discriminate|].
    cbn [noByte] in Hp. apply andb_prop in Hp. destruct Hp as [Hc _].
    apply negb_true_iff in Hc. change (String c p ++ t) with (String c (p ++ t)).
    cbn [HasPrefix]. rewrite Hc. reflexivity. }
  destruct rest as [|q rest].
  - cbn [Join]. split; [apply line_no_newline; exact Hp|].
    rewrite <- (append_nil_r p). apply Hstart.
  - change (Join (p :: q :: rest) nl) with (p ++ nl ++ Join (q :: rest) nl).
    split; [apply line_then_rest; assumption | apply Hstart].
Qed.

(** X27: The text [CleanText] returns has no empty line: it does not start
    with a line break and nowhere has two line breaks in a row. *)
Theorem CleanText_has_no_empty_line (text : string) :
  Contains (CleanText text) nn = false
  /\ HasPrefix (CleanText text) (String (byte 10) EmptyString) = false.
Proof.
  unfold CleanText. apply Join_lines.
  apply (sentences_fold
           (fun line => isEmpty line = false /\ noByte isNl line = true));
    [constructor|].
  unfold Split.
  pose proof (splitAux_lines (TrimSpace text) EmptyString eq_refl) as Hall.
  induction Hall as [|line lines Hline _ IH]; constructor; [|exact IH].
  intros Hne. split; [exact Hne | apply noByte_TrimSpace; exact Hline].
Qed.

End CleanTextMore.
